(** * Puissance 4 on a 6 x 12 grid: the decision engine of P4.py and P4v2.py

    A shallow embedding of the two Python programs and the properties of
    their board model, win detection, heuristics, move ordering and
    alpha-beta search.

    Conventions of the embedding.
    - A board is the Python list of rows, each row a list of integers;
      row 0 is the top of the grid and row [ROWS - 1] the bottom.
    - [board[row][col]] is [cell board row col]. Every index the programs
      use lies in the 6 x 12 grid, so on a board of that shape
      ([board_shape]) no lookup is out of range. Outside the grid [cell]
      reads [EMPTY]; the statements that depend on the shape carry it as a
      hypothesis, the others hold for every list of rows and so for every
      board.
    - [float('-inf')] and [float('inf')] are the two extra points of [ext].
    - The wall clock is an oracle [expired : nat -> bool]: the answer of the
      k-th test [time.time() - start_time > limit].
    - [random.choice] takes the drawn number as an argument. *)

From stdpp Require Import base list gmap strings pretty.
From Stdlib Require Import ZArith Lia Sorted Ascii.

Local Open Scope Z_scope.

(** ** Constants (identical in both programs) *)

Definition ROWS : nat := 6.
Definition COLS : nat := 12.
Definition AI_PLAYER : Z := 1.
Definition HUMAN_PLAYER : Z := -1.
Definition EMPTY : Z := 0.

Abbreviation board := (list (list Z)).

(** ** Extended integers: Python numbers together with the two infinities *)

Inductive ext : Type :=
| NegInf : ext
| Fin : Z -> ext
| PosInf : ext.

Definition ext_leb (x y : ext) : bool :=
  match x, y with
  | NegInf, _ => true
  | _, PosInf => true
  | Fin a, Fin b => a <=? b
  | _, _ => false
  end.

Definition ext_ltb (x y : ext) : bool := negb (ext_leb y x).

(** [max(x, y)] and [min(x, y)] of Python. *)
Definition ext_max (x y : ext) : ext := if ext_ltb x y then y else x.
Definition ext_min (x y : ext) : ext := if ext_ltb y x then y else x.

(** ** Board model (the same text in P4.py and P4v2.py) *)

(** [board[row][col]] *)
Definition cell (b : board) (row col : nat) : Z :=
  default EMPTY (b !! row ≫= (.!! col)).

(** [new_board[row][col] = player] *)
Definition set_cell (b : board) (row col : nat) (player : Z) : board :=
  match b !! row with
  | Some r => <[row := <[col := player]> r]> b
  | None => b
  end.

Definition is_valid_move (b : board) (col : nat) : bool :=
  (0 <=? col)%nat && (col <? COLS)%nat && (cell b 0 col =? EMPTY).

Definition get_valid_moves (b : board) : list nat :=
  List.filter (is_valid_move b) (seq 0 COLS).

(** The loop [for row in range(ROWS - 1, -1, -1)] of [drop_piece], over the
    rows still to visit; the result is the pair [(new_board, row)]. *)
Fixpoint drop_loop (rows : list nat) (new_board : board) (col : nat)
    (player : Z) : board * Z :=
  match rows with
  | [] => (new_board, -1)
  | row :: rest =>
      if cell new_board row col =? EMPTY
      then (set_cell new_board row col player, Z.of_nat row)
      else drop_loop rest new_board col player
  end.

(** [copy.deepcopy] gives a value equal to its argument that shares no row
    with it; on values it is the identity ([Heap.drop_piece] below is the
    same function on a store of row objects). *)
Definition deepcopy (b : board) : board := b.

Definition drop_piece (b : board) (col : nat) (player : Z) : board * Z :=
  let new_board := deepcopy b in
  drop_loop (rev (seq 0 ROWS)) new_board col player.

Definition is_board_full (b : board) : bool :=
  forallb (fun col => negb (cell b 0 col =? EMPTY)) (seq 0 COLS).

(** [random.choice(seq)] with the drawn number [r]: an IndexError on the
    empty list, otherwise the element at position [r mod len(seq)]. *)
Definition random_choice (r : nat) (l : list nat) : option nat :=
  match l with
  | [] => None
  | _ => l !! (r mod length l)%nat
  end.

(** The four families of 4-cell lines, in the loop order of the programs. *)
Definition line_h (b : board) (row col : nat) : list Z :=
  map (fun i => cell b row (col + i)) (seq 0 4).
Definition line_v (b : board) (row col : nat) : list Z :=
  map (fun i => cell b (row + i) col) (seq 0 4).
Definition line_d (b : board) (row col : nat) : list Z :=
  map (fun i => cell b (row + i) (col + i)) (seq 0 4).
Definition line_u (b : board) (row col : nat) : list Z :=
  map (fun i => cell b (row - i) (col + i)) (seq 0 4).

(** The lines of the four loop nests of [heuristic] (P4.py) and of
    [evaluate_lines] (P4v2.py), in the order visited. *)
Definition board_lines (b : board) : list (list Z) :=
  flat_map (fun row => map (fun col => line_h b row col) (seq 0 (COLS - 3)))
    (seq 0 ROWS)
  ++ flat_map (fun col => map (fun row => line_v b row col) (seq 0 (ROWS - 3)))
    (seq 0 COLS)
  ++ flat_map (fun row => map (fun col => line_d b row col) (seq 0 (COLS - 3)))
    (seq 0 (ROWS - 3))
  ++ flat_map (fun row => map (fun col => line_u b row col) (seq 0 (COLS - 3)))
    (seq 3 (ROWS - 3)).

(** [all(x == player for x in line)] *)
Definition all_eq (player : Z) (line : list Z) : bool :=
  forallb (fun x => x =? player) line.

(** ** P4.py *)

Module P4.

Definition MAX_DEPTH : nat := 6.

Definition check_win (b : board) (player : Z) : bool :=
  existsb (fun row =>
    existsb (fun col => all_eq player (line_h b row col)) (seq 0 (COLS - 3)))
    (seq 0 ROWS)
  || existsb (fun row =>
    existsb (fun col => all_eq player (line_v b row col)) (seq 0 COLS))
    (seq 0 (ROWS - 3))
  || existsb (fun row =>
    existsb (fun col => all_eq player (line_d b row col)) (seq 0 (COLS - 3)))
    (seq 0 (ROWS - 3))
  || existsb (fun row =>
    existsb (fun col => all_eq player (line_u b row col)) (seq 0 (COLS - 3)))
    (seq 3 (ROWS - 3)).

Definition Terminal_Test (b : board) : bool :=
  check_win b AI_PLAYER || check_win b HUMAN_PLAYER || is_board_full b.

Definition Utility (b : board) : Z :=
  if check_win b AI_PLAYER then 10000
  else if check_win b HUMAN_PLAYER then -10000
  else 0.

Definition check_immediate_threat (b : board) (player : Z) (col : nat) : bool :=
  let '(temp_board, row) := drop_piece b col player in
  if row =? -1 then false else check_win temp_board player.

(** [center_columns.index(x) if x in center_columns else len(center_columns)] *)
Definition center_columns : list nat := [5; 6; 4; 7; 3; 8]%nat.

Fixpoint index_of (x : nat) (l : list nat) : option nat :=
  match l with
  | [] => None
  | y :: l' => if (y =? x)%nat then Some 0%nat else S <$> index_of x l'
  end.

Definition center_key (x : nat) : nat :=
  match index_of x center_columns with
  | Some i => i
  | None => length center_columns
  end.

(** [list.sort(key=...)] is a stable sort; the result of a stable sort is
    determined by the keys, and a stable insertion sort computes it. *)
Fixpoint insert_by (key : nat -> nat) (x : nat) (l : list nat) : list nat :=
  match l with
  | [] => [x]
  | y :: l' =>
      if (key x <=? key y)%nat then x :: y :: l' else y :: insert_by key x l'
  end.

Fixpoint sort_by (key : nat -> nat) (l : list nat) : list nat :=
  match l with
  | [] => []
  | x :: l' => insert_by key x (sort_by key l')
  end.

(** One turn of the loop [for col in valid_moves] of [prioritize_moves];
    the state is [(winning_moves, blocking_moves, other_moves)]. *)
Definition classify (b : board) (acc : list nat * list nat * list nat)
    (col : nat) : list nat * list nat * list nat :=
  let '(winning_moves, blocking_moves, other_moves) := acc in
  if check_immediate_threat b AI_PLAYER col
  then (winning_moves ++ [col], blocking_moves, other_moves)
  else if check_immediate_threat b HUMAN_PLAYER col
  then (winning_moves, blocking_moves ++ [col], other_moves)
  else (winning_moves, blocking_moves, other_moves ++ [col]).

Definition prioritize_moves (b : board) : list nat :=
  let valid_moves := get_valid_moves b in
  let '(winning_moves, blocking_moves, other_moves) :=
    fold_left (classify b) valid_moves ([], [], []) in
  winning_moves ++ blocking_moves ++ sort_by center_key other_moves.

(** The dictionary [weights = {3: 100, 2: 10, 1: 1}]. *)
Definition weights (count : Z) : option Z :=
  if count =? 3 then Some 100
  else if count =? 2 then Some 10
  else if count =? 1 then Some 1
  else None.

(** The two identical blocks of [count_sequence] that score the run just
    ended: the amount added to [seq_score]. *)
Definition run_score (player count empty : Z) : Z :=
  if (count =? 3) && (1 <=? empty)
  then (if player =? AI_PLAYER then 1000 else -1000)
  else match weights count with
       | Some w => if 4 - count <=? empty then w else 0
       | None => 0
       end.

Fixpoint count_sequence_loop (line : list Z) (player count empty seq_score : Z)
    : Z :=
  match line with
  | [] => seq_score + run_score player count empty
  | c :: rest =>
      if c =? player then
        count_sequence_loop rest player (count + 1) empty seq_score
      else if c =? EMPTY then
        count_sequence_loop rest player count (empty + 1) seq_score
      else
        count_sequence_loop rest player 0 0
          (seq_score + run_score player count empty)
  end.

Definition count_sequence (line : list Z) (player : Z) : Z :=
  count_sequence_loop line player 0 0 0.

(** [score += count_sequence(line, AI_PLAYER)] then
    [score -= count_sequence(line, HUMAN_PLAYER)] *)
Definition add_line (score : Z) (line : list Z) : Z :=
  score + count_sequence line AI_PLAYER - count_sequence line HUMAN_PLAYER.

Definition heuristic (b : board) : Z :=
  fold_left add_line (board_lines b) 0.

(** *** Alpha-beta search

    [max_value] and [min_value] explore [prioritize_moves board]; the move
    list is a parameter [order] of the definitions so that the search can be
    compared under different orders. *)

Section Search.

Variable order : board -> list nat.

(** The loop of [max_value]; [child] is the recursive call [min_value] at
    [depth - 1]. *)
Fixpoint max_loop (child : board -> ext -> ext -> ext) (b : board)
    (cols : list nat) (v alpha beta : ext) : ext :=
  match cols with
  | [] => v
  | col :: rest =>
      let new_board := fst (drop_piece b col AI_PLAYER) in
      let v := ext_max v (child new_board alpha beta) in
      let alpha := ext_max alpha v in
      if ext_leb beta v then v else max_loop child b rest v alpha beta
  end.

(** The loop of [min_value]. *)
Fixpoint min_loop (child : board -> ext -> ext -> ext) (b : board)
    (cols : list nat) (v alpha beta : ext) : ext :=
  match cols with
  | [] => v
  | col :: rest =>
      let new_board := fst (drop_piece b col HUMAN_PLAYER) in
      let v := ext_min v (child new_board alpha beta) in
      let beta := ext_min beta v in
      if ext_leb v alpha then v else min_loop child b rest v alpha beta
  end.

Fixpoint max_value_with (b : board) (alpha beta : ext) (depth : nat)
    {struct depth} : ext :=
  if Terminal_Test b then Fin (Utility b)
  else match depth with
       | O => Fin (heuristic b)
       | S d =>
           max_loop (fun nb a be => min_value_with nb a be d)
             b (order b) NegInf alpha beta
       end
with min_value_with (b : board) (alpha beta : ext) (depth : nat)
    {struct depth} : ext :=
  if Terminal_Test b then Fin (Utility b)
  else match depth with
       | O => Fin (heuristic b)
       | S d =>
           min_loop (fun nb a be => max_value_with nb a be d)
             b (order b) PosInf alpha beta
       end.

End Search.

Definition max_value : board -> ext -> ext -> nat -> ext :=
  max_value_with prioritize_moves.
Definition min_value : board -> ext -> ext -> nat -> ext :=
  min_value_with prioritize_moves.

(** The loop of [IA_Decision]. [k] counts the deadline tests made so far and
    [expired k] is the answer of the next one. [max_depth] stands for the
    constant [MAX_DEPTH], which is at least 1 (the search is entered with
    [MAX_DEPTH - 1] and counts down to 0). *)
Fixpoint decision_loop (max_depth : nat) (expired : nat -> bool) (b : board)
    (moves : list nat) (k : nat) (best_value : ext) (best_move : option nat)
    : option nat :=
  match moves with
  | [] => best_move
  | col :: rest =>
      let new_board := fst (drop_piece b col AI_PLAYER) in
      let value := min_value new_board NegInf PosInf (max_depth - 1) in
      let '(best_value, best_move) :=
        if ext_ltb best_value value then (value, Some col)
        else (best_value, best_move) in
      if expired k then best_move
      else decision_loop max_depth expired b rest (S k) best_value best_move
  end.

(** [IA_Decision] with the depth constant, the clock oracle and the random
    draw made explicit; [None] is the IndexError of [random.choice([])]. *)
Definition IA_Decision_at (max_depth : nat) (expired : nat -> bool) (r : nat)
    (b : board) : option nat :=
  let moves := prioritize_moves b in
  match decision_loop max_depth expired b moves 0 NegInf None with
  | Some best_move => Some best_move
  | None => random_choice r (get_valid_moves b)
  end.

Definition IA_Decision : (nat -> bool) -> nat -> board -> option nat :=
  IA_Decision_at MAX_DEPTH.

End P4.

(** ** P4v2.py *)

Module P4v2.

Definition BASE_DEPTH : nat := 3.

(** Same loops as in P4.py, the vertical nest with the column outside. *)
Definition check_win (b : board) (player : Z) : bool :=
  existsb (fun row =>
    existsb (fun col => all_eq player (line_h b row col)) (seq 0 (COLS - 3)))
    (seq 0 ROWS)
  || existsb (fun col =>
    existsb (fun row => all_eq player (line_v b row col)) (seq 0 (ROWS - 3)))
    (seq 0 COLS)
  || existsb (fun row =>
    existsb (fun col => all_eq player (line_d b row col)) (seq 0 (COLS - 3)))
    (seq 0 (ROWS - 3))
  || existsb (fun row =>
    existsb (fun col => all_eq player (line_u b row col)) (seq 0 (COLS - 3)))
    (seq 3 (ROWS - 3)).

Definition Terminal_Test (b : board) : bool :=
  check_win b AI_PLAYER || check_win b HUMAN_PLAYER || is_board_full b.

(** [line.count(x)] *)
Definition count (x : Z) (line : list Z) : Z :=
  Z.of_nat (length (List.filter (fun y => y =? x) line)).

Definition evaluate_line (line : list Z) (player : Z) : Z :=
  let opponent := - player in
  if (0 <? count opponent line) && (0 <? count player line) then 0
  else if count player line =? 4 then 1000
  else if (count player line =? 3) && (count EMPTY line =? 1) then 50
  else if (count player line =? 2) && (count EMPTY line =? 2) then 10
  else if (count player line =? 1) && (count EMPTY line =? 3) then 1
  else 0.

Definition evaluate_lines (b : board) (player : Z) : Z :=
  fold_left (fun score line => score + evaluate_line line player)
    (board_lines b) 0.

Definition evaluate_position (b : board) : Z :=
  0 + evaluate_lines b AI_PLAYER - evaluate_lines b HUMAN_PLAYER.

(** *** The clock

    A computation that may test the deadline: it receives the count of tests
    made so far and returns the new count. *)

Definition Clock (A : Type) : Type := nat -> A * nat.

Definition ret {A : Type} (a : A) : Clock A := fun k => (a, k).

Definition bind {A B : Type} (m : Clock A) (f : A -> Clock B) : Clock B :=
  fun k => let '(a, k') := m k in f a k'.

Notation "'do' x <- m 'in' f" := (bind m (fun x => f))
  (at level 10, x name, m at level 100, f at level 200).

Section Timed.

Variable expired : nat -> bool.

(** [time.time() - start_time > MAX_TIME] *)
Definition time_exceeded : Clock bool := fun k => (expired k, S k).

(** The maximizing loop of [minimax_ab]; [child] is the recursive call at
    [depth - 1]. *)
Fixpoint max_loop (child : board -> ext -> ext -> Clock ext) (b : board)
    (cols : list nat) (value alpha beta : ext) : Clock ext :=
  match cols with
  | [] => ret value
  | col :: rest =>
      let new_board := fst (drop_piece b col AI_PLAYER) in
      do r <- child new_board alpha beta in
      let value := ext_max value r in
      let alpha := ext_max alpha value in
      if ext_leb beta alpha then ret value
      else max_loop child b rest value alpha beta
  end.

(** The minimizing loop of [minimax_ab]. *)
Fixpoint min_loop (child : board -> ext -> ext -> Clock ext) (b : board)
    (cols : list nat) (value alpha beta : ext) : Clock ext :=
  match cols with
  | [] => ret value
  | col :: rest =>
      let new_board := fst (drop_piece b col HUMAN_PLAYER) in
      do r <- child new_board alpha beta in
      let value := ext_min value r in
      let beta := ext_min beta value in
      if ext_leb beta alpha then ret value
      else min_loop child b rest value alpha beta
  end.

Fixpoint minimax_ab (b : board) (depth : nat) (alpha beta : ext)
    (maximizing_player : bool) {struct depth} : Clock ext :=
  do late <- time_exceeded in
  match depth with
  | O => ret (Fin (evaluate_position b))
  | S d =>
      if late || Terminal_Test b then ret (Fin (evaluate_position b))
      else
        let valid_moves := get_valid_moves b in
        if maximizing_player then
          max_loop (fun nb a be => minimax_ab nb d a be false)
            b valid_moves NegInf alpha beta
        else
          min_loop (fun nb a be => minimax_ab nb d a be true)
            b valid_moves PosInf alpha beta
  end.

(** The loop of [IA_Decision]. *)
Fixpoint decision_loop (base_depth : nat) (b : board) (moves : list nat)
    (best_score : ext) (best_move : nat) : Clock nat :=
  match moves with
  | [] => ret best_move
  | col :: rest =>
      let new_board := fst (drop_piece b col AI_PLAYER) in
      do score <- minimax_ab new_board base_depth NegInf PosInf false in
      let '(best_score, best_move) :=
        if ext_ltb best_score score then (score, col)
        else (best_score, best_move) in
      do late <- time_exceeded in
      if late then ret best_move
      else decision_loop base_depth b rest best_score best_move
  end.

(** [IA_Decision] with the depth constant and the random draw made
    explicit; [None] is the IndexError of [random.choice([])]. *)
Definition IA_Decision_at (base_depth : nat) (r : nat) (b : board)
    : option nat :=
  let valid_moves := get_valid_moves b in
  match random_choice r valid_moves with
  | None => None
  | Some best_move =>
      Some (fst (decision_loop base_depth b valid_moves NegInf best_move 0%nat))
  end.

End Timed.

Definition IA_Decision (expired : nat -> bool) : nat -> board -> option nat :=
  IA_Decision_at expired BASE_DEPTH.

End P4v2.

(** ** [drop_piece] on the store

    The Python board is a list of references to row objects and
    [new_board[row][col] = player] writes into a row object in place. This
    model keeps the row objects in a store, so that it can be said which
    objects [drop_piece] writes. [copy.deepcopy] copies every row object
    once: its memo maps the objects already copied to their copies, so a
    row object held at several indices of the board is held at the same
    indices, as one object, in the copy. *)

Module Heap.

(** Row objects by address. *)
Abbreviation store := (gmap nat (list Z)).

(** The outer list of a board: the addresses of its rows. *)
Abbreviation board_ref := (list nat).

Definition read_row (h : store) (l : nat) : list Z := default [] (h !! l).

(** The value of the board at [br] in the store [h]. *)
Definition read_board (h : store) (br : board_ref) : board :=
  read_row h <$> br.

Definition alloc (h : store) (row : list Z) : store * nat :=
  let l := fresh (dom h) in (<[l := row]> h, l).

(** The copy of the rows of a list, with the memo of [copy.deepcopy]. *)
Fixpoint deepcopy_rows (memo : gmap nat nat) (h : store) (br : board_ref)
    : store * board_ref :=
  match br with
  | [] => (h, [])
  | l :: rest =>
      match memo !! l with
      | Some l' =>
          let '(h2, rest') := deepcopy_rows memo h rest in
          (h2, l' :: rest')
      | None =>
          let '(h1, l') := alloc h (read_row h l) in
          let '(h2, rest') := deepcopy_rows (<[l := l']> memo) h1 rest in
          (h2, l' :: rest')
      end
  end.

(** [copy.deepcopy(board)] *)
Definition deepcopy (h : store) (br : board_ref) : store * board_ref :=
  deepcopy_rows ∅ h br.

(** [new_board[row][col] = player] *)
Definition store_cell (h : store) (br : board_ref) (row col : nat)
    (player : Z) : store :=
  match br !! row with
  | Some l =>
      match h !! l with
      | Some r => <[l := <[col := player]> r]> h
      | None => h
      end
  | None => h
  end.

Fixpoint drop_loop (rows : list nat) (h : store) (new_board : board_ref)
    (col : nat) (player : Z) : store * Z :=
  match rows with
  | [] => (h, -1)
  | row :: rest =>
      if cell (read_board h new_board) row col =? EMPTY
      then (store_cell h new_board row col player, Z.of_nat row)
      else drop_loop rest h new_board col player
  end.

(** The store after the call, the returned board and the returned row. *)
Definition drop_piece (h : store) (br : board_ref) (col : nat) (player : Z)
    : store * board_ref * Z :=
  let '(h1, new_board) := deepcopy h br in
  let '(h2, row) := drop_loop (rev (seq 0 ROWS)) h1 new_board col player in
  (h2, new_board, row).

(** [[fresh_row() for _ in range(n)]]: a new row object of [COLS] empty
    cells at every index. *)
Fixpoint new_rows (n : nat) (h : store) : store * board_ref :=
  match n with
  | O => (h, [])
  | S n' =>
      let '(h1, l) := alloc h (repeat EMPTY COLS) in
      let '(h2, rest) := new_rows n' h1 in
      (h2, l :: rest)
  end.

(** The board that [play_game] and [test_blocking_threat] start from:
    [[[EMPTY for _ in range(COLS)] for _ in range(ROWS)]] in P4.py,
    [[[EMPTY]*COLS for _ in range(ROWS)]] in P4v2.py. *)
Definition new_board (h : store) : store * board_ref := new_rows ROWS h.

End Heap.

(** ** Vocabulary of the specification *)

(** A board of the fixed shape: [ROWS] rows of [COLS] cells. *)
Definition board_shape (b : board) : bool :=
  (length b =? ROWS)%nat && forallb (fun r => (length r =? COLS)%nat) b.

(** [player] is one of the two sides. *)
Definition is_player (player : Z) : bool :=
  (player =? AI_PLAYER) || (player =? HUMAN_PLAYER).

(** The board of the start of a game. *)
Definition empty_board : board := repeat (repeat EMPTY COLS) ROWS.

(** What [drop_loop] returns on the rows [n - 1, ..., 0]: either the lowest
    empty row of the column, filled, or the sentinel [-1] and the board as
    it was. *)
Definition drop_result (n : nat) (b : board) (col : nat) (p : Z)
    (res : board * Z) : Prop :=
  (exists row, (row < n)%nat /\ res = (set_cell b row col p, Z.of_nat row)
     /\ cell b row col = EMPTY
     /\ forall row', (row < row' < n)%nat -> cell b row' col <> EMPTY)
  \/ (res = (b, -1) /\ forall row, (row < n)%nat -> cell b row col <> EMPTY).

(** Gravity, on neighbouring rows: no occupied cell sits on an empty one. *)
Definition gravity (b : board) : bool :=
  forallb (fun col =>
    forallb (fun row =>
      (cell b row col =? EMPTY) || negb (cell b (S row) col =? EMPTY))
      (seq 0 (ROWS - 1)))
    (seq 0 COLS).

(** Every cell of the column is occupied. *)
Definition column_full (b : board) (col : nat) : bool :=
  forallb (fun row => negb (cell b row col =? EMPTY)) (seq 0 ROWS).

(** The four directions of a line and the [i]-th cell of the line that
    starts at [(row, col)]. *)
Inductive direction : Type := Horizontal | Vertical | DiagDown | DiagUp.

Definition line_cell (d : direction) (row col i : nat) : nat * nat :=
  match d with
  | Horizontal => (row, col + i)
  | Vertical => (row + i, col)
  | DiagDown => (row + i, col + i)
  | DiagUp => (row - i, col + i)
  end%nat.

Definition in_grid (rc : nat * nat) : Prop :=
  (fst rc < ROWS)%nat /\ (snd rc < COLS)%nat.

(** [n] consecutive cells of the grid from [(row, col)] in direction [d], all
    holding [player]. For [DiagUp] the line climbs, so it has to start at
    least [i] rows down to have an [i]-th cell. *)
Definition run_from (b : board) (player : Z) (d : direction)
    (row col n : nat) : Prop :=
  forall i, (i < n)%nat ->
    (d = DiagUp -> (i <= row)%nat)
    /\ in_grid (line_cell d row col i)
    /\ cell b (fst (line_cell d row col i)) (snd (line_cell d row col i))
       = player.

(** Some 4-cell line of the grid holds only [player]. *)
Definition has_four (b : board) (player : Z) : Prop :=
  exists d row col, run_from b player d row col 4.

(** The cell after [(row, col)] on a line of direction [d], if the line does
    not leave the grid through the top. *)
Definition next_cell (d : direction) (row col : nat) : option (nat * nat) :=
  match d with
  | Horizontal => Some (row, S col)
  | Vertical => Some (S row, col)
  | DiagDown => Some (S row, S col)
  | DiagUp => match row with O => None | S r => Some (r, S col) end
  end.

(** Length of the run of [player] that starts at [rc] and follows [d],
    counting at most [fuel] cells. *)
Fixpoint run_length (b : board) (player : Z) (d : direction)
    (rc : option (nat * nat)) (fuel : nat) : nat :=
  match fuel, rc with
  | S f, Some (row, col) =>
      if (row <? ROWS)%nat && (col <? COLS)%nat && (cell b row col =? player)
      then S (run_length b player d (next_cell d row col) f)
      else O
  | _, _ => O
  end.

(** The longest run of [player] over all directions and starting cells. *)
Definition longest_run (b : board) (player : Z) : nat :=
  list_max
    (flat_map (fun d =>
       flat_map (fun row =>
         map (fun col => run_length b player d (Some (row, col)) COLS)
           (seq 0 COLS))
         (seq 0 ROWS))
       [Horizontal; Vertical; DiagDown; DiagUp]).

(** Alternating legal play: [play moves player b] lets [player] start on [b]
    and the sides alternate over [moves]; every move is made on a board
    where the game is not over, in a column that is not full. *)
Fixpoint play (moves : list nat) (player : Z) (b : board) : option board :=
  match moves with
  | [] => Some b
  | col :: rest =>
      if negb (P4.Terminal_Test b) && is_valid_move b col
      then play rest (- player) (fst (drop_piece b col player))
      else None
  end.

Definition reachable (b : board) : Prop :=
  exists moves player,
    is_player player = true /\ play moves player empty_board = Some b.

(** The order of the extended integers. *)
Definition ext_le (x y : ext) : Prop :=
  match x, y with
  | NegInf, _ => True
  | _, PosInf => True
  | Fin a, Fin b => a <= b
  | _, _ => False
  end.

Definition ext_lt (x y : ext) : Prop :=
  match x, y with
  | _, NegInf => False
  | PosInf, _ => False
  | Fin a, Fin b => a < b
  | _, _ => True
  end.

(** The value is a number, not an infinity. *)
Definition is_fin (x : ext) : Prop := exists z, x = Fin z.

(** The value is a number that satisfies [P]. *)
Definition fin_sat (P : Z -> Prop) (x : ext) : Prop :=
  exists z, x = Fin z /\ P z.

(** What a search with the window [(alpha, beta)] owes about its result [r]
    when the plain minimax value is [m]: below the window [r] is an upper
    bound of [m], above it a lower bound, inside it [r] is [m]. *)
Definition ab_ok (alpha beta m r : ext) : Prop :=
  (ext_le r alpha -> ext_le m r)
  /\ (ext_le beta r -> ext_le r m)
  /\ (ext_lt alpha r -> ext_lt r beta -> r = m).

(** Invariant of the loop of a maximizing node that was entered with the
    window [(alpha0, beta)]: [v] is the running value, [M] the maximum of
    the minimax values of the children seen so far. *)
Definition max_inv (alpha0 beta v M : ext) : Prop :=
  ext_le M v /\ (ext_lt alpha0 v -> M = v) /\ ext_lt v beta.

(** The same for a minimizing node entered with the window
    [(alpha, beta0)]. *)
Definition min_inv (alpha beta0 v M : ext) : Prop :=
  ext_le v M /\ (ext_lt v beta0 -> M = v) /\ ext_lt alpha v.

(** Plain minimax over the legal columns in ascending order, without
    pruning, with the leaves of P4.py. *)
Definition ext_maximum (l : list ext) : ext := fold_right ext_max NegInf l.
Definition ext_minimum (l : list ext) : ext := fold_right ext_min PosInf l.

Fixpoint minimax (b : board) (depth : nat) (maximizing : bool) : ext :=
  if P4.Terminal_Test b then Fin (P4.Utility b)
  else match depth with
       | O => Fin (P4.heuristic b)
       | S d =>
           if maximizing
           then ext_maximum
                  (map (fun col =>
                          minimax (fst (drop_piece b col AI_PLAYER)) d false)
                       (get_valid_moves b))
           else ext_minimum
                  (map (fun col =>
                          minimax (fst (drop_piece b col HUMAN_PLAYER)) d true)
                       (get_valid_moves b))
       end.

(** Plain minimax with the leaves of P4v2.py. *)
Fixpoint minimax_v2 (b : board) (depth : nat) (maximizing : bool) : ext :=
  match depth with
  | O => Fin (P4v2.evaluate_position b)
  | S d =>
      if P4v2.Terminal_Test b then Fin (P4v2.evaluate_position b)
      else if maximizing
      then ext_maximum
             (map (fun col =>
                     minimax_v2 (fst (drop_piece b col AI_PLAYER)) d false)
                  (get_valid_moves b))
      else ext_minimum
             (map (fun col =>
                     minimax_v2 (fst (drop_piece b col HUMAN_PLAYER)) d true)
                  (get_valid_moves b))
  end.

(** Sum of a list of integers. *)
Definition sum_Z (l : list Z) : Z := fold_right Z.add 0 l.

(** The line holds a piece that is neither [player]'s nor absent. *)
Definition has_other (player : Z) (line : list Z) : bool :=
  existsb (fun x => negb (x =? player) && negb (x =? EMPTY)) line.

(** Move ordering. [preference_order] lists the columns by the key of the
    sort in [prioritize_moves]: the six ranked columns, then the others by
    index. *)
Definition preference_order : list nat :=
  [5; 6; 4; 7; 3; 8; 0; 1; 2; 9; 10; 11]%nat.

(** The three groups of [prioritize_moves]: the columns where the engine
    completes four in a row, those where only the opponent would, and the
    rest. *)
Definition wins (b : board) (col : nat) : bool :=
  P4.check_immediate_threat b AI_PLAYER col.
Definition blocks (b : board) (col : nat) : bool :=
  negb (P4.check_immediate_threat b AI_PLAYER col)
  && P4.check_immediate_threat b HUMAN_PLAYER col.
Definition others (b : board) (col : nat) : bool :=
  negb (P4.check_immediate_threat b AI_PLAYER col)
  && negb (P4.check_immediate_threat b HUMAN_PLAYER col).

(** Twice the distance of column [col] from a centre placed at [m / 2]; the
    centre of twelve columns lies between columns 5 and 6, at [m = 11]. *)
Definition center_distance (m : Z) (col : nat) : Z :=
  Z.abs (2 * Z.of_nat col - m).

(** The columns of [l] come in ascending distance from the centre. *)
Definition sorted_by_distance (m : Z) (l : list nat) : Prop :=
  forall i j x y, (i < j)%nat -> l !! i = Some x -> l !! j = Some y ->
    center_distance m x <= center_distance m y.

(** ** Boards of the scenarios *)

(** The board of the blocking scenario: the opponent on row 5, columns 0, 1
    and 2, every other cell empty. *)
Definition threat_board : board :=
  set_cell (set_cell (set_cell empty_board 5 0 HUMAN_PLAYER) 5 1 HUMAN_PLAYER)
    5 2 HUMAN_PLAYER.

(** The same board held with one row object at the indices 0 to 4: the
    store of [[r0]*5 + [r5]]. *)
Definition shared_rows_store : Heap.store :=
  <[1%nat := [HUMAN_PLAYER; HUMAN_PLAYER; HUMAN_PLAYER; 0; 0; 0; 0; 0; 0; 0;
              0; 0]]> (<[0%nat := repeat EMPTY COLS]> ∅).

Definition shared_rows_board : Heap.board_ref := [0; 0; 0; 0; 0; 1]%nat.

(** The engine drops a piece in column 0 of it. *)
Definition shared_rows_drop : Heap.store * Heap.board_ref * Z :=
  Heap.drop_piece shared_rows_store shared_rows_board 0 AI_PLAYER.

(** A whole game, the opponent starting, whose last move fills the board
    and gives the engine four in a row on the top row. *)
Definition full_game_moves : list nat :=
  [0; 0; 0; 0; 0; 0; 1; 1; 1; 1; 1; 1; 4; 2; 2; 2; 2; 3; 2; 4; 3; 3; 3; 3;
   4; 3; 5; 4; 4; 4; 8; 5; 5; 5; 5; 5; 9; 6; 6; 6; 6; 6; 6; 7; 7; 7; 7; 7;
   7; 8; 8; 8; 8; 9; 8; 10; 9; 9; 9; 9; 10; 10; 10; 10; 10; 11; 11; 11; 11;
   11; 11; 2]%nat.

Definition full_board_with_four : board :=
  [ [ 1;  1;  1;  1;  1;  1; -1; -1; -1;  1; -1; -1];
    [-1; -1; -1;  1; -1; -1;  1;  1; -1; -1;  1;  1];
    [ 1;  1; -1; -1;  1;  1; -1; -1;  1;  1; -1; -1];
    [-1; -1;  1;  1; -1; -1;  1;  1; -1; -1;  1;  1];
    [ 1;  1; -1; -1;  1;  1; -1; -1;  1;  1; -1; -1];
    [-1; -1;  1;  1; -1; -1;  1;  1; -1; -1;  1;  1] ].

(** The opponent is to move on [b], the game is not over, and the first
    column that [prioritize_moves] lists gives the opponent four in a row. *)
Definition loses_at_once (b : board) : bool :=
  negb (P4.Terminal_Test b)
  && match P4.prioritize_moves b with
     | col :: _ =>
         P4.Terminal_Test (fst (drop_piece b col HUMAN_PLAYER))
         && (P4.Utility (fst (drop_piece b col HUMAN_PLAYER)) =? -10000)
     | [] => false
     end.

(** A game in which the engine starts and builds three open threes on the
    bottom row and three open columns of three, the opponent answering
    without ever holding three cells of a line. *)
Definition crowded_moves : list nat :=
  [0; 0; 1; 0; 2; 1; 2; 1; 2; 11; 4; 4; 5; 4; 6; 5; 6; 5; 6; 11;
   8; 8; 9; 8; 10; 9; 10; 9; 10]%nat.

Definition crowded_board : board :=
  [ [ 0;  0;  0;  0;  0;  0;  0;  0;  0;  0;  0;  0];
    [ 0;  0;  0;  0;  0;  0;  0;  0;  0;  0;  0;  0];
    [ 0;  0;  0;  0;  0;  0;  0;  0;  0;  0;  0;  0];
    [-1; -1;  1;  0; -1; -1;  1;  0; -1; -1;  1;  0];
    [-1; -1;  1;  0; -1; -1;  1;  0; -1; -1;  1; -1];
    [ 1;  1;  1;  0;  1;  1;  1;  0;  1;  1;  1; -1] ].

(** ** Counting pieces *)

(** The cells of the grid, row by row. *)
Definition grid : list (nat * nat) :=
  flat_map (fun row => map (pair row) (seq 0 COLS)) (seq 0 ROWS).

(** Number of cells of the grid whose content satisfies [f]. *)
Definition count_cells (f : Z -> bool) (b : board) : nat :=
  length (List.filter (fun rc => f (cell b (fst rc) (snd rc))) grid).

Definition pieces (b : board) : nat :=
  count_cells (fun x => negb (x =? EMPTY)) b.

Definition pieces_of (player : Z) (b : board) : nat :=
  count_cells (fun x => x =? player) b.

(** Every cell of the grid holds [EMPTY] or one of the two players. *)
Definition cells_valid (b : board) : bool :=
  forallb (fun rc =>
             (cell b (fst rc) (snd rc) =? EMPTY)
             || is_player (cell b (fst rc) (snd rc)))
    grid.

(** ** The choice of [IA_Decision] *)

(** [c] is the first element of [moves] of largest score: the elements
    before it score strictly less, those after it at most as much. *)
Definition first_best (score : nat -> ext) (moves : list nat) (c : nat)
    : Prop :=
  exists pre post,
    moves = pre ++ c :: post
    /\ (forall c', In c' pre -> ext_lt (score c') (score c))
    /\ (forall c', In c' post -> ext_le (score c') (score c)).

(** ** Exchanging the two sides *)

(** The board with every piece given to the other side. *)
Definition swap_sides (b : board) : board := map (map Z.opp) b.

(** ** Drawing the board *)

(** The letter that P4.py draws for a cell; P4v2.py draws the letter of the
    other side. *)
Definition cell_char (x : Z) : ascii :=
  if x =? AI_PLAYER then "O"%char
  else if x =? HUMAN_PLAYER then "X"%char else "."%char.

(** ** Lines typed in the examples *)

Definition digit (c : ascii) : option Z :=
  let n := nat_of_ascii c in
  if (48 <=? n)%nat && (n <=? 57)%nat then Some (Z.of_nat (n - 48)) else None.

Fixpoint int_of_digits (acc : Z) (s : string) : option Z :=
  match s with
  | EmptyString => Some acc
  | String c s' =>
      match digit c with
      | Some d => int_of_digits (10 * acc + d) s'
      | None => None
      end
  end.

(** An [int] for the examples: the number written by a line of decimal
    digits, and ValueError ([None]) on a line that holds anything else. *)
Definition int_decimal (s : string) : option Z :=
  match s with
  | EmptyString => None
  | _ => int_of_digits 0 s
  end.

(** ** The game loop of P4.py

    [play_game] reads lines with [input()] and prints. The lines typed are a
    list; what is printed is a list of [output]s, one per [print] (a board
    for [print_board]). Python's [str.strip] and [int] are parameters; [int]
    answers [None] where Python raises ValueError. Reading past the last
    line is the EOFError of [input()]; the prompts of [input()] are not
    recorded. The clock and the random draw of the [n]-th decision of the
    engine are [expired n] and [draw n]. *)

Module P4_game.

(** The three characters that [print_board] writes for a cell. *)
Definition cell_str (x : Z) : string :=
  if x =? AI_PLAYER then " O "
  else if x =? HUMAN_PLAYER then " X " else " . ".

(** The line of [print_board] for a row. *)
Definition row_str (b : board) (row : nat) : string :=
  fold_left (fun s col => s +:+ cell_str (cell b row col)) (seq 0 COLS) "|"
  +:+ "|".

Definition board_rows (b : board) : list string :=
  map (row_str b) (seq 0 ROWS).

(** [print_board]: the strings given to [print], one after the other; the
    first starts with a line feed. *)
Definition print_board (b : board) : list string :=
  [String (Ascii.ascii_of_nat 10) "  0  1  2  3  4  5  6  7  8  9 10 11"]
  ++ board_rows b ++ [String.concat "" (repeat "-" (COLS * 3 + 3))].

(** What [play_game] prints; [Show b] stands for the lines of
    [print_board b]. *)
Inductive output : Type :=
| Show (b : board)
| InvalidChoice
| HumanPlayed (col : Z)
| InvalidMove
| NotANumber
| AIPlayed (col : nat)
| HumanWins
| AIWins
| ItsADraw.

(** The outputs other than the boards. *)
Definition is_message (o : output) : bool :=
  match o with
  | Show _ => false
  | _ => true
  end.

(** How the call ends: it returns, [input()] raises EOFError, or
    [IA_Decision] raises; [OutOfFuel] is the bound of the model on the
    number of turns. *)
Inductive ending : Type := Returns | EOFError | DecisionFails | OutOfFuel.

Section PlayGame.

Variable strip : string -> string.
Variable int : string -> option Z.
Variable expired : nat -> nat -> bool.
Variable draw : nat -> nat.

(** [is_valid_move(board, col)] on the integer typed by the human. *)
Definition is_valid_input (b : board) (col : Z) : bool :=
  (0 <=? col) && (col <? Z.of_nat COLS)
  && (cell b 0 (Z.to_nat col) =? EMPTY).

(** The loop that asks who starts; the answer is [human_starts] and the
    lines left. *)
Fixpoint choose_start (inputs : list string)
    : list output * option (bool * list string) :=
  match inputs with
  | [] => ([], None)
  | s :: rest =>
      let choice := strip s in
      if String.eqb choice "1" || String.eqb choice "2"
      then ([], Some (String.eqb choice "1", rest))
      else let '(out, res) := choose_start rest in (InvalidChoice :: out, res)
  end.

(** The loop that asks the human for a move until a legal one is typed. *)
Fixpoint human_move (b : board) (inputs : list string)
    : list output * option (board * list string) :=
  match inputs with
  | [] => ([], None)
  | s :: rest =>
      match int (strip s) with
      | Some col =>
          if is_valid_input b col
          then ([HumanPlayed col],
                Some (fst (drop_piece b (Z.to_nat col) HUMAN_PLAYER), rest))
          else let '(out, res) := human_move b rest in
               (InvalidMove :: out, res)
      | None =>
          let '(out, res) := human_move b rest in (NotANumber :: out, res)
      end
  end.

(** One turn of the loop: the move of the human or of the engine. The
    result is what was printed and, unless an exception ended the turn, the
    new board, the lines left and the count of the engine's decisions. *)
Definition turn (b : board) (current_player : Z) (inputs : list string)
    (n : nat) : list output * option (board * list string * nat) :=
  if current_player =? HUMAN_PLAYER then
    match human_move b inputs with
    | (out, Some (b', rest)) => (out, Some (b', rest, n))
    | (out, None) => (out, None)
    end
  else
    match P4.IA_Decision (expired n) (draw n) b with
    | Some col =>
        ([AIPlayed col], Some (fst (drop_piece b col AI_PLAYER), inputs, S n))
    | None => ([], None)
    end.

(** The loop [while not Terminal_Test(board)]. *)
Fixpoint game_loop (fuel : nat) (b : board) (current_player : Z)
    (inputs : list string) (n : nat) : list output * ending * board :=
  if P4.Terminal_Test b then ([], Returns, b)
  else
    match fuel with
    | O => ([], OutOfFuel, b)
    | S fuel' =>
        match turn b current_player inputs n with
        | (out, None) =>
            (Show b :: out,
             if current_player =? HUMAN_PLAYER then EOFError
             else DecisionFails,
             b)
        | (out, Some (b', rest, n')) =>
            if P4.check_win b' HUMAN_PLAYER
            then (Show b :: out ++ [Show b'; HumanWins], Returns, b')
            else if P4.check_win b' AI_PLAYER
            then (Show b :: out ++ [Show b'; AIWins], Returns, b')
            else if is_board_full b'
            then (Show b :: out ++ [Show b'; ItsADraw], Returns, b')
            else
              let current_player' :=
                if current_player =? AI_PLAYER then HUMAN_PLAYER
                else AI_PLAYER in
              let '(out', how, bf) :=
                game_loop fuel' b' current_player' rest n' in
              (Show b :: out ++ out', how, bf)
        end
    end.

(** [play_game()]; a game has at most [ROWS * COLS] turns. *)
Definition play_game (inputs : list string) : list output * ending * board :=
  match choose_start inputs with
  | (out, None) => (out, EOFError, empty_board)
  | (out, Some (human_starts, rest)) =>
      let current_player :=
        if human_starts then HUMAN_PLAYER else AI_PLAYER in
      let '(out', how, bf) :=
        game_loop (ROWS * COLS) empty_board current_player rest 0 in
      (out ++ out', how, bf)
  end.

(** What the last message says about the board. *)
Definition verdict (msg : output) (b : board) : Prop :=
  (msg = HumanWins /\ P4.check_win b HUMAN_PLAYER = true)
  \/ (msg = AIWins /\ P4.check_win b HUMAN_PLAYER = false
      /\ P4.check_win b AI_PLAYER = true)
  \/ (msg = ItsADraw /\ P4.check_win b HUMAN_PLAYER = false
      /\ P4.check_win b AI_PLAYER = false /\ is_board_full b = true).

End PlayGame.

(** How [test_blocking_threat()] ends: the assertion holds, it fails on the
    column chosen, or [IA_Decision] raises. *)
Inductive test_result : Type :=
| Passes
| AssertionError (col : nat)
| IndexError.

(** [assert col == 3] on what [IA_Decision] gave. *)
Definition assert_blocked (decision : option nat) : test_result :=
  match decision with
  | Some col => if Nat.eqb col 3 then Passes else AssertionError col
  | None => IndexError
  end.

(** [test_blocking_threat()], from the call of [IA_Decision] on; [b] is the
    board that the function has built by then, which is [threat_board]. The
    lines printed are not recorded. *)
Definition test_blocking_threat (b : board) (expired : nat -> bool)
    (r : nat) : test_result :=
  assert_blocked (P4.IA_Decision expired r b).

End P4_game.

(** ** The game loop of P4v2.py

    As for P4.py, with these differences of the source: the lines typed are
    passed to [int] as they are, a line that is not a number ends the call
    with ValueError, an illegal move of the human takes the loop back to its
    test, and the result is announced after the loop. The line that
    [IA_Decision] prints when its time is over is not recorded. *)

Module P4v2_game.

(** Python's [str] on the column numbers. *)
Definition str (i : nat) : string := pretty i.

Definition cell_str (x : Z) : string :=
  if x =? AI_PLAYER then "X" else if x =? HUMAN_PLAYER then "O" else ".".

(** The line of [print_board] for a row. *)
Definition row_str (row : list Z) : string :=
  "| " +:+ String.concat "  " (map cell_str row) +:+ " |".

Definition board_rows (b : board) : list string := map row_str b.

(** [print_board]: the strings given to [print], one after the other. *)
Definition print_board (b : board) : list string :=
  [String (Ascii.ascii_of_nat 10) "  "
   +:+ String.concat "  " (map str (seq 0 COLS))]
  ++ board_rows b ++ [String.concat "" (repeat "-" (COLS * 3 + 1))].

(** What [play_game] prints; [Show b] stands for the lines of
    [print_board b]. *)
Inductive output : Type :=
| Show (b : board)
| InvalidMove
| Thinking
| AIPlayed (col : nat)
| AIWins
| HumanWins
| ItsADraw.

(** The outputs other than the boards. *)
Definition is_message (o : output) : bool :=
  match o with
  | Show _ => false
  | _ => true
  end.

Inductive ending : Type :=
| Returns
| EOFError
| ValueError
| DecisionFails
| OutOfFuel.

Section PlayGame.

Variable int : string -> option Z.
Variable expired : nat -> nat -> bool.
Variable draw : nat -> nat.

(** [col in get_valid_moves(board)] for the integer typed by the human. *)
Definition is_valid_input (b : board) (col : Z) : bool :=
  existsb (fun c => Z.of_nat c =? col) (get_valid_moves b).

Definition next_player (current_player : Z) : Z :=
  if current_player =? HUMAN_PLAYER then AI_PLAYER else HUMAN_PLAYER.

(** One turn of the loop, after the board is shown: what is printed, and
    either the exception that ends the call or the board, the player, the
    lines left and the count of the engine's decisions at the next test of
    the loop. *)
Definition turn (b : board) (current_player : Z) (inputs : list string)
    (n : nat)
    : list output * (ending + board * Z * list string * nat) :=
  if current_player =? HUMAN_PLAYER then
    match inputs with
    | [] => ([], inl EOFError)
    | s :: rest =>
        match int s with
        | None => ([], inl ValueError)
        | Some col =>
            if negb (is_valid_input b col)
            then ([InvalidMove], inr (b, current_player, rest, n))
            else ([], inr (fst (drop_piece b (Z.to_nat col) current_player),
                           next_player current_player, rest, n))
        end
    end
  else
    match P4v2.IA_Decision (expired n) (draw n) b with
    | None => ([Thinking], inl DecisionFails)
    | Some col =>
        ([Thinking; AIPlayed col],
         inr (fst (drop_piece b col current_player),
              next_player current_player, inputs, S n))
    end.

(** The loop [while not Terminal_Test(board)]. *)
Fixpoint game_loop (fuel : nat) (b : board) (current_player : Z)
    (inputs : list string) (n : nat) : list output * ending * board :=
  if P4v2.Terminal_Test b then ([], Returns, b)
  else
    match fuel with
    | O => ([], OutOfFuel, b)
    | S fuel' =>
        match turn b current_player inputs n with
        | (out, inl how) => (Show b :: out, how, b)
        | (out, inr (b', current_player', rest, n')) =>
            let '(out', how, bf) :=
              game_loop fuel' b' current_player' rest n' in
            (Show b :: out ++ out', how, bf)
        end
    end.

(** The message after the loop. *)
Definition announce (b : board) : output :=
  if P4v2.check_win b AI_PLAYER then AIWins
  else if P4v2.check_win b HUMAN_PLAYER then HumanWins
  else ItsADraw.

(** [play_game()]; every turn of the loop reads a line or adds a piece, so
    that the loop has at most [length inputs + ROWS * COLS] turns. *)
Definition play_game (inputs : list string) : list output * ending * board :=
  match inputs with
  | [] => ([], EOFError, empty_board)
  | s :: rest =>
      match int s with
      | None => ([], ValueError, empty_board)
      | Some choice =>
          let current_player :=
            if choice =? 1 then HUMAN_PLAYER else AI_PLAYER in
          match game_loop (length rest + ROWS * COLS) empty_board
                  current_player rest 0 with
          | (out, Returns, bf) => (out ++ [Show bf; announce bf], Returns, bf)
          | res => res
          end
      end
  end.

(** What the last message says about the board. *)
Definition verdict (msg : output) (b : board) : Prop :=
  (msg = AIWins /\ P4v2.check_win b AI_PLAYER = true)
  \/ (msg = HumanWins /\ P4v2.check_win b AI_PLAYER = false
      /\ P4v2.check_win b HUMAN_PLAYER = true)
  \/ (msg = ItsADraw /\ P4v2.check_win b AI_PLAYER = false
      /\ P4v2.check_win b HUMAN_PLAYER = false /\ is_board_full b = true).

End PlayGame.

End P4v2_game.

(** * Properties *)

(** ** Cells and updates *)

Lemma cell_set_cell_ne (b : board) (row col row' col' : nat) (p : Z) :
  (row, col) <> (row', col') ->
  cell (set_cell b row col p) row' col' = cell b row' col'.
Proof.
  intros Hne. unfold set_cell, cell.
  destruct (b !! row) as [r|] eqn:Hr; [|reflexivity].
  destruct (decide (row = row')) as [<-|Hrow].
  - rewrite list_lookup_insert_eq by (eapply lookup_lt_Some; eauto).
    rewrite Hr. simpl. rewrite list_lookup_insert_ne; [reflexivity|].
    intros ->. apply Hne. reflexivity.
  - rewrite list_lookup_insert_ne by assumption. reflexivity.
Qed.

Lemma board_shape_spec (b : board) :
  board_shape b = true <->
  length b = ROWS /\ forall row r, b !! row = Some r -> length r = COLS.
Proof.
  unfold board_shape. rewrite andb_true_iff, Nat.eqb_eq, forallb_forall.
  split; intros [Hl Hr]; split; try assumption.
  - intros row r Hrow. apply Nat.eqb_eq, Hr.
    apply list_elem_of_In. eapply list_elem_of_lookup_2; eauto.
  - intros r Hin. apply Nat.eqb_eq.
    apply list_elem_of_In, list_elem_of_lookup in Hin as [row Hrow]. eauto.
Qed.

Lemma cell_set_cell_eq (b : board) (row col : nat) (p : Z) :
  board_shape b = true -> (row < ROWS)%nat -> (col < COLS)%nat ->
  cell (set_cell b row col p) row col = p.
Proof.
  intros [Hl Hr]%board_shape_spec Hrow Hcol. unfold set_cell, cell.
  destruct (lookup_lt_is_Some_2 b row) as [r Hlook]; [lia|].
  rewrite Hlook. rewrite list_lookup_insert_eq by lia. simpl.
  rewrite list_lookup_insert_eq; [reflexivity|].
  rewrite (Hr _ _ Hlook). assumption.
Qed.

Lemma board_shape_set_cell (b : board) (row col : nat) (p : Z) :
  board_shape b = true -> board_shape (set_cell b row col p) = true.
Proof.
  intros Hs. pose proof Hs as [Hl Hr]%board_shape_spec.
  apply board_shape_spec. unfold set_cell.
  destruct (b !! row) as [r|] eqn:Hlook; [|split; assumption].
  split; [rewrite length_insert; assumption|].
  intros row' r' Hlook'.
  destruct (decide (row = row')) as [<-|Hne].
  - rewrite list_lookup_insert_eq in Hlook' by (eapply lookup_lt_Some; eauto).
    injection Hlook' as <-. rewrite length_insert. eauto.
  - rewrite list_lookup_insert_ne in Hlook' by assumption. eauto.
Qed.

(** ** Dropping a piece *)

Lemma drop_loop_result (n : nat) (b : board) (col : nat) (p : Z) :
  drop_result n b col p (drop_loop (rev (seq 0 n)) b col p).
Proof.
  induction n as [|n IH].
  - right. split; [reflexivity|]. intros row Hrow. lia.
  - rewrite seq_S, rev_app_distr. simpl.
    destruct (cell b n col =? EMPTY) eqn:Hc.
    + left. exists n. apply Z.eqb_eq in Hc.
      repeat split; try assumption; try lia.
    + apply Z.eqb_neq in Hc.
      destruct IH as [(row & Hlt & Hres & He & Hab)|[Hres Hfull]].
      * left. exists row. repeat split; try assumption; try lia.
        intros row' Hrow'. destruct (decide (row' = n)) as [->|Hne];
          [assumption | apply Hab; lia].
      * right. split; [assumption|]. intros row Hrow.
        destruct (decide (row = n)) as [->|Hne];
          [assumption | apply Hfull; lia].
Qed.

Lemma drop_piece_result (b : board) (col : nat) (p : Z) :
  drop_result ROWS b col p (drop_piece b col p).
Proof. apply drop_loop_result. Qed.

Lemma column_full_spec (b : board) (col : nat) :
  column_full b col = true <->
  forall row, (row < ROWS)%nat -> cell b row col <> EMPTY.
Proof.
  unfold column_full. rewrite forallb_forall. split.
  - intros H row Hrow. apply Z.eqb_neq, negb_true_iff, H, in_seq. lia.
  - intros H row Hrow%in_seq. apply negb_true_iff, Z.eqb_neq, H. lia.
Qed.

Lemma drop_piece_full (b : board) (col : nat) (p : Z) :
  column_full b col = true -> drop_piece b col p = (b, -1).
Proof.
  intros Hfull. rewrite column_full_spec in Hfull.
  destruct (drop_piece_result b col p)
    as [(row & Hlt & _ & He & _)|[Hres _]]; [|assumption].
  exfalso. exact (Hfull row Hlt He).
Qed.

Lemma is_valid_move_spec (b : board) (col : nat) :
  is_valid_move b col = true <-> (col < COLS)%nat /\ cell b 0 col = EMPTY.
Proof.
  unfold is_valid_move.
  rewrite !andb_true_iff, Nat.leb_le, Nat.ltb_lt, Z.eqb_eq. intuition lia.
Qed.

Lemma drop_piece_valid (b : board) (col : nat) (p : Z) :
  is_valid_move b col = true ->
  exists row, (row < ROWS)%nat
    /\ drop_piece b col p = (set_cell b row col p, Z.of_nat row)
    /\ cell b row col = EMPTY
    /\ forall row', (row < row' < ROWS)%nat -> cell b row' col <> EMPTY.
Proof.
  intros [Hcol Htop]%is_valid_move_spec.
  destruct (drop_piece_result b col p) as [Hrow|[_ Hfull]]; [assumption|].
  exfalso. apply (Hfull 0%nat); [unfold ROWS; lia | assumption].
Qed.

Lemma gravity_spec (b : board) :
  gravity b = true <->
  forall col row row', (col < COLS)%nat -> (row < row' < ROWS)%nat ->
    cell b row col <> EMPTY -> cell b row' col <> EMPTY.
Proof.
  unfold gravity. rewrite forallb_forall. split.
  - intros H col row row' Hcol Hrows Hocc.
    assert (Hstep : forall r, (r < ROWS - 1)%nat ->
              cell b r col <> EMPTY -> cell b (S r) col <> EMPTY).
    { intros r Hr Hne.
      specialize (H col). rewrite forallb_forall in H.
      assert (Hin : In col (seq 0 COLS)) by (apply in_seq; lia).
      specialize (H Hin r). 
      assert (Hin' : In r (seq 0 (ROWS - 1))) by (apply in_seq; lia).
      apply H in Hin'. apply orb_true_iff in Hin' as [He|Hn].
      - apply Z.eqb_eq in He. contradiction.
      - apply Z.eqb_neq, negb_true_iff. assumption. }
    assert (Hall : forall k, (row + k < ROWS)%nat ->
              cell b (row + k) col <> EMPTY).
    { induction k as [|k IHk]; intros Hk.
      - rewrite Nat.add_0_r. assumption.
      - replace (row + S k)%nat with (S (row + k)) by lia.
        apply Hstep; [lia|]. apply IHk. lia. }
    replace row' with (row + (row' - row))%nat by lia. apply Hall. lia.
  - intros H col Hcol%in_seq. apply forallb_forall. intros row Hrow%in_seq.
    destruct (cell b row col =? EMPTY) eqn:He; [reflexivity|]. simpl.
    apply negb_true_iff, Z.eqb_neq. apply Z.eqb_neq in He.
    apply (H col row (S row)); try assumption; unfold ROWS in *; lia.
Qed.

(** ** Win detection *)

Lemma all_eq_line (player : Z) (f : nat -> Z) :
  all_eq player (map f (seq 0 4)) = true <->
  forall i, (i < 4)%nat -> f i = player.
Proof.
  unfold all_eq. rewrite forallb_forall. split.
  - intros H i Hi. apply Z.eqb_eq, H, in_map, in_seq. lia.
  - intros H x (i & <- & Hi%in_seq)%in_map_iff. apply Z.eqb_eq, H. lia.
Qed.

Lemma existsb_grid (f : nat -> nat -> bool) (r0 nr nc : nat) :
  existsb (fun row => existsb (fun col => f row col) (seq 0 nc)) (seq r0 nr)
  = true <->
  exists row col, (r0 <= row < r0 + nr)%nat /\ (col < nc)%nat
    /\ f row col = true.
Proof.
  rewrite existsb_exists. split.
  - intros (row & Hrow%in_seq & (col & Hcol%in_seq & Hf)%existsb_exists).
    exists row, col. repeat split; try assumption; lia.
  - intros (row & col & Hrow & Hcol & Hf). exists row. split.
    + apply in_seq. lia.
    + apply existsb_exists. exists col. split; [apply in_seq; lia|assumption].
Qed.

Lemma existsb_grid_swap (f : nat -> nat -> bool) (nr nc : nat) :
  existsb (fun col => existsb (fun row => f row col) (seq 0 nr)) (seq 0 nc)
  = existsb (fun row => existsb (fun col => f row col) (seq 0 nc)) (seq 0 nr).
Proof.
  apply eq_true_iff_eq.
  rewrite (existsb_grid (fun col row => f row col)), existsb_grid.
  split; intros (x & y & Hx & Hy & Hf); exists y, x;
    repeat split; try assumption; lia.
Qed.

Lemma check_win_v2 (b : board) (player : Z) :
  P4v2.check_win b player = P4.check_win b player.
Proof.
  unfold P4v2.check_win, P4.check_win.
  rewrite (existsb_grid_swap (fun row col => all_eq player (line_v b row col))).
  reflexivity.
Qed.

Lemma Terminal_Test_v2 (b : board) :
  P4v2.Terminal_Test b = P4.Terminal_Test b.
Proof.
  unfold P4v2.Terminal_Test, P4.Terminal_Test. rewrite !check_win_v2.
  reflexivity.
Qed.

Lemma check_win_has_four (b : board) (player : Z) :
  P4.check_win b player = true <-> has_four b player.
Proof.
  unfold P4.check_win, has_four.
  rewrite !orb_true_iff, !existsb_grid.
  unfold line_h, line_v, line_d, line_u.
  setoid_rewrite all_eq_line.
  unfold run_from, in_grid, ROWS, COLS. simpl. split.
  - intros [[[H|H]|H]|H]; destruct H as (row & col & Hrow & Hcol & Hall).
    + exists Horizontal, row, col. intros i Hi. simpl.
      repeat split; try lia; try discriminate. apply Hall. assumption.
    + exists Vertical, row, col. intros i Hi. simpl.
      repeat split; try lia; try discriminate. apply Hall. assumption.
    + exists DiagDown, row, col. intros i Hi. simpl.
      repeat split; try lia; try discriminate. apply Hall. assumption.
    + exists DiagUp, row, col. intros i Hi. simpl.
      repeat split; try lia. apply Hall. assumption.
  - intros (d & row & col & Hrun).
    pose proof (Hrun 3%nat ltac:(lia)) as (Hup & [Hr Hc] & _).
    pose proof (Hrun 0%nat ltac:(lia)) as (_ & [Hr0 Hc0] & _).
    destruct d; simpl in *.
    + left; left; left. exists row, col. repeat split; try lia.
      intros i Hi. apply (Hrun i Hi).
    + left; left; right. exists row, col. repeat split; try lia.
      intros i Hi. apply (Hrun i Hi).
    + left; right. exists row, col. repeat split; try lia.
      intros i Hi. apply (Hrun i Hi).
    + right. specialize (Hup eq_refl). exists row, col.
      repeat split; try lia. intros i Hi. apply (Hrun i Hi).
Qed.

Lemma run_from_next (b : board) (player : Z) (d : direction)
    (row col n : nat) :
  run_from b player d row col (S (S n)) ->
  exists row' col', next_cell d row col = Some (row', col')
    /\ run_from b player d row' col' (S n).
Proof.
  intros Hrun.
  pose proof (Hrun 1%nat ltac:(lia)) as (Hup & _ & _).
  assert (Hshift : forall row' col',
    (forall i, line_cell d row col (S i) = line_cell d row' col' i) ->
    (d = DiagUp -> row = S row') ->
    run_from b player d row' col' (S n)).
  { intros row' col' Hcells Hrow i Hi.
    destruct (Hrun (S i) ltac:(lia)) as (Hu & Hg & Hc).
    rewrite Hcells in Hg, Hc. repeat split; try apply Hg; try assumption.
    intros Hd. specialize (Hu Hd). specialize (Hrow Hd). lia. }
  destruct d; simpl.
  - exists row, (S col). split; [reflexivity|]. apply Hshift; [|discriminate].
    intros i. simpl. f_equal. lia.
  - exists (S row), col. split; [reflexivity|]. apply Hshift; [|discriminate].
    intros i. simpl. f_equal. lia.
  - exists (S row), (S col). split; [reflexivity|].
    apply Hshift; [|discriminate]. intros i. simpl. f_equal; lia.
  - specialize (Hup eq_refl). destruct row as [|row]; [lia|].
    exists row, (S col). split; [reflexivity|]. apply Hshift; [|reflexivity].
    intros i. simpl. f_equal; lia.
Qed.

Lemma run_length_ge (b : board) (player : Z) (d : direction) (n : nat) :
  forall row col fuel, (n <= fuel)%nat ->
    run_from b player d row col n ->
    (n <= run_length b player d (Some (row, col)) fuel)%nat.
Proof.
  induction n as [|n IH]; intros row col fuel Hfuel Hrun; [lia|].
  destruct fuel as [|fuel]; [lia|]. simpl.
  destruct (Hrun 0%nat ltac:(lia)) as (_ & [Hr Hc] & Hcell).
  assert (Hhere : line_cell d row col 0 = (row, col)).
  { destruct d; simpl; f_equal; lia. }
  rewrite Hhere in Hr, Hc, Hcell. simpl in Hr, Hc, Hcell.
  apply Nat.ltb_lt in Hr, Hc. apply Z.eqb_eq in Hcell.
  rewrite Hr, Hc, Hcell. simpl.
  destruct n as [|n]; [lia|].
  destruct (run_from_next _ _ _ _ _ _ Hrun) as (row' & col' & -> & Hrun').
  apply le_n_S, IH; [lia | assumption].
Qed.

Lemma list_max_ge (x : nat) (l : list nat) :
  In x l -> (x <= list_max l)%nat.
Proof.
  induction l as [|y l IH]; intros Hin; [destruct Hin|].
  simpl. destruct Hin as [->|Hin]; [lia|]. specialize (IH Hin). lia.
Qed.

Lemma longest_run_four (b : board) (player : Z) :
  has_four b player -> (4 <= longest_run b player)%nat.
Proof.
  intros (d & row & col & Hrun).
  destruct (Hrun 0%nat ltac:(lia)) as (_ & [Hr Hc] & _).
  assert (Hhere : line_cell d row col 0 = (row, col)).
  { destruct d; simpl; f_equal; lia. }
  rewrite Hhere in Hr, Hc. simpl in Hr, Hc.
  pose proof (run_length_ge b player d 4 row col COLS
                ltac:(unfold COLS; lia) Hrun) as Hlen.
  unfold longest_run. etransitivity; [exact Hlen|]. apply list_max_ge.
  apply in_flat_map. exists d. split; [destruct d; simpl; tauto|].
  apply in_flat_map. exists row. split; [apply in_seq; lia|].
  apply in_map_iff. exists col. split; [reflexivity | apply in_seq; lia].
Qed.

(** C8. [check_win(board, player)] is true exactly when some 4-cell line of
    the grid, in one of the four directions, holds only [player]'s pieces;
    this holds for the loops of P4.py and for those of P4v2.py. Hence on a
    board where the longest run of [player] is 3, [check_win] is false. *)
Theorem check_win_four_in_a_row (b : board) (player : Z) :
  (P4.check_win b player = true <-> has_four b player)
  /\ (P4v2.check_win b player = true <-> has_four b player)
  /\ (longest_run b player = 3%nat ->
      P4.check_win b player = false /\ P4v2.check_win b player = false).
Proof.
  split; [apply check_win_has_four|].
  split; [rewrite check_win_v2; apply check_win_has_four|].
  intros Hrun. rewrite check_win_v2.
  destruct (P4.check_win b player) eqn:Hwin; [exfalso | split; reflexivity].
  apply check_win_has_four, longest_run_four in Hwin. lia.
Qed.

Lemma check_win_four_in_a_row_witness :
  longest_run threat_board HUMAN_PLAYER = 3%nat
  /\ P4.check_win threat_board HUMAN_PLAYER = false
  /\ P4v2.check_win threat_board HUMAN_PLAYER = false.
Proof.
  split; [reflexivity|].
  apply (check_win_four_in_a_row threat_board HUMAN_PLAYER). reflexivity.
Defined.

(** ** The full-board test *)

Lemma is_board_full_spec (b : board) :
  is_board_full b = true <->
  forall col, (col < COLS)%nat -> cell b 0 col <> EMPTY.
Proof.
  unfold is_board_full. rewrite forallb_forall. split.
  - intros H col Hcol. apply Z.eqb_neq, negb_true_iff, H, in_seq. lia.
  - intros H col Hcol%in_seq. apply negb_true_iff, Z.eqb_neq, H. lia.
Qed.

(** C6, as stated, fails: at the end of the game [full_game_moves] the board
    is full and [is_board_full] is true, although the last move has given
    the engine four in a row. *)
Lemma is_board_full_ignores_wins :
  play full_game_moves HUMAN_PLAYER empty_board = Some full_board_with_four
  /\ board_shape full_board_with_four = true
  /\ gravity full_board_with_four = true
  /\ is_board_full full_board_with_four = true
  /\ P4.check_win full_board_with_four AI_PLAYER = true
  /\ ~ (is_board_full full_board_with_four = true <->
        (forall col, (col < COLS)%nat -> cell full_board_with_four 0 col <> EMPTY)
        /\ P4.check_win full_board_with_four AI_PLAYER = false
        /\ P4.check_win full_board_with_four HUMAN_PLAYER = false).
Proof.
  split; [vm_compute; reflexivity|].
  split; [reflexivity|]. split; [reflexivity|]. split; [reflexivity|].
  split; [vm_compute; reflexivity|].
  intros [H _]. specialize (H eq_refl) as (_ & Hwin & _).
  vm_compute in Hwin. discriminate.
Qed.

(** C6, amended. [is_board_full(board)] is true exactly when the top cell of
    every column is occupied; it does not look at four-in-a-row.
    [Terminal_Test] is true exactly when one of the players has four in a
    row or the board is full, and [Utility] scores a board as a draw, 0,
    exactly when neither player has four in a row. *)
Theorem is_board_full_top_row (b : board) :
  (is_board_full b = true <->
   forall col, (col < COLS)%nat -> cell b 0 col <> EMPTY)
  /\ (P4.Terminal_Test b = true <->
      P4.check_win b AI_PLAYER = true \/ P4.check_win b HUMAN_PLAYER = true
      \/ is_board_full b = true)
  /\ (P4.Utility b = 0 <->
      P4.check_win b AI_PLAYER = false /\ P4.check_win b HUMAN_PLAYER = false).
Proof.
  split; [apply is_board_full_spec|]. split.
  - unfold P4.Terminal_Test. rewrite !orb_true_iff. tauto.
  - unfold P4.Utility.
    destruct (P4.check_win b AI_PLAYER); [split; [|intros [? _]]; discriminate|].
    destruct (P4.check_win b HUMAN_PLAYER);
      [split; [|intros [_ ?]]; discriminate|].
    split; auto.
Qed.

(** ** The sentinel of a full column *)

(** C10. On a full column [drop_piece] raises nothing: it returns the board
    with no cell changed and the row index [-1], and
    [check_immediate_threat] answers [False] on that sentinel. *)
Theorem drop_piece_full_column (b : board) (col : nat) (player : Z) :
  column_full b col = true ->
  drop_piece b col player = (b, -1)
  /\ P4.check_immediate_threat b player col = false.
Proof.
  intros Hfull. pose proof (drop_piece_full b col player Hfull) as Hdrop.
  split; [assumption|].
  unfold P4.check_immediate_threat. rewrite Hdrop. reflexivity.
Qed.

Lemma drop_piece_full_column_witness :
  column_full full_board_with_four 3 = true
  /\ drop_piece full_board_with_four 3 HUMAN_PLAYER
     = (full_board_with_four, -1)
  /\ P4.check_immediate_threat full_board_with_four HUMAN_PLAYER 3 = false.
Proof.
  split; [reflexivity|].
  apply (drop_piece_full_column full_board_with_four 3 HUMAN_PLAYER).
  reflexivity.
Defined.

(** ** A legal move *)

Lemma gravity_set_lowest (b : board) (row col : nat) (p : Z) :
  board_shape b = true -> (row < ROWS)%nat -> (col < COLS)%nat ->
  p <> EMPTY ->
  (forall row', (row < row' < ROWS)%nat -> cell b row' col <> EMPTY) ->
  gravity b = true -> gravity (set_cell b row col p) = true.
Proof.
  intros Hs Hrow Hcol Hp Hbelow Hg. rewrite gravity_spec in *.
  intros c r r' Hc Hr Hocc.
  destruct (decide ((row, col) = (r', c))) as [[= <- <-]|Hne'].
  { rewrite cell_set_cell_eq by assumption. assumption. }
  rewrite cell_set_cell_ne by assumption.
  destruct (decide ((row, col) = (r, c))) as [[= <- <-]|Hne].
  { apply Hbelow. assumption. }
  rewrite cell_set_cell_ne in Hocc by assumption. eauto.
Qed.

Lemma is_player_spec (p : Z) :
  is_player p = true <-> p = AI_PLAYER \/ p = HUMAN_PLAYER.
Proof. unfold is_player. rewrite orb_true_iff, !Z.eqb_eq. tauto. Qed.

Lemma is_player_not_empty (p : Z) : is_player p = true -> p <> EMPTY.
Proof.
  intros [->| ->]%is_player_spec; unfold AI_PLAYER, HUMAN_PLAYER, EMPTY; lia.
Qed.

Lemma board_shape_drop_piece (b : board) (col : nat) (p : Z) :
  board_shape b = true -> board_shape (fst (drop_piece b col p)) = true.
Proof.
  intros Hs.
  destruct (drop_piece_result b col p) as [(row & _ & -> & _)|[-> _]]; simpl.
  - apply board_shape_set_cell. assumption.
  - assumption.
Qed.

(** ** [drop_piece] writes only into its own copy *)

Lemma heap_read_board_ext (h h' : gmap nat (list Z)) (br : list nat) :
  (forall l, l ∈ br -> h' !! l = h !! l) ->
  Heap.read_board h' br = Heap.read_board h br.
Proof.
  intros Hsame. unfold Heap.read_board. apply list_fmap_ext.
  intros i l Hin%list_elem_of_lookup_2. unfold Heap.read_row.
  rewrite Hsame; auto.
Qed.

(** What [copy.deepcopy] does on any board: the row objects that existed
    keep their content, and every row of the copy is an object made by the
    call (or a copy the memo already held). *)
Lemma heap_deepcopy_rows_frame (br : list nat) :
  forall (memo : gmap nat nat) (h h' : gmap nat (list Z)) (nb : list nat),
    Heap.deepcopy_rows memo h br = (h', nb) ->
    (forall k l, memo !! k = Some l -> is_Some (h !! l)) ->
    (forall l, is_Some (h !! l) -> h' !! l = h !! l)
    /\ (forall l, l ∈ nb ->
          is_Some (h' !! l)
          /\ (h !! l = None \/ exists k, memo !! k = Some l)).
Proof.
  induction br as [|l rest IH]; intros memo h h' nb Hcopy Hmemo;
    simpl in Hcopy.
  - injection Hcopy as <- <-. split; [auto|]. intros x Hin. inversion Hin.
  - destruct (memo !! l) as [l'|] eqn:Hl.
    + destruct (Heap.deepcopy_rows memo h rest) as [h2 rest'] eqn:Hrest.
      injection Hcopy as <- <-.
      destruct (IH _ _ _ _ Hrest Hmemo) as [Hkeep Hnew].
      split; [exact Hkeep|]. intros x [->|Hin]%elem_of_cons; [|auto].
      pose proof (Hmemo _ _ Hl) as Hlive. split; [|eauto].
      rewrite Hkeep; assumption.
    + destruct (Heap.deepcopy_rows (<[l := fresh (dom h)]> memo)
                  (<[fresh (dom h) := Heap.read_row h l]> h) rest)
        as [h2 rest'] eqn:Hrest.
      injection Hcopy as <- <-.
      assert (Hfresh : h !! fresh (dom h) = None).
      { apply not_elem_of_dom, is_fresh. }
      set (l' := fresh (dom h)) in *.
      assert (Hold : forall x, is_Some (h !! x) ->
                <[l' := Heap.read_row h l]> h !! x = h !! x).
      { intros x [v Hx]. apply lookup_insert_ne. intros ->. congruence. }
      destruct (IH _ _ _ _ Hrest) as [Hkeep Hnew].
      { intros k x Hk. destruct (decide (l = k)) as [<-|Hne].
        - rewrite lookup_insert_eq in Hk. injection Hk as <-.
          rewrite lookup_insert_eq. eauto.
        - rewrite lookup_insert_ne in Hk by assumption.
          rewrite Hold; eauto. }
      split.
      * intros x Hx. rewrite Hkeep; rewrite Hold; auto.
      * intros x [->|Hin]%elem_of_cons.
        { split; [|left; assumption].
          rewrite Hkeep; rewrite lookup_insert_eq; eauto. }
        destruct (Hnew _ Hin) as [Hsome Hwhere]. split; [assumption|].
        destruct (decide (l' = x)) as [<-|Hne]; [left; assumption|].
        destruct Hwhere as [Hnone|[k Hk]].
        { left. rewrite lookup_insert_ne in Hnone; assumption. }
        destruct (decide (l = k)) as [<-|Hlk].
        { rewrite lookup_insert_eq in Hk. congruence. }
        rewrite lookup_insert_ne in Hk by assumption. right. eauto.
Qed.

(** On a board whose rows are distinct objects the memo is never hit: every
    row is copied into an object of its own. *)
Lemma heap_deepcopy_rows_distinct (br : list nat) :
  forall (memo : gmap nat nat) (h h' : gmap nat (list Z)) (nb : list nat),
    Heap.deepcopy_rows memo h br = (h', nb) ->
    NoDup br ->
    (forall l, l ∈ br -> memo !! l = None) ->
    (forall l, l ∈ br -> is_Some (h !! l)) ->
    (forall l, is_Some (h !! l) -> h' !! l = h !! l)
    /\ (forall l, l ∈ nb -> h !! l = None /\ is_Some (h' !! l))
    /\ NoDup nb
    /\ Heap.read_board h' nb = Heap.read_board h br.
Proof.
  induction br as [|l rest IH]; intros memo h h' nb Hcopy Hnd Hmiss Hlive;
    simpl in Hcopy.
  - injection Hcopy as <- <-.
    split; [auto|]. split; [intros x Hin; inversion Hin|].
    split; [constructor | reflexivity].
  - rewrite (Hmiss l) in Hcopy by (left; reflexivity).
    destruct (Heap.deepcopy_rows (<[l := fresh (dom h)]> memo)
                (<[fresh (dom h) := Heap.read_row h l]> h) rest)
      as [h2 rest'] eqn:Hrest.
    injection Hcopy as <- <-.
    apply NoDup_cons in Hnd as [Hl Hnd].
    assert (Hfresh : h !! fresh (dom h) = None).
    { apply not_elem_of_dom, is_fresh. }
    set (l' := fresh (dom h)) in *.
    assert (Hold : forall x, is_Some (h !! x) ->
              <[l' := Heap.read_row h l]> h !! x = h !! x).
    { intros x [v Hx]. apply lookup_insert_ne. intros ->. congruence. }
    destruct (IH _ _ _ _ Hrest Hnd) as (Hkeep & Hnew & Hndn & Hread).
    { intros x Hx. rewrite lookup_insert_ne; [apply Hmiss; right; assumption|].
      intros ->. contradiction. }
    { intros x Hx. rewrite Hold; apply Hlive; right; assumption. }
    assert (Hl' : h2 !! l' = Some (Heap.read_row h l)).
    { rewrite Hkeep; rewrite lookup_insert_eq; eauto. }
    split; [|split; [|split]].
    + intros x Hx. rewrite Hkeep; rewrite Hold; auto.
    + intros x [->|Hin]%elem_of_cons; [eauto|].
      destruct (Hnew _ Hin) as [Hnone Hsome]. split; [|assumption].
      destruct (decide (l' = x)) as [<-|Hne]; [assumption|].
      rewrite lookup_insert_ne in Hnone; assumption.
    + constructor; [|assumption]. intros Hin.
      destruct (Hnew _ Hin) as [Hnone _].
      rewrite lookup_insert_eq in Hnone. discriminate.
    + simpl. f_equal.
      * unfold Heap.read_row at 1. rewrite Hl'. reflexivity.
      * rewrite Hread. apply heap_read_board_ext.
        intros x Hx. apply Hold, Hlive. right. assumption.
Qed.

Lemma heap_store_cell_frame (h : gmap nat (list Z)) (nb : list nat)
    (row col : nat) (p : Z) (l : nat) :
  l ∉ nb -> Heap.store_cell h nb row col p !! l = h !! l.
Proof.
  intros Hout. unfold Heap.store_cell.
  destruct (nb !! row) as [l'|] eqn:Hrow; [|reflexivity].
  destruct (h !! l') as [r|]; [|reflexivity].
  apply lookup_insert_ne. intros ->. apply Hout.
  eapply list_elem_of_lookup_2; eauto.
Qed.

Lemma heap_store_cell_read (h : gmap nat (list Z)) (nb : list nat)
    (row col : nat) (p : Z) :
  NoDup nb -> (forall l, l ∈ nb -> is_Some (h !! l)) ->
  Heap.read_board (Heap.store_cell h nb row col p) nb
  = set_cell (Heap.read_board h nb) row col p.
Proof.
  intros Hnd Hlive. unfold Heap.store_cell, set_cell, Heap.read_board.
  rewrite list_lookup_fmap.
  destruct (nb !! row) as [l|] eqn:Hrow; simpl; [|reflexivity].
  destruct (Hlive l) as [r Hr]; [eapply list_elem_of_lookup_2; eauto|].
  rewrite Hr. apply list_eq. intros i.
  rewrite list_lookup_fmap.
  destruct (decide (i = row)) as [->|Hne].
  - rewrite Hrow. simpl.
    rewrite list_lookup_insert_eq
      by (rewrite length_fmap; eapply lookup_lt_Some; eauto).
    unfold Heap.read_row. rewrite lookup_insert_eq, Hr. reflexivity.
  - rewrite list_lookup_insert_ne by auto. rewrite list_lookup_fmap.
    destruct (nb !! i) as [l'|] eqn:Hi; simpl; [|reflexivity].
    unfold Heap.read_row. rewrite lookup_insert_ne; [reflexivity|].
    intros ->. apply Hne. eapply NoDup_lookup; eauto.
Qed.

Lemma heap_drop_loop_frame (rows : list nat) (h : gmap nat (list Z))
    (nb : list nat) (col : nat) (p : Z) (l : nat) :
  l ∉ nb -> fst (Heap.drop_loop rows h nb col p) !! l = h !! l.
Proof.
  intros Hout. induction rows as [|row rest IH]; simpl; [reflexivity|].
  destruct (cell (Heap.read_board h nb) row col =? EMPTY); [|exact IH].
  simpl. apply heap_store_cell_frame. assumption.
Qed.

Lemma heap_drop_loop_spec (rows : list nat) (h : gmap nat (list Z))
    (nb : list nat) (col : nat) (p : Z) :
  NoDup nb -> (forall l, l ∈ nb -> is_Some (h !! l)) ->
  (Heap.read_board (fst (Heap.drop_loop rows h nb col p)) nb,
   snd (Heap.drop_loop rows h nb col p))
  = drop_loop rows (Heap.read_board h nb) col p.
Proof.
  intros Hnd Hlive. induction rows as [|row rest IH]; simpl; [reflexivity|].
  destruct (cell (Heap.read_board h nb) row col =? EMPTY); [|exact IH].
  simpl. rewrite heap_store_cell_read by assumption. reflexivity.
Qed.

(** [drop_piece] on the store leaves every row object that existed before
    the call as it was, whatever the board: the board passed in reads the
    same afterwards. When the rows of the board passed in are distinct
    objects, so are those of the board returned, and it is the board the
    value-level [drop_piece] computes. *)
Lemma heap_drop_piece_spec (h h2 : gmap nat (list Z)) (br nb : list nat)
    (col : nat) (p row : Z) :
  (forall l, l ∈ br -> is_Some (h !! l)) ->
  Heap.drop_piece h br col p = (h2, nb, row) ->
  (forall l, is_Some (h !! l) -> h2 !! l = h !! l)
  /\ Heap.read_board h2 br = Heap.read_board h br
  /\ (NoDup br ->
      NoDup nb
      /\ (Heap.read_board h2 nb, row)
         = drop_piece (Heap.read_board h br) col p).
Proof.
  intros Hlive. unfold Heap.drop_piece, Heap.deepcopy.
  destruct (Heap.deepcopy_rows ∅ h br) as [h1 nb'] eqn:Hcopy.
  destruct (heap_deepcopy_rows_frame _ _ _ _ _ Hcopy) as [Hkeep Hnew].
  { intros k l Hk. rewrite lookup_empty in Hk. discriminate. }
  pose proof (fun l => heap_drop_loop_frame (rev (seq 0 ROWS)) h1 nb' col p l)
    as Hframe.
  pose proof (fun Hnd => heap_drop_loop_spec (rev (seq 0 ROWS)) h1 nb' col p
                           Hnd (fun l Hl => proj1 (Hnew l Hl))) as Hval.
  destruct (Heap.drop_loop (rev (seq 0 ROWS)) h1 nb' col p) as [h2' row'].
  intros [= <- <- <-]. simpl in *.
  assert (Hold : forall l, is_Some (h !! l) -> h2' !! l = h !! l).
  { intros l Hl. rewrite Hframe; [auto|].
    intros Hin. destruct (Hnew l Hin) as [_ [Hnone|[k Hk]]].
    - rewrite Hnone in Hl. destruct Hl; discriminate.
    - rewrite lookup_empty in Hk. discriminate. }
  split; [exact Hold|]. split.
  - apply heap_read_board_ext. intros l Hl. apply Hold, Hlive, Hl.
  - intros Hnd.
    destruct (heap_deepcopy_rows_distinct _ _ _ _ _ Hcopy Hnd)
      as (_ & _ & Hndn & Hread); [intros l _; apply lookup_empty | exact Hlive|].
    split; [exact Hndn|]. rewrite (Hval Hndn), Hread. reflexivity.
Qed.

(** The boards of the programs are built with a row object of its own at
    every index. *)
Lemma heap_new_rows_spec (n : nat) :
  forall (h h' : gmap nat (list Z)) (br : list nat),
    Heap.new_rows n h = (h', br) ->
    (forall l, is_Some (h !! l) -> h' !! l = h !! l)
    /\ (forall l, l ∈ br -> h !! l = None /\ is_Some (h' !! l))
    /\ NoDup br
    /\ Heap.read_board h' br = repeat (repeat EMPTY COLS) n.
Proof.
  induction n as [|n IH]; intros h h' br Hnew;
    cbn [Heap.new_rows Heap.alloc] in Hnew.
  - injection Hnew as <- <-.
    split; [auto|]. split; [intros x Hin; inversion Hin|].
    split; [constructor | reflexivity].
  - destruct (Heap.new_rows n (<[fresh (dom h) := repeat EMPTY COLS]> h))
      as [h2 rest] eqn:Hrest.
    injection Hnew as <- <-.
    assert (Hfresh : h !! fresh (dom h) = None).
    { apply not_elem_of_dom, is_fresh. }
    set (l' := fresh (dom h)) in *.
    assert (Hold : forall x, is_Some (h !! x) ->
              <[l' := repeat EMPTY COLS]> h !! x = h !! x).
    { intros x [v Hx]. apply lookup_insert_ne. intros ->. congruence. }
    destruct (IH _ _ _ Hrest) as (Hkeep & Hnew & Hnd & Hread).
    assert (Hl' : h2 !! l' = Some (repeat EMPTY COLS)).
    { rewrite Hkeep; rewrite lookup_insert_eq; eauto. }
    split; [|split; [|split]].
    + intros x Hx. rewrite Hkeep; rewrite Hold; auto.
    + intros x [->|Hin]%elem_of_cons; [eauto|].
      destruct (Hnew _ Hin) as [Hnone Hsome]. split; [|assumption].
      destruct (decide (l' = x)) as [<-|Hne]; [assumption|].
      rewrite lookup_insert_ne in Hnone; assumption.
    + constructor; [|assumption]. intros Hin.
      destruct (Hnew _ Hin) as [Hnone _].
      rewrite lookup_insert_eq in Hnone. discriminate.
    + simpl. f_equal; [|exact Hread].
      unfold Heap.read_row. rewrite Hl'. reflexivity.
Qed.

Lemma heap_new_board_spec (h h' : gmap nat (list Z)) (br : list nat) :
  Heap.new_board h = (h', br) ->
  NoDup br /\ Heap.read_board h' br = empty_board
  /\ (forall l, l ∈ br -> is_Some (h' !! l)).
Proof.
  intros Hnew. destruct (heap_new_rows_spec _ _ _ _ Hnew)
    as (_ & Hlive & Hnd & Hread).
  split; [exact Hnd|]. split; [exact Hread|].
  intros l Hl. apply (Hlive l Hl).
Qed.

(** The condition on the rows is needed. With one row object at the indices
    0 to 4, the copy holds one row object there too, and the one write of
    [drop_piece] shows in five cells of the board returned; the board passed
    in still reads the same. *)
Lemma heap_drop_piece_shared_rows :
  Heap.read_board shared_rows_store shared_rows_board = threat_board
  /\ snd shared_rows_drop = 4
  /\ Heap.read_board (fst (fst shared_rows_drop)) shared_rows_board
     = threat_board
  /\ (forall r, (r < 5)%nat ->
        cell (Heap.read_board (fst (fst shared_rows_drop))
                (snd (fst shared_rows_drop))) r 0 = AI_PLAYER)
  /\ Heap.read_board (fst (fst shared_rows_drop)) (snd (fst shared_rows_drop))
     <> fst (drop_piece threat_board 0 AI_PLAYER).
Proof.
  split; [vm_compute; reflexivity|]. split; [vm_compute; reflexivity|].
  split; [vm_compute; reflexivity|]. split.
  - intros r Hr.
    do 5 (destruct r as [|r]; [vm_compute; reflexivity|]). lia.
  - vm_compute. discriminate.
Qed.

(** C7. On a board of the fixed shape and a column that is legal,
    [drop_piece] returns the row index of the lowest empty cell of the
    column and a board that holds [player] there and agrees with the input
    in every other cell; so nothing changes outside the column, and a board
    that satisfies gravity still does. On the store, the call writes only
    into row objects it has created itself: the board passed in reads the
    same after the call. When the rows of the board passed in are distinct
    objects, as they are in every board the programs build, the returned
    board is the one described and its rows are distinct objects again. *)
Theorem drop_piece_legal_move (b : board) (col : nat) (player : Z) :
  board_shape b = true ->
  is_player player = true ->
  is_valid_move b col = true ->
  exists (row : nat) (b' : board),
    drop_piece b col player = (b', Z.of_nat row)
    /\ (row < ROWS)%nat
    /\ cell b row col = EMPTY
    /\ (forall row', (row < row' < ROWS)%nat -> cell b row' col <> EMPTY)
    /\ cell b' row col = player
    /\ cell b' row col <> cell b row col
    /\ (forall r c, (r, c) <> (row, col) -> cell b' r c = cell b r c)
    /\ (forall r c, c <> col -> cell b' r c = cell b r c)
    /\ board_shape b' = true
    /\ (gravity b = true -> gravity b' = true)
    /\ (forall (h h2 : gmap nat (list Z)) (br nb : list nat) (z : Z),
          (forall l, l ∈ br -> is_Some (h !! l)) ->
          Heap.read_board h br = b ->
          Heap.drop_piece h br col player = (h2, nb, z) ->
          Heap.read_board h2 br = b
          /\ (NoDup br ->
              Heap.read_board h2 nb = b' /\ z = Z.of_nat row /\ NoDup nb)).
Proof.
  intros Hs Hp Hv.
  destruct (drop_piece_valid b col player Hv)
    as (row & Hrow & Hdrop & Hempty & Hbelow).
  pose proof Hv as [Hcol _]%is_valid_move_spec.
  pose proof (is_player_not_empty _ Hp) as Hne.
  exists row, (set_cell b row col player).
  assert (Hset : cell (set_cell b row col player) row col = player)
    by (apply cell_set_cell_eq; assumption).
  split; [assumption|]. split; [assumption|]. split; [assumption|].
  split; [assumption|]. split; [assumption|].
  split; [rewrite Hset, Hempty; assumption|].
  split; [intros r c Hrc; apply cell_set_cell_ne; congruence|].
  split; [intros r c Hc; apply cell_set_cell_ne; congruence|].
  split; [apply board_shape_set_cell; assumption|].
  split; [apply gravity_set_lowest; assumption|].
  intros h h2 br nb z Hlive Hread Hheap.
  destruct (heap_drop_piece_spec _ _ _ _ _ _ _ Hlive Hheap)
    as (_ & Hin & Hout).
  rewrite Hread in Hin, Hout. split; [exact Hin|]. intros Hnd.
  destruct (Hout Hnd) as [Hndn Hval]. rewrite Hdrop in Hval.
  injection Hval as Hb Hz. auto.
Qed.

Lemma drop_piece_legal_move_witness :
  exists (row : nat) (b' : board),
    drop_piece threat_board 3 AI_PLAYER = (b', Z.of_nat row)
    /\ (row < ROWS)%nat
    /\ cell threat_board row 3 = EMPTY
    /\ (forall row', (row < row' < ROWS)%nat ->
          cell threat_board row' 3 <> EMPTY)
    /\ cell b' row 3 = AI_PLAYER
    /\ cell b' row 3 <> cell threat_board row 3
    /\ (forall r c, (r, c) <> (row, 3%nat) ->
          cell b' r c = cell threat_board r c)
    /\ (forall r c, c <> 3%nat -> cell b' r c = cell threat_board r c)
    /\ board_shape b' = true
    /\ (gravity threat_board = true -> gravity b' = true)
    /\ (forall (h h2 : gmap nat (list Z)) (br nb : list nat) (z : Z),
          (forall l, l ∈ br -> is_Some (h !! l)) ->
          Heap.read_board h br = threat_board ->
          Heap.drop_piece h br 3 AI_PLAYER = (h2, nb, z) ->
          Heap.read_board h2 br = threat_board
          /\ (NoDup br ->
              Heap.read_board h2 nb = b' /\ z = Z.of_nat row /\ NoDup nb)).
Proof.
  apply (drop_piece_legal_move threat_board 3 AI_PLAYER); reflexivity.
Defined.

(** ** Move ordering *)

Lemma flat_map_ext_seq (f g : nat -> list nat) (l : list nat) :
  (forall k, In k l -> f k = g k) -> flat_map f l = flat_map g l.
Proof.
  induction l as [|k l IH]; intros Hfg; simpl; [reflexivity|].
  rewrite Hfg by (left; reflexivity). f_equal.
  apply IH. intros k' Hk'. apply Hfg. right. assumption.
Qed.

Section StableSort.

Variable key : nat -> nat.

(** The elements of [l] with key [k], in the order of [l]. *)
Let bucket (k : nat) (l : list nat) : list nat :=
  List.filter (fun x => (key x =? k)%nat) l.

Lemma insert_by_front (x : nat) (l : list nat) :
  (forall y, In y l -> (key x <= key y)%nat) ->
  P4.insert_by key x l = x :: l.
Proof.
  destruct l as [|y l]; intros Hle; simpl; [reflexivity|].
  rewrite (proj2 (Nat.leb_le _ _)); [reflexivity|]. apply Hle. left.
  reflexivity.
Qed.

Lemma insert_by_skip (x : nat) (l1 l2 : list nat) :
  (forall y, In y l1 -> (key y < key x)%nat) ->
  P4.insert_by key x (l1 ++ l2) = l1 ++ P4.insert_by key x l2.
Proof.
  induction l1 as [|y l1 IH]; intros Hlt; simpl; [reflexivity|].
  rewrite (proj2 (Nat.leb_gt _ _)) by (apply Hlt; left; reflexivity).
  f_equal. apply IH. intros z Hz. apply Hlt. right. assumption.
Qed.

Lemma insert_by_buckets (x : nat) (l : list nat) (n : nat) :
  forall k0, (k0 <= key x < k0 + n)%nat ->
    P4.insert_by key x (flat_map (fun k => bucket k l) (seq k0 n))
    = flat_map (fun k => bucket k (x :: l)) (seq k0 n).
Proof.
  induction n as [|n IH]; intros k0 Hk; [lia|]. simpl.
  destruct (Nat.eqb_spec (key x) k0) as [Heq|Hne].
  - rewrite insert_by_front.
    + simpl. f_equal. f_equal. apply flat_map_ext_seq.
      intros k Hin%in_seq. unfold bucket at 2. simpl.
      rewrite (proj2 (Nat.eqb_neq _ _)) by lia. reflexivity.
    + intros y [Hy|Hy]%in_app_iff.
      * apply filter_In in Hy as [_ Hy%Nat.eqb_eq]. lia.
      * apply in_flat_map in Hy as (k & Hin%in_seq & Hy).
        apply filter_In in Hy as [_ Hy%Nat.eqb_eq]. lia.
  - rewrite insert_by_skip.
    + f_equal. apply IH. lia.
    + intros y Hy. apply filter_In in Hy as [_ Hy%Nat.eqb_eq]. lia.
Qed.

(** A stable sort lists the keys in ascending order and, within a key, the
    elements in their original order. *)
Lemma sort_by_buckets (n : nat) (l : list nat) :
  (forall x, In x l -> (key x < n)%nat) ->
  P4.sort_by key l = flat_map (fun k => bucket k l) (seq 0 n).
Proof.
  induction l as [|x l IH]; intros Hkey; simpl.
  - induction (seq 0 n) as [|k ks IHk]; [reflexivity | exact IHk].
  - rewrite IH by (intros y Hy; apply Hkey; right; assumption).
    apply insert_by_buckets. specialize (Hkey x (or_introl eq_refl)). lia.
Qed.

Lemma insert_by_perm (x : nat) (l : list nat) :
  Permutation (P4.insert_by key x l) (x :: l).
Proof.
  induction l as [|y l IH]; simpl; [reflexivity|].
  destruct (key x <=? key y)%nat; [reflexivity|].
  rewrite IH. apply perm_swap.
Qed.

Lemma sort_by_perm (l : list nat) : Permutation (P4.sort_by key l) l.
Proof.
  induction l as [|x l IH]; simpl; [reflexivity|].
  rewrite insert_by_perm. constructor. assumption.
Qed.

End StableSort.

Lemma filter_flat_map (p : nat -> bool) (f : nat -> list nat) (l : list nat) :
  List.filter p (flat_map f l) = flat_map (fun k => List.filter p (f k)) l.
Proof.
  induction l as [|k l IH]; simpl; [reflexivity|].
  rewrite List.filter_app, IH. reflexivity.
Qed.

Lemma filter_comm (p q : nat -> bool) (l : list nat) :
  List.filter p (List.filter q l) = List.filter q (List.filter p l).
Proof.
  induction l as [|x l IH]; simpl; [reflexivity|].
  destruct (p x) eqn:Hp, (q x) eqn:Hq; simpl; rewrite ?Hp, ?Hq, IH;
    reflexivity.
Qed.

Lemma filter_and (p q : nat -> bool) (l : list nat) :
  List.filter p (List.filter q l) = List.filter (fun x => q x && p x) l.
Proof.
  induction l as [|x l IH]; simpl; [reflexivity|].
  destruct (q x) eqn:Hq; simpl; rewrite IH; reflexivity.
Qed.

Lemma center_key_bound (x : nat) : (P4.center_key x < 7)%nat.
Proof.
  do 9 (destruct x as [|x]; [vm_compute; lia|]). vm_compute. lia.
Qed.

(** Sorting by [center_key] any selection of the columns in ascending order
    gives the selection of [preference_order]. *)
Lemma sort_by_center_key (p : nat -> bool) :
  P4.sort_by P4.center_key (List.filter p (seq 0 COLS))
  = List.filter p preference_order.
Proof.
  rewrite (sort_by_buckets P4.center_key 7)
    by (intros x _; apply center_key_bound).
  change preference_order with
    (flat_map (fun k =>
       List.filter (fun x => (P4.center_key x =? k)%nat) (seq 0 COLS))
       (seq 0 7)).
  rewrite filter_flat_map. apply flat_map_ext_seq. intros k _.
  apply filter_comm.
Qed.

Lemma classify_fold (b : board) (l : list nat) :
  forall w bl o,
    fold_left (P4.classify b) l (w, bl, o)
    = (w ++ List.filter (wins b) l, bl ++ List.filter (blocks b) l,
       o ++ List.filter (others b) l).
Proof.
  induction l as [|col l IH]; intros w bl o; simpl.
  - rewrite !app_nil_r. reflexivity.
  - unfold wins, blocks, others in *.
    destruct (P4.check_immediate_threat b AI_PLAYER col);
      [|destruct (P4.check_immediate_threat b HUMAN_PLAYER col)];
      simpl; rewrite IH, <- ?app_assoc; reflexivity.
Qed.

Lemma prioritize_moves_groups (b : board) :
  P4.prioritize_moves b
  = List.filter (wins b) (get_valid_moves b)
    ++ List.filter (blocks b) (get_valid_moves b)
    ++ List.filter (fun col => is_valid_move b col && others b col)
         preference_order.
Proof.
  unfold P4.prioritize_moves. rewrite classify_fold. cbv beta iota.
  rewrite !app_nil_l. do 2 f_equal. unfold get_valid_moves.
  rewrite filter_and. apply sort_by_center_key.
Qed.

Lemma filter_three_perm (p q r : nat -> bool) (l : list nat) :
  (forall x, (p x = true /\ q x = false /\ r x = false)
             \/ (p x = false /\ q x = true /\ r x = false)
             \/ (p x = false /\ q x = false /\ r x = true)) ->
  Permutation (List.filter p l ++ List.filter q l ++ List.filter r l) l.
Proof.
  intros Hone. induction l as [|x l IH]; simpl; [reflexivity|].
  destruct (Hone x) as [(-> & -> & ->)|[(-> & -> & ->)|(-> & -> & ->)]];
    simpl.
  - constructor. assumption.
  - rewrite <- Permutation_middle. constructor. assumption.
  - rewrite app_assoc, <- Permutation_middle, <- app_assoc.
    constructor. assumption.
Qed.

Lemma prioritize_moves_perm (b : board) :
  Permutation (P4.prioritize_moves b) (get_valid_moves b).
Proof.
  unfold P4.prioritize_moves. rewrite classify_fold. cbv beta iota.
  rewrite !app_nil_l, sort_by_perm. apply filter_three_perm.
  intros x. unfold wins, blocks, others.
  destruct (P4.check_immediate_threat b AI_PLAYER x),
    (P4.check_immediate_threat b HUMAN_PLAYER x); simpl; tauto.
Qed.

Lemma get_valid_moves_spec (b : board) (col : nat) :
  In col (get_valid_moves b) <-> is_valid_move b col = true.
Proof.
  unfold get_valid_moves. rewrite filter_In, in_seq. split; [tauto|].
  intros Hv. split; [|assumption].
  apply is_valid_move_spec in Hv as [Hcol _]. lia.
Qed.

(** C5, as stated, fails: on the empty board no column wins or blocks, so
    all twelve columns are "remaining" ones, and [prioritize_moves] returns
    them in an order (column 0 before column 2, and 5 before 6 before 4) that
    is not ascending in the distance from the centre, wherever the centre is
    placed. *)
Lemma prioritize_moves_not_by_distance :
  List.filter (others empty_board) (get_valid_moves empty_board)
    = seq 0 COLS
  /\ P4.prioritize_moves empty_board = preference_order
  /\ ~ exists m : Z,
         sorted_by_distance m (P4.prioritize_moves empty_board).
Proof.
  split; [reflexivity|]. split; [reflexivity|].
  intros [m Hsorted].
  change (P4.prioritize_moves empty_board) with preference_order in Hsorted.
  pose proof (Hsorted 0%nat 1%nat 5%nat 6%nat ltac:(lia) eq_refl eq_refl)
    as H56.
  pose proof (Hsorted 1%nat 2%nat 6%nat 4%nat ltac:(lia) eq_refl eq_refl)
    as H64.
  pose proof (Hsorted 6%nat 8%nat 0%nat 2%nat ltac:(lia) eq_refl eq_refl)
    as H02.
  unfold center_distance in *. lia.
Qed.

(** C5, amended. [prioritize_moves(board)] returns exactly the legal
    columns, each once: first, in ascending order, the columns where
    AI_PLAYER would complete four in a row; then, in ascending order, the
    other columns where HUMAN_PLAYER would; then the remaining legal columns
    in the order 5, 6, 4, 7, 3, 8 (the ranked centre columns) followed by
    0, 1, 2, 9, 10, 11 (unranked, by index). The function has no argument for
    the side to move. *)
Theorem prioritize_moves_order (b : board) :
  P4.prioritize_moves b
  = List.filter (wins b) (get_valid_moves b)
    ++ List.filter (blocks b) (get_valid_moves b)
    ++ List.filter (fun col => is_valid_move b col && others b col)
         preference_order
  /\ Permutation (P4.prioritize_moves b) (get_valid_moves b)
  /\ List.NoDup (P4.prioritize_moves b)
  /\ (forall col,
        In col (P4.prioritize_moves b) <-> is_valid_move b col = true).
Proof.
  split; [apply prioritize_moves_groups|].
  split; [apply prioritize_moves_perm|].
  split.
  { apply (Permutation_NoDup (l := get_valid_moves b)).
    - symmetry. apply prioritize_moves_perm.
    - apply List.NoDup_filter, List.seq_NoDup. }
  intros col. rewrite <- get_valid_moves_spec. split; intros Hin.
  - apply list_elem_of_In. rewrite <- (prioritize_moves_perm b).
    apply list_elem_of_In. assumption.
  - apply list_elem_of_In. rewrite (prioritize_moves_perm b).
    apply list_elem_of_In. assumption.
Qed.

(** ** The extended integers *)

Lemma ext_max_eq (x y : ext) :
  ext_max x y
  = match x, y with
    | NegInf, _ => y
    | _, NegInf => x
    | PosInf, _ => PosInf
    | _, PosInf => PosInf
    | Fin a, Fin b => Fin (Z.max a b)
    end.
Proof.
  destruct x as [|a|], y as [|b|]; try reflexivity.
  unfold ext_max, ext_ltb. simpl. destruct (Z.leb_spec b a); simpl;
    f_equal; lia.
Qed.

Lemma ext_min_eq (x y : ext) :
  ext_min x y
  = match x, y with
    | PosInf, _ => y
    | _, PosInf => x
    | NegInf, _ => NegInf
    | _, NegInf => NegInf
    | Fin a, Fin b => Fin (Z.min a b)
    end.
Proof.
  destruct x as [|a|], y as [|b|]; try reflexivity.
  unfold ext_min, ext_ltb. simpl. destruct (Z.leb_spec a b); simpl;
    f_equal; lia.
Qed.

Lemma ext_leb_true (x y : ext) : ext_leb x y = true <-> ext_le x y.
Proof.
  destruct x, y; simpl; rewrite ?Z.leb_le; intuition discriminate.
Qed.

Lemma ext_leb_false (x y : ext) : ext_leb x y = false <-> ext_lt y x.
Proof.
  destruct x, y; simpl; rewrite ?Z.leb_gt; intuition discriminate.
Qed.

Lemma ext_ltb_true (x y : ext) : ext_ltb x y = true <-> ext_lt x y.
Proof. unfold ext_ltb. rewrite negb_true_iff. apply ext_leb_false. Qed.

Lemma ext_ltb_false (x y : ext) : ext_ltb x y = false <-> ext_le y x.
Proof. unfold ext_ltb. rewrite negb_false_iff. apply ext_leb_true. Qed.

Lemma ext_eq_iff (x y : ext) :
  x = y <->
  match x, y with
  | NegInf, NegInf => True
  | Fin a, Fin b => a = b
  | PosInf, PosInf => True
  | _, _ => False
  end.
Proof.
  destruct x, y; split; intros H; try discriminate; try tauto;
    try reflexivity; try congruence.
Qed.

(** Case analysis on the extended integers in sight, then arithmetic. *)
Ltac ext_cases :=
  repeat match goal with
         | H : context [@eq ext ?x ?y] |- _ => rewrite (ext_eq_iff x y) in H
         | |- context [@eq ext ?x ?y] => rewrite (ext_eq_iff x y)
         end;
  repeat match goal with x : ext |- _ => destruct x end;
  rewrite ?ext_max_eq, ?ext_min_eq in *;
  cbv beta iota delta [ext_le ext_lt] in *;
  try tauto; try lia.

Lemma ext_max_comm (x y : ext) : ext_max x y = ext_max y x.
Proof. ext_cases. Qed.

Lemma ext_max_assoc (x y z : ext) :
  ext_max x (ext_max y z) = ext_max (ext_max x y) z.
Proof. ext_cases. Qed.

Lemma ext_min_comm (x y : ext) : ext_min x y = ext_min y x.
Proof. ext_cases. Qed.

Lemma ext_min_assoc (x y z : ext) :
  ext_min x (ext_min y z) = ext_min (ext_min x y) z.
Proof. ext_cases. Qed.

Lemma ext_maximum_perm (l l' : list ext) :
  Permutation l l' -> ext_maximum l = ext_maximum l'.
Proof.
  induction 1 as [|x l l' _ IH|x y l|l l' l'' _ IH1 _ IH2]; simpl.
  - reflexivity.
  - rewrite IH. reflexivity.
  - rewrite !ext_max_assoc, (ext_max_comm y x). reflexivity.
  - congruence.
Qed.

Lemma ext_minimum_perm (l l' : list ext) :
  Permutation l l' -> ext_minimum l = ext_minimum l'.
Proof.
  induction 1 as [|x l l' _ IH|x y l|l l' l'' _ IH1 _ IH2]; simpl.
  - reflexivity.
  - rewrite IH. reflexivity.
  - rewrite !ext_min_assoc, (ext_min_comm y x). reflexivity.
  - congruence.
Qed.

(** With the full window the result is the minimax value. *)
Lemma ab_ok_full (m r : ext) : ab_ok NegInf PosInf m r -> r = m.
Proof. unfold ab_ok. intros (Ha & Hb & Hc). ext_cases. Qed.

Lemma ab_ok_leaf (alpha beta m : ext) : ab_ok alpha beta m m.
Proof. unfold ab_ok. ext_cases. Qed.

(** *** The maximizing loop *)

Lemma max_inv_init (alpha0 beta : ext) :
  ext_lt alpha0 beta -> max_inv alpha0 beta NegInf NegInf.
Proof. unfold max_inv. ext_cases. Qed.

Lemma max_window (alpha0 beta v : ext) :
  ext_lt alpha0 beta -> ext_lt v beta -> ext_lt (ext_max alpha0 v) beta.
Proof. ext_cases. Qed.

Lemma max_cut_le (alpha0 beta v r m : ext) :
  ext_lt alpha0 beta -> ext_lt v beta ->
  ab_ok (ext_max alpha0 v) beta m r ->
  ext_le beta (ext_max v r) ->
  ext_le (ext_max v r) m.
Proof. unfold ab_ok. intros H1 H2 (Ha & Hb & Hc) H3. ext_cases. Qed.

Lemma max_cut_ok (alpha0 beta x m M R : ext) :
  ext_lt alpha0 beta -> ext_le beta x -> ext_le x m ->
  ab_ok alpha0 beta (ext_max M (ext_max m R)) x.
Proof.
  intros H1 H2 H3. unfold ab_ok. split; [|split].
  - clear H3. intros H4. exfalso. clear m M R. ext_cases.
  - intros _. clear H1 H2. clear alpha0 beta. ext_cases.
  - intros _ H4. exfalso. clear H1 H3. clear alpha0 m M R. ext_cases.
Qed.

Lemma ab_ok_upper (alpha beta m r : ext) :
  ab_ok alpha beta m r -> ext_lt r beta -> ext_le m r.
Proof. unfold ab_ok. intros (Ha & Hb & Hc) H. ext_cases. Qed.

Lemma max_go_exact (alpha0 v r m M : ext) :
  ext_le M v -> (ext_lt alpha0 v -> M = v) -> ext_le m r ->
  (ext_lt (ext_max alpha0 v) r -> r = m) ->
  ext_lt alpha0 (ext_max v r) -> ext_max M m = ext_max v r.
Proof. intros H1 H2 H3 H4 H5. ext_cases. Qed.

Lemma max_go_le (v r m M : ext) :
  ext_le M v -> ext_le m r -> ext_le (ext_max M m) (ext_max v r).
Proof. intros H1 H2. ext_cases. Qed.

Lemma max_go_window (alpha0 v r : ext) :
  ext_max (ext_max alpha0 v) (ext_max v r) = ext_max alpha0 (ext_max v r).
Proof. ext_cases. Qed.

Lemma max_go (alpha0 beta v r m M : ext) :
  max_inv alpha0 beta v M ->
  ab_ok (ext_max alpha0 v) beta m r ->
  ext_lt (ext_max v r) beta ->
  max_inv alpha0 beta (ext_max v r) (ext_max M m).
Proof.
  intros (Hle & Hex & Hlt) Hok Hgo.
  assert (Hr : ext_lt r beta) by (clear - Hgo; ext_cases).
  pose proof (ab_ok_upper _ _ _ _ Hok Hr) as Hm.
  destruct Hok as (_ & _ & Hin).
  split; [apply max_go_le; assumption|]. split; [|assumption].
  apply max_go_exact; auto.
Qed.

Lemma max_done (alpha0 beta v M : ext) :
  max_inv alpha0 beta v M -> ab_ok alpha0 beta (ext_max M NegInf) v.
Proof. unfold max_inv, ab_ok. intros (H1 & H2 & H3). ext_cases. Qed.

Lemma max_cut_window (alpha0 beta x : ext) :
  ext_lt alpha0 beta -> (ext_le beta (ext_max alpha0 x) <-> ext_le beta x).
Proof. intros H. ext_cases. Qed.

(** *** The minimizing loop *)

Lemma min_inv_init (alpha beta0 : ext) :
  ext_lt alpha beta0 -> min_inv alpha beta0 PosInf PosInf.
Proof. unfold min_inv. ext_cases. Qed.

Lemma min_window (alpha beta0 v : ext) :
  ext_lt alpha beta0 -> ext_lt alpha v -> ext_lt alpha (ext_min beta0 v).
Proof. ext_cases. Qed.

Lemma min_cut_le (alpha beta0 v r m : ext) :
  ext_lt alpha beta0 -> ext_lt alpha v ->
  ab_ok alpha (ext_min beta0 v) m r ->
  ext_le (ext_min v r) alpha ->
  ext_le m (ext_min v r).
Proof. unfold ab_ok. intros H1 H2 (Ha & Hb & Hc) H3. ext_cases. Qed.

Lemma min_cut_ok (alpha beta0 x m M R : ext) :
  ext_lt alpha beta0 -> ext_le x alpha -> ext_le m x ->
  ab_ok alpha beta0 (ext_min M (ext_min m R)) x.
Proof.
  intros H1 H2 H3. unfold ab_ok. split; [|split].
  - intros _. clear H1 H2. clear alpha beta0. ext_cases.
  - clear H3. intros H4. exfalso. clear m M R. ext_cases.
  - intros H4 _. exfalso. clear H1 H3. clear beta0 m M R. ext_cases.
Qed.

Lemma ab_ok_lower (alpha beta m r : ext) :
  ab_ok alpha beta m r -> ext_lt alpha r -> ext_le r m.
Proof. unfold ab_ok. intros (Ha & Hb & Hc) H. ext_cases. Qed.

Lemma min_go_exact (beta0 v r m M : ext) :
  ext_le v M -> (ext_lt v beta0 -> M = v) -> ext_le r m ->
  (ext_lt r (ext_min beta0 v) -> r = m) ->
  ext_lt (ext_min v r) beta0 -> ext_min M m = ext_min v r.
Proof. intros H1 H2 H3 H4 H5. ext_cases. Qed.

Lemma min_go_le (v r m M : ext) :
  ext_le v M -> ext_le r m -> ext_le (ext_min v r) (ext_min M m).
Proof. intros H1 H2. ext_cases. Qed.

Lemma min_go_window (beta0 v r : ext) :
  ext_min (ext_min beta0 v) (ext_min v r) = ext_min beta0 (ext_min v r).
Proof. ext_cases. Qed.

Lemma min_go (alpha beta0 v r m M : ext) :
  min_inv alpha beta0 v M ->
  ab_ok alpha (ext_min beta0 v) m r ->
  ext_lt alpha (ext_min v r) ->
  min_inv alpha beta0 (ext_min v r) (ext_min M m).
Proof.
  intros (Hle & Hex & Hlt) Hok Hgo.
  assert (Hr : ext_lt alpha r) by (clear - Hgo; ext_cases).
  pose proof (ab_ok_lower _ _ _ _ Hok Hr) as Hm.
  destruct Hok as (_ & _ & Hin).
  split; [apply min_go_le; assumption|]. split; [|assumption].
  apply min_go_exact; auto.
Qed.

Lemma min_done (alpha beta0 v M : ext) :
  min_inv alpha beta0 v M -> ab_ok alpha beta0 (ext_min M PosInf) v.
Proof. unfold min_inv, ab_ok. intros (H1 & H2 & H3). ext_cases. Qed.

Lemma min_cut_window (alpha beta0 x : ext) :
  ext_lt alpha beta0 -> (ext_le (ext_min beta0 x) alpha <-> ext_le x alpha).
Proof. intros H. ext_cases. Qed.

(** *** The loops of P4.py *)

Section LoopsP4.

Variable child : board -> ext -> ext -> ext.
Variable b : board.
Variable spec : nat -> ext.

Lemma max_loop_ok (beta : ext) (cols : list nat) :
  (forall col a, ext_lt a beta ->
     ab_ok a beta (spec col)
       (child (fst (drop_piece b col AI_PLAYER)) a beta)) ->
  forall v alpha0 M,
    ext_lt alpha0 beta -> max_inv alpha0 beta v M ->
    ab_ok alpha0 beta (ext_max M (ext_maximum (map spec cols)))
      (P4.max_loop child b cols v (ext_max alpha0 v) beta).
Proof.
  intros Hchild. induction cols as [|col rest IH]; intros v alpha0 M Hw Hinv.
  - apply max_done. assumption.
  - simpl.
    pose proof Hinv as (_ & _ & Hv).
    pose proof (Hchild col _ (max_window _ _ _ Hw Hv)) as Hok.
    set (r := child (fst (drop_piece b col AI_PLAYER)) (ext_max alpha0 v) beta)
      in *.
    destruct (ext_leb beta (ext_max v r)) eqn:Hcut.
    + apply ext_leb_true in Hcut. apply max_cut_ok; try assumption.
      apply (max_cut_le alpha0 beta v r (spec col)); assumption.
    + apply ext_leb_false in Hcut.
      rewrite max_go_window, ext_max_assoc.
      apply IH; [assumption|]. apply max_go; assumption.
Qed.

Lemma min_loop_ok (alpha : ext) (cols : list nat) :
  (forall col be, ext_lt alpha be ->
     ab_ok alpha be (spec col)
       (child (fst (drop_piece b col HUMAN_PLAYER)) alpha be)) ->
  forall v beta0 M,
    ext_lt alpha beta0 -> min_inv alpha beta0 v M ->
    ab_ok alpha beta0 (ext_min M (ext_minimum (map spec cols)))
      (P4.min_loop child b cols v alpha (ext_min beta0 v)).
Proof.
  intros Hchild. induction cols as [|col rest IH]; intros v beta0 M Hw Hinv.
  - apply min_done. assumption.
  - simpl.
    pose proof Hinv as (_ & _ & Hv).
    pose proof (Hchild col _ (min_window _ _ _ Hw Hv)) as Hok.
    set (r := child (fst (drop_piece b col HUMAN_PLAYER)) alpha
                (ext_min beta0 v)) in *.
    destruct (ext_leb (ext_min v r) alpha) eqn:Hcut.
    + apply ext_leb_true in Hcut. apply min_cut_ok; try assumption.
      apply (min_cut_le alpha beta0 v r (spec col)); assumption.
    + apply ext_leb_false in Hcut.
      rewrite min_go_window, ext_min_assoc.
      apply IH; [assumption|]. apply min_go; assumption.
Qed.

End LoopsP4.

(** *** The search of P4.py under any order of the legal columns *)

Section OrderP4.

Variable order : board -> list nat.
Hypothesis order_perm : forall b, Permutation (order b) (get_valid_moves b).

Lemma search_with_ok (d : nat) :
  forall b alpha beta, ext_lt alpha beta ->
    ab_ok alpha beta (minimax b d true)
      (P4.max_value_with order b alpha beta d)
    /\ ab_ok alpha beta (minimax b d false)
      (P4.min_value_with order b alpha beta d).
Proof.
  induction d as [|d IH]; intros b alpha beta Hw.
  - simpl. destruct (P4.Terminal_Test b); split; apply ab_ok_leaf.
  - cbn [P4.max_value_with P4.min_value_with minimax].
    destruct (P4.Terminal_Test b); [split; apply ab_ok_leaf|]. split.
    + rewrite <- (ext_maximum_perm _ _
        (Permutation_map (fun col =>
           minimax (fst (drop_piece b col AI_PLAYER)) d false)
           (order_perm b))).
      replace alpha with (ext_max alpha NegInf) at 2 by ext_cases.
      replace (ext_maximum _) with (ext_max NegInf (ext_maximum
        (map (fun col => minimax (fst (drop_piece b col AI_PLAYER)) d false)
           (order b)))) by (rewrite ext_max_eq; reflexivity).
      apply max_loop_ok; [|assumption|apply max_inv_init; assumption].
      intros col a Ha. apply IH. assumption.
    + rewrite <- (ext_minimum_perm _ _
        (Permutation_map (fun col =>
           minimax (fst (drop_piece b col HUMAN_PLAYER)) d true)
           (order_perm b))).
      replace beta with (ext_min beta PosInf) at 2 by ext_cases.
      replace (ext_minimum _) with (ext_min PosInf (ext_minimum
        (map (fun col => minimax (fst (drop_piece b col HUMAN_PLAYER)) d true)
           (order b)))) by (rewrite ext_min_eq; reflexivity).
      apply min_loop_ok; [|assumption|apply min_inv_init; assumption].
      intros col be Hbe. apply IH. assumption.
Qed.

Lemma search_with_full_window (b : board) (d : nat) :
  P4.max_value_with order b NegInf PosInf d = minimax b d true
  /\ P4.min_value_with order b NegInf PosInf d = minimax b d false.
Proof.
  destruct (search_with_ok d b NegInf PosInf I) as [Hmax Hmin].
  split; apply ab_ok_full; assumption.
Qed.

End OrderP4.

(** *** The loops of P4v2.py *)

Section LoopsP4v2.

Variable child : board -> ext -> ext -> P4v2.Clock ext.
Variable b : board.
Variable spec : nat -> ext.

Lemma max_loop_v2_ok (beta : ext) (cols : list nat) :
  (forall col a k, ext_lt a beta ->
     ab_ok a beta (spec col)
       (fst (child (fst (drop_piece b col AI_PLAYER)) a beta k))) ->
  forall v alpha0 M k,
    ext_lt alpha0 beta -> max_inv alpha0 beta v M ->
    ab_ok alpha0 beta (ext_max M (ext_maximum (map spec cols)))
      (fst (P4v2.max_loop child b cols v (ext_max alpha0 v) beta k)).
Proof.
  intros Hchild. induction cols as [|col rest IH]; intros v alpha0 M k Hw Hinv.
  - apply max_done. assumption.
  - simpl. unfold P4v2.bind.
    pose proof Hinv as (_ & _ & Hv).
    pose proof (Hchild col _ k (max_window _ _ _ Hw Hv)) as Hok.
    destruct (child (fst (drop_piece b col AI_PLAYER)) (ext_max alpha0 v)
                beta k) as [r k'].
    simpl in Hok. rewrite max_go_window.
    destruct (ext_leb beta (ext_max alpha0 (ext_max v r))) eqn:Hcut.
    + apply ext_leb_true, max_cut_window in Hcut; [|assumption].
      apply max_cut_ok; try assumption.
      apply (max_cut_le alpha0 beta v r (spec col)); assumption.
    + assert (Hgo : ext_lt (ext_max v r) beta).
      { apply ext_leb_false. destruct (ext_leb beta (ext_max v r)) eqn:Hc;
          [|reflexivity].
        apply ext_leb_true, (max_cut_window alpha0), ext_leb_true in Hc;
          [congruence | assumption]. }
      rewrite ext_max_assoc.
      apply IH; [assumption|]. apply max_go; assumption.
Qed.

Lemma min_loop_v2_ok (alpha : ext) (cols : list nat) :
  (forall col be k, ext_lt alpha be ->
     ab_ok alpha be (spec col)
       (fst (child (fst (drop_piece b col HUMAN_PLAYER)) alpha be k))) ->
  forall v beta0 M k,
    ext_lt alpha beta0 -> min_inv alpha beta0 v M ->
    ab_ok alpha beta0 (ext_min M (ext_minimum (map spec cols)))
      (fst (P4v2.min_loop child b cols v alpha (ext_min beta0 v) k)).
Proof.
  intros Hchild. induction cols as [|col rest IH]; intros v beta0 M k Hw Hinv.
  - apply min_done. assumption.
  - simpl. unfold P4v2.bind.
    pose proof Hinv as (_ & _ & Hv).
    pose proof (Hchild col _ k (min_window _ _ _ Hw Hv)) as Hok.
    destruct (child (fst (drop_piece b col HUMAN_PLAYER)) alpha
                (ext_min beta0 v) k) as [r k'].
    simpl in Hok. rewrite min_go_window.
    destruct (ext_leb (ext_min beta0 (ext_min v r)) alpha) eqn:Hcut.
    + apply ext_leb_true, min_cut_window in Hcut; [|assumption].
      apply min_cut_ok; try assumption.
      apply (min_cut_le alpha beta0 v r (spec col)); assumption.
    + assert (Hgo : ext_lt alpha (ext_min v r)).
      { apply ext_leb_false. destruct (ext_leb (ext_min v r) alpha) eqn:Hc;
          [|reflexivity].
        apply ext_leb_true, (min_cut_window alpha beta0), ext_leb_true in Hc;
          [congruence | assumption]. }
      rewrite ext_min_assoc.
      apply IH; [assumption|]. apply min_go; assumption.
Qed.

End LoopsP4v2.

(** [minimax_ab] when the deadline never passes. *)
Lemma minimax_ab_ok (d : nat) :
  forall b alpha beta maximizing k, ext_lt alpha beta ->
    ab_ok alpha beta (minimax_v2 b d maximizing)
      (fst (P4v2.minimax_ab (fun _ => false) b d alpha beta maximizing k)).
Proof.
  induction d as [|d IH]; intros b alpha beta maximizing k Hw.
  - apply ab_ok_leaf.
  - cbn [P4v2.minimax_ab minimax_v2].
    unfold P4v2.bind, P4v2.time_exceeded. cbn [orb].
    destruct (P4v2.Terminal_Test b); [apply ab_ok_leaf|].
    destruct maximizing.
    + replace alpha with (ext_max alpha NegInf) at 2 by ext_cases.
      replace (ext_maximum _) with (ext_max NegInf (ext_maximum
        (map (fun col =>
                minimax_v2 (fst (drop_piece b col AI_PLAYER)) d false)
           (get_valid_moves b)))) by (rewrite ext_max_eq; reflexivity).
      apply max_loop_v2_ok; [|assumption|apply max_inv_init; assumption].
      intros col a k' Ha. apply IH. assumption.
    + replace beta with (ext_min beta PosInf) at 2 by ext_cases.
      replace (ext_minimum _) with (ext_min PosInf (ext_minimum
        (map (fun col =>
                minimax_v2 (fst (drop_piece b col HUMAN_PLAYER)) d true)
           (get_valid_moves b)))) by (rewrite ext_min_eq; reflexivity).
      apply min_loop_v2_ok; [|assumption|apply min_inv_init; assumption].
      intros col be k' Hbe. apply IH. assumption.
Qed.

(** C9. Started with the full window, the alpha-beta search returns the
    value of plain minimax without pruning, whatever the order in which the
    legal columns are explored: for [max_value] and [min_value] of P4.py
    under any order that lists the legal columns, in particular under
    [prioritize_moves], and for [minimax_ab] of P4v2.py while the deadline
    has not passed. *)
Theorem alpha_beta_is_minimax :
  (forall order : board -> list nat,
     (forall b, Permutation (order b) (get_valid_moves b)) ->
     forall b d,
       P4.max_value_with order b NegInf PosInf d = minimax b d true
       /\ P4.min_value_with order b NegInf PosInf d = minimax b d false)
  /\ (forall b d,
        P4.max_value b NegInf PosInf d = minimax b d true
        /\ P4.min_value b NegInf PosInf d = minimax b d false)
  /\ (forall b d maximizing k,
        fst (P4v2.minimax_ab (fun _ => false) b d NegInf PosInf maximizing k)
        = minimax_v2 b d maximizing).
Proof.
  split; [|split].
  - intros order Hperm b d. apply search_with_full_window. assumption.
  - intros b d. apply search_with_full_window. apply prioritize_moves_perm.
  - intros b d maximizing k. apply ab_ok_full. apply minimax_ab_ok. exact I.
Qed.

Lemma alpha_beta_is_minimax_witness :
  P4.max_value_with (fun b => rev (get_valid_moves b)) threat_board
    NegInf PosInf 1
  = minimax threat_board 1 true.
Proof.
  assert (Hperm : forall b,
            Permutation (rev (get_valid_moves b)) (get_valid_moves b))
    by (intros b; symmetry; apply Permutation_rev).
  exact (proj1 (proj1 alpha_beta_is_minimax
                  (fun b => rev (get_valid_moves b)) Hperm threat_board 1%nat)).
Defined.

(** ** The decision returns a legal column *)

Lemma random_choice_in (r : nat) (l : list nat) (c : nat) :
  random_choice r l = Some c -> In c l.
Proof.
  unfold random_choice. destruct l as [|x l]; [discriminate|].
  intros Hc. apply list_elem_of_In. eapply list_elem_of_lookup_2. exact Hc.
Qed.

Lemma random_choice_some (r : nat) (l : list nat) :
  l <> [] -> exists c, random_choice r l = Some c.
Proof.
  unfold random_choice. destruct l as [|x l]; [congruence|]. intros _.
  apply lookup_lt_is_Some_2. apply Nat.mod_upper_bound. simpl. lia.
Qed.

Lemma not_full_valid_move (b : board) :
  is_board_full b = false -> get_valid_moves b <> [].
Proof.
  intros Hfull Hnil.
  assert (Hex : exists col, In col (seq 0 COLS) /\ cell b 0 col = EMPTY).
  { unfold is_board_full in Hfull.
    induction (seq 0 COLS) as [|col l IH]; simpl in Hfull; [discriminate|].
    destruct (cell b 0 col =? EMPTY) eqn:He; simpl in Hfull.
    - exists col. split; [left; reflexivity | apply Z.eqb_eq; assumption].
    - destruct (IH Hfull) as (c & Hin & Hc). exists c. split;
        [right; assumption | assumption]. }
  destruct Hex as (col & Hin%in_seq & Hc).
  assert (Hv : In col (get_valid_moves b)).
  { apply get_valid_moves_spec, is_valid_move_spec. split; [lia|assumption]. }
  rewrite Hnil in Hv. destruct Hv.
Qed.

Lemma not_terminal_moves (b : board) :
  P4.Terminal_Test b = false -> P4.prioritize_moves b <> [].
Proof.
  unfold P4.Terminal_Test. intros Ht Hnil.
  apply orb_false_iff in Ht as [_ Hfull].
  apply (not_full_valid_move b Hfull).
  apply Permutation_nil. rewrite <- Hnil. apply prioritize_moves_perm.
Qed.

(** Values of the search that are numbers with a property [P] kept by
    [max] and [min], when the leaves have it. *)
Section SearchValues.

Variable P : Z -> Prop.
Hypothesis P_max : forall x y, P x -> P y -> P (Z.max x y).
Hypothesis P_min : forall x y, P x -> P y -> P (Z.min x y).
Hypothesis P_utility : forall b, P (P4.Utility b).
Hypothesis P_heuristic : forall b, P (P4.heuristic b).

Lemma max_loop_sat (child : board -> ext -> ext -> ext) (b : board)
    (cols : list nat) :
  (forall nb a be, fin_sat P (child nb a be)) ->
  forall v alpha beta, v = NegInf \/ fin_sat P v ->
    cols <> [] \/ fin_sat P v ->
    fin_sat P (P4.max_loop child b cols v alpha beta).
Proof.
  intros Hchild. induction cols as [|col rest IH]; intros v alpha beta Hv Hne.
  - simpl. destruct Hne as [Hne|Hfin]; [congruence | assumption].
  - simpl.
    destruct (Hchild (fst (drop_piece b col AI_PLAYER)) alpha beta)
      as (z & -> & Hz).
    assert (Hfin : fin_sat P (ext_max v (Fin z))).
    { rewrite ext_max_eq. destruct Hv as [->|(z' & -> & Hz')].
      - exists z. auto.
      - exists (Z.max z' z). auto. }
    destruct (ext_leb beta (ext_max v (Fin z))); [assumption|].
    apply IH; right; assumption.
Qed.

Lemma min_loop_sat (child : board -> ext -> ext -> ext) (b : board)
    (cols : list nat) :
  (forall nb a be, fin_sat P (child nb a be)) ->
  forall v alpha beta, v = PosInf \/ fin_sat P v ->
    cols <> [] \/ fin_sat P v ->
    fin_sat P (P4.min_loop child b cols v alpha beta).
Proof.
  intros Hchild. induction cols as [|col rest IH]; intros v alpha beta Hv Hne.
  - simpl. destruct Hne as [Hne|Hfin]; [congruence | assumption].
  - simpl.
    destruct (Hchild (fst (drop_piece b col HUMAN_PLAYER)) alpha beta)
      as (z & -> & Hz).
    assert (Hfin : fin_sat P (ext_min v (Fin z))).
    { rewrite ext_min_eq. destruct Hv as [->|(z' & -> & Hz')].
      - exists z. auto.
      - exists (Z.min z' z). auto. }
    destruct (ext_leb (ext_min v (Fin z)) alpha); [assumption|].
    apply IH; right; assumption.
Qed.

Lemma search_sat (d : nat) :
  forall b alpha beta,
    fin_sat P (P4.max_value b alpha beta d)
    /\ fin_sat P (P4.min_value b alpha beta d).
Proof.
  unfold P4.max_value, P4.min_value.
  induction d as [|d IH]; intros b alpha beta.
  - simpl. destruct (P4.Terminal_Test b); split; eexists; eauto.
  - cbn [P4.max_value_with P4.min_value_with].
    destruct (P4.Terminal_Test b) eqn:Ht; [split; eexists; eauto|].
    pose proof (not_terminal_moves b Ht) as Hne. split.
    + apply max_loop_sat; [|left; reflexivity|left; assumption].
      intros nb a be. apply IH.
    + apply min_loop_sat; [|left; reflexivity|left; assumption].
      intros nb a be. apply IH.
Qed.

End SearchValues.

Lemma search_fin (d : nat) (b : board) (alpha beta : ext) :
  is_fin (P4.max_value b alpha beta d) /\ is_fin (P4.min_value b alpha beta d).
Proof.
  destruct (search_sat (fun _ => True) (fun _ _ _ _ => I) (fun _ _ _ _ => I)
              (fun _ => I) (fun _ => I) d b alpha beta)
    as [(z1 & H1 & _) (z2 & H2 & _)].
  split; eexists; eassumption.
Qed.

Lemma decision_loop_in (md : nat) (expired : nat -> bool) (b : board)
    (moves : list nat) :
  forall k bv bm c,
    P4.decision_loop md expired b moves k bv bm = Some c ->
    In c moves \/ bm = Some c.
Proof.
  induction moves as [|col rest IH]; intros k bv bm c; simpl.
  - intros ->. right. reflexivity.
  - destruct (ext_ltb bv _); destruct (expired k); intros Hres;
      try (injection Hres as <-; tauto);
      try (right; assumption);
      apply IH in Hres as [Hin|Hbm]; try tauto;
      injection Hbm as <-; tauto.
Qed.

Lemma decision_loop_keeps (md : nat) (expired : nat -> bool) (b : board)
    (moves : list nat) :
  forall k bv c0, exists c,
    P4.decision_loop md expired b moves k bv (Some c0) = Some c.
Proof.
  induction moves as [|col rest IH]; intros k bv c0; simpl.
  - eexists. reflexivity.
  - destruct (ext_ltb bv _); destruct (expired k); try (eexists; reflexivity);
      apply IH.
Qed.

Lemma decision_loop_first (md : nat) (expired : nat -> bool) (b : board)
    (moves : list nat) :
  moves <> [] ->
  exists c, P4.decision_loop md expired b moves 0 NegInf None = Some c.
Proof.
  destruct moves as [|col rest]; [congruence|]. intros _. simpl.
  destruct (proj2 (search_fin (md - 1) (fst (drop_piece b col AI_PLAYER))
                     NegInf PosInf)) as [z ->].
  simpl. destruct (expired 0%nat); [eexists; reflexivity|].
  apply decision_loop_keeps.
Qed.

Lemma decision_loop_v2_in (expired : nat -> bool) (bd : nat) (b : board)
    (moves : list nat) :
  forall bs bm k,
    In (fst (P4v2.decision_loop expired bd b moves bs bm k)) moves
    \/ fst (P4v2.decision_loop expired bd b moves bs bm k) = bm.
Proof.
  induction moves as [|col rest IH]; intros bs bm k; simpl.
  - right. reflexivity.
  - unfold P4v2.bind.
    destruct (P4v2.minimax_ab expired _ bd NegInf PosInf false k)
      as [score k1].
    unfold P4v2.time_exceeded.
    destruct (ext_ltb bs score); destruct (expired k1); simpl;
      try tauto;
      match goal with
      | |- context [P4v2.decision_loop _ _ _ _ ?s ?m ?k'] =>
          destruct (IH s m k') as [Hin|Heq]; [tauto | rewrite Heq; tauto]
      end.
Qed.

(** C1. Whatever the clock and the random draw, on a board with a legal
    move [IA_Decision] (P4.py with any depth constant from 1 on, P4v2.py with
    any depth constant) returns a legal column: one whose top cell is empty
    and whose index is below [COLS]. The loop of P4.py scores its first
    column before it looks at the clock, so its fallback [random.choice] is
    not reached then; that fallback, and the initial [random.choice] of
    P4v2.py, return a legal column too. Without a legal move the decision
    fails. *)
Theorem IA_Decision_legal (depth : nat) (expired : nat -> bool) (r : nat)
    (b : board) :
  (get_valid_moves b <> [] ->
     (exists col, P4.IA_Decision_at (S depth) expired r b = Some col
        /\ is_valid_move b col = true /\ (col < COLS)%nat
        /\ cell b 0 col = EMPTY)
     /\ (exists col, P4v2.IA_Decision_at expired depth r b = Some col
        /\ is_valid_move b col = true /\ (col < COLS)%nat
        /\ cell b 0 col = EMPTY)
     /\ (exists col, random_choice r (get_valid_moves b) = Some col
        /\ is_valid_move b col = true)
     /\ P4.decision_loop (S depth) expired b (P4.prioritize_moves b) 0 NegInf
          None <> None)
  /\ (get_valid_moves b = [] ->
       P4.IA_Decision_at (S depth) expired r b = None
       /\ P4v2.IA_Decision_at expired depth r b = None).
Proof.
  split.
  - intros Hne.
    assert (Hmoves : P4.prioritize_moves b <> []).
    { intros Hnil. apply Hne. apply Permutation_nil. rewrite <- Hnil.
      apply prioritize_moves_perm. }
    destruct (decision_loop_first (S depth) expired b _ Hmoves) as [c Hc].
    destruct (random_choice_some r _ Hne) as [c0 Hc0].
    pose proof (random_choice_in _ _ _ Hc0) as Hin0.
    split; [|split; [|split]].
    + exists c. unfold P4.IA_Decision_at. rewrite Hc.
      apply decision_loop_in in Hc as [Hin|Hbm]; [|discriminate].
      assert (Hv : is_valid_move b c = true).
      { apply get_valid_moves_spec, list_elem_of_In.
        rewrite <- (prioritize_moves_perm b). apply list_elem_of_In.
        assumption. }
      pose proof Hv as [Hcol Htop]%is_valid_move_spec. auto.
    + unfold P4v2.IA_Decision_at. rewrite Hc0. eexists. split; [reflexivity|].
      assert (Hv : is_valid_move b
                (fst (P4v2.decision_loop expired depth b (get_valid_moves b)
                        NegInf c0 0%nat)) = true).
      { apply get_valid_moves_spec.
        destruct (decision_loop_v2_in expired depth b (get_valid_moves b)
                    NegInf c0 0%nat) as [Hin| ->]; assumption. }
      pose proof Hv as [Hcol Htop]%is_valid_move_spec. auto.
    + exists c0. split; [assumption|].
      apply get_valid_moves_spec. assumption.
    + rewrite Hc. discriminate.
  - intros Hnil.
    assert (Hmoves : P4.prioritize_moves b = []).
    { apply Permutation_nil. rewrite <- Hnil. symmetry.
      apply prioritize_moves_perm. }
    unfold P4.IA_Decision_at, P4v2.IA_Decision_at.
    rewrite Hmoves, Hnil. split; reflexivity.
Qed.

Lemma IA_Decision_legal_witness :
  exists col, P4.IA_Decision_at 1 (fun _ => true) 0 empty_board = Some col
    /\ is_valid_move empty_board col = true /\ (col < COLS)%nat
    /\ cell empty_board 0 col = EMPTY.
Proof.
  apply (proj1 (IA_Decision_legal 0 (fun _ => true) 0 empty_board)).
  vm_compute. discriminate.
Defined.

(** ** The heuristic of P4.py *)

Lemma heuristic_fold (lines : list (list Z)) (s : Z) :
  fold_left P4.add_line lines s
  = s + sum_Z (map (fun l => P4.count_sequence l AI_PLAYER) lines)
      - sum_Z (map (fun l => P4.count_sequence l HUMAN_PLAYER) lines).
Proof.
  revert s. induction lines as [|l lines IH]; intros s; simpl; [lia|].
  rewrite IH. unfold P4.add_line. lia.
Qed.

(** A 4-cell line that holds a piece of the other side scores 0 for
    [player]: no run of it has four cells. *)
Lemma count_sequence_dead (a b c d p : Z) :
  has_other p [a; b; c; d] = true -> P4.count_sequence [a; b; c; d] p = 0.
Proof.
  unfold has_other, P4.count_sequence. cbn [P4.count_sequence_loop existsb].
  destruct (a =? p), (a =? EMPTY), (b =? p), (b =? EMPTY), (c =? p),
    (c =? EMPTY), (d =? p), (d =? EMPTY); cbn; intros H;
    try discriminate; reflexivity.
Qed.

Lemma has_other_in (p q : Z) (line : list Z) :
  q <> p -> q <> EMPTY -> In q line -> has_other p line = true.
Proof.
  intros Hp He Hin. apply existsb_exists. exists q. split; [assumption|].
  apply andb_true_iff. split; apply negb_true_iff, Z.eqb_neq; assumption.
Qed.

Lemma evaluate_lines_fold (player : Z) (lines : list (list Z)) (s : Z) :
  fold_left (fun score line => score + P4v2.evaluate_line line player) lines s
  = s + sum_Z (map (fun l => P4v2.evaluate_line l player) lines).
Proof.
  revert s. induction lines as [|l lines IH]; intros s; simpl; [lia|].
  rewrite IH. lia.
Qed.

Lemma evaluate_line_nonneg (line : list Z) (player : Z) :
  0 <= P4v2.evaluate_line line player.
Proof.
  unfold P4v2.evaluate_line.
  repeat match goal with
         | |- context [if ?c then _ else _] => destruct c
         end; lia.
Qed.

Lemma count_in (x : Z) (line : list Z) : In x line -> 0 < P4v2.count x line.
Proof.
  unfold P4v2.count. induction line as [|y line IH]; intros Hin;
    [destruct Hin|]. simpl.
  destruct (Z.eqb_spec y x) as [Heq|Hne]; simpl; [lia|].
  destruct Hin as [Hin|Hin]; [contradiction | apply IH; assumption].
Qed.

(** C3. What [heuristic] of P4.py computes: the sum over the 4-cell lines
    of [count_sequence] for the engine minus the sum of [count_sequence] for
    the opponent, and a line that holds pieces of both sides counts 0 for
    both (as in [evaluate_line] of P4v2.py, whose scores are never negative
    and are subtracted for the opponent). But [count_sequence] itself counts
    the opponent's three-with-a-gap as [-1000], and [heuristic] subtracts
    that: on the board with the opponent on row 5, columns 0 to 2, the line
    of columns 0 to 3 adds [+1000] and the total is 983; after the engine
    blocks in column 3 it is -2. *)
Theorem heuristic_opponent_threat_sign :
  (forall b,
     P4.heuristic b
     = sum_Z (map (fun l => P4.count_sequence l AI_PLAYER) (board_lines b))
       - sum_Z (map (fun l => P4.count_sequence l HUMAN_PLAYER)
                  (board_lines b)))
  /\ (forall a b c d,
        In AI_PLAYER [a; b; c; d] -> In HUMAN_PLAYER [a; b; c; d] ->
        P4.count_sequence [a; b; c; d] AI_PLAYER = 0
        /\ P4.count_sequence [a; b; c; d] HUMAN_PLAYER = 0
        /\ P4v2.evaluate_line [a; b; c; d] AI_PLAYER = 0
        /\ P4v2.evaluate_line [a; b; c; d] HUMAN_PLAYER = 0)
  /\ (forall b,
        P4v2.evaluate_position b
        = sum_Z (map (fun l => P4v2.evaluate_line l AI_PLAYER) (board_lines b))
          - sum_Z (map (fun l => P4v2.evaluate_line l HUMAN_PLAYER)
                     (board_lines b)))
  /\ (forall line player, 0 <= P4v2.evaluate_line line player)
  /\ P4.count_sequence [HUMAN_PLAYER; HUMAN_PLAYER; HUMAN_PLAYER; EMPTY]
       HUMAN_PLAYER = -1000
  /\ P4.add_line 0 [HUMAN_PLAYER; HUMAN_PLAYER; HUMAN_PLAYER; EMPTY] = 1000
  /\ line_h threat_board 5 0
     = [HUMAN_PLAYER; HUMAN_PLAYER; HUMAN_PLAYER; EMPTY]
  /\ P4.heuristic threat_board = 983
  /\ P4.heuristic (fst (drop_piece threat_board 3 AI_PLAYER)) = -2.
Proof.
  split; [|split; [|split; [|split]]].
  - intros b. unfold P4.heuristic. rewrite heuristic_fold. lia.
  - intros a b c d Ha Hh.
    split; [|split; [|split]].
    + apply count_sequence_dead.
      apply (has_other_in _ HUMAN_PLAYER); [discriminate..|assumption].
    + apply count_sequence_dead.
      apply (has_other_in _ AI_PLAYER); [discriminate..|assumption].
    + unfold P4v2.evaluate_line.
      change (- AI_PLAYER) with HUMAN_PLAYER.
      rewrite (proj2 (Z.ltb_lt _ _) (count_in _ _ Ha)),
        (proj2 (Z.ltb_lt _ _) (count_in _ _ Hh)). reflexivity.
    + unfold P4v2.evaluate_line.
      change (- HUMAN_PLAYER) with AI_PLAYER.
      rewrite (proj2 (Z.ltb_lt _ _) (count_in _ _ Ha)),
        (proj2 (Z.ltb_lt _ _) (count_in _ _ Hh)). reflexivity.
  - intros b. unfold P4v2.evaluate_position, P4v2.evaluate_lines.
    rewrite !evaluate_lines_fold. lia.
  - apply evaluate_line_nonneg.
  - repeat split; reflexivity.
Qed.

Ltac eval_run_scores :=
  repeat match goal with
         | |- context [P4.run_score ?p ?c ?e] =>
             let v := eval vm_compute in (P4.run_score p c e) in
             change (P4.run_score p c e) with v
         end.

Lemma count_sequence_engine_range (a b c d : Z) :
  0 <= P4.count_sequence [a; b; c; d] AI_PLAYER <= 1000.
Proof.
  unfold P4.count_sequence. cbn [P4.count_sequence_loop].
  destruct (a =? AI_PLAYER), (a =? EMPTY), (b =? AI_PLAYER), (b =? EMPTY),
    (c =? AI_PLAYER), (c =? EMPTY), (d =? AI_PLAYER), (d =? EMPTY);
    eval_run_scores; lia.
Qed.

Lemma count_sequence_opponent_range (a b c d : Z) :
  -1000 <= P4.count_sequence [a; b; c; d] HUMAN_PLAYER <= 10.
Proof.
  unfold P4.count_sequence. cbn [P4.count_sequence_loop].
  destruct (a =? HUMAN_PLAYER), (a =? EMPTY), (b =? HUMAN_PLAYER),
    (b =? EMPTY), (c =? HUMAN_PLAYER), (c =? EMPTY), (d =? HUMAN_PLAYER),
    (d =? EMPTY); eval_run_scores; lia.
Qed.

Lemma board_lines_four (b : board) (l : list Z) :
  In l (board_lines b) -> exists x y z t, l = [x; y; z; t].
Proof.
  unfold board_lines. rewrite !in_app_iff, !in_flat_map.
  intros [H|[H|[H|H]]]; destruct H as (i & _ & (j & <- & _)%in_map_iff);
    unfold line_h, line_v, line_d, line_u; simpl; eauto.
Qed.

Lemma sum_Z_range (f : list Z -> Z) (lo hi : Z) (lines : list (list Z)) :
  (forall l, In l lines -> lo <= f l <= hi) ->
  lo * Z.of_nat (length lines) <= sum_Z (map f lines)
  <= hi * Z.of_nat (length lines).
Proof.
  induction lines as [|l lines IH]; intros Hf; [simpl; lia|].
  specialize (IH (fun l' Hl' => Hf l' (or_intror Hl'))).
  specialize (Hf l (or_introl eq_refl)).
  change (sum_Z (map f (l :: lines))) with (f l + sum_Z (map f lines)).
  change (length (l :: lines)) with (S (length lines)). lia.
Qed.

(** The heuristic of P4.py never falls to the value of a lost game. *)
Lemma heuristic_range (b : board) : -1440 <= P4.heuristic b <= 288000.
Proof.
  unfold P4.heuristic. rewrite heuristic_fold.
  assert (Hlen : length (board_lines b) = 144%nat) by reflexivity.
  pose proof (sum_Z_range (fun l => P4.count_sequence l AI_PLAYER) 0 1000
                (board_lines b)) as Ha.
  pose proof (sum_Z_range (fun l => P4.count_sequence l HUMAN_PLAYER) (-1000)
                10 (board_lines b)) as Hh.
  rewrite Hlen in Ha, Hh.
  assert (Ha' : forall l, In l (board_lines b) ->
                  0 <= P4.count_sequence l AI_PLAYER <= 1000).
  { intros l (x & y & z & t & ->)%board_lines_four.
    apply count_sequence_engine_range. }
  assert (Hh' : forall l, In l (board_lines b) ->
                  -1000 <= P4.count_sequence l HUMAN_PLAYER <= 10).
  { intros l (x & y & z & t & ->)%board_lines_four.
    apply count_sequence_opponent_range. }
  specialize (Ha Ha'). specialize (Hh Hh'). lia.
Qed.

(** C4. The terminal value 10000 of P4.py does not dominate the heuristic.
    [crowded_board] is reached by alternating legal play, nobody has four in
    a row on it and it is not full, yet [heuristic] gives 10921: eight open
    threes of the engine on the bottom row and three in columns 2, 6 and 10,
    at 1000 each. No line of that board holds three pieces of the opponent,
    so the sign of the opponent's threes plays no part in the total. *)
Theorem heuristic_exceeds_terminal_value :
  play crowded_moves AI_PLAYER empty_board = Some crowded_board
  /\ reachable crowded_board
  /\ board_shape crowded_board = true
  /\ gravity crowded_board = true
  /\ P4.Terminal_Test crowded_board = false
  /\ P4.heuristic crowded_board = 10921
  /\ ~ Z.abs (P4.heuristic crowded_board) < 10000
  /\ forallb (fun l => 0 <=? P4.count_sequence l HUMAN_PLAYER)
       (board_lines crowded_board) = true.
Proof.
  assert (Hplay : play crowded_moves AI_PLAYER empty_board
                  = Some crowded_board) by (vm_compute; reflexivity).
  split; [exact Hplay|].
  split; [exists crowded_moves, AI_PLAYER; split; [reflexivity|exact Hplay]|].
  assert (Hh : P4.heuristic crowded_board = 10921) by (vm_compute; reflexivity).
  repeat split; try (vm_compute; reflexivity); try exact Hh.
  rewrite Hh. lia.
Qed.

(** ** The blocking scenario *)

(** C2. With depth constant 1 the search of P4.py on the blocking scenario
    scores each column by [heuristic] after the engine's move. The
    opponent's open three is worth [+1000] to the engine as long as it
    stays open (see C3), so every column but 3 scores about 990 and column
    3 scores -2: [IA_Decision] returns column 4, not the blocking
    column 3. *)
Theorem IA_Decision_depth_1_does_not_block (r : nat) :
  P4.IA_Decision_at 1 (fun _ => false) r threat_board = Some 4%nat
  /\ P4.IA_Decision_at 1 (fun _ => false) r threat_board <> Some 3%nat
  /\ map (fun col =>
            P4.min_value (fst (drop_piece threat_board col AI_PLAYER))
              NegInf PosInf 0)
       (P4.prioritize_moves threat_board)
     = [Fin (-2); Fin 990; Fin 990; Fin 999; Fin 990; Fin 990; Fin 987;
        Fin 989; Fin 991; Fin 988; Fin 987; Fin 986].
Proof.
  assert (H : P4.IA_Decision_at 1 (fun _ => false) r threat_board
              = Some 4%nat) by (vm_compute; reflexivity).
  split; [exact H|]. split; [rewrite H; discriminate|].
  vm_compute. reflexivity.
Qed.

(** From depth constant 2 on, the search of P4.py does block: every other
    column lets the opponent complete the row at once, which is scored
    -10000, and no value of the search is below that. *)

Lemma search_floor (d : nat) (b : board) (alpha beta : ext) :
  fin_sat (fun z => -10000 <= z) (P4.max_value b alpha beta d)
  /\ fin_sat (fun z => -10000 <= z) (P4.min_value b alpha beta d).
Proof.
  apply search_sat.
  - intros x y Hx Hy. lia.
  - intros x y Hx Hy. lia.
  - intros b'. unfold P4.Utility.
    destruct (P4.check_win b' AI_PLAYER); [lia|].
    destruct (P4.check_win b' HUMAN_PLAYER); lia.
  - intros b'. pose proof (heuristic_range b'). lia.
Qed.

Lemma min_loop_floor (child : board -> ext -> ext -> ext) (b : board)
    (cols : list nat) :
  (forall nb a be, fin_sat (fun z => -10000 <= z) (child nb a be)) ->
  forall beta, P4.min_loop child b cols (Fin (-10000)) NegInf beta
               = Fin (-10000).
Proof.
  intros Hchild. induction cols as [|col rest IH]; intros beta;
    [reflexivity|].
  simpl.
  destruct (Hchild (fst (drop_piece b col HUMAN_PLAYER)) NegInf beta)
    as (z & -> & Hz).
  rewrite !ext_min_eq. rewrite Z.min_l by lia. simpl. apply IH.
Qed.

Lemma max_value_terminal (order : board -> list nat) (b : board)
    (alpha beta : ext) (d : nat) :
  P4.Terminal_Test b = true ->
  P4.max_value_with order b alpha beta d = Fin (P4.Utility b).
Proof. intros Ht. destruct d; simpl; rewrite Ht; reflexivity. Qed.

Lemma min_value_lost (b : board) (d : nat) :
  loses_at_once b = true ->
  P4.min_value b NegInf PosInf (S d) = Fin (-10000).
Proof.
  unfold loses_at_once. intros [Ht Hfirst]%andb_true_iff.
  apply negb_true_iff in Ht.
  unfold P4.min_value. cbn [P4.min_value_with]. rewrite Ht.
  destruct (P4.prioritize_moves b) as [|col rest]; [discriminate|].
  apply andb_true_iff in Hfirst as [Hwin Hu%Z.eqb_eq].
  cbn [P4.min_loop]. rewrite max_value_terminal by assumption. rewrite Hu.
  rewrite !ext_min_eq. cbn [ext_leb].
  apply min_loop_floor. intros nb a be.
  apply (search_floor d nb a be).
Qed.

Lemma decision_loop_stays (md : nat) (b : board) (moves : list nat) :
  (forall c, In c moves ->
     P4.min_value (fst (drop_piece b c AI_PLAYER)) NegInf PosInf (md - 1)
     = Fin (-10000)) ->
  forall k z m, -10000 <= z ->
    P4.decision_loop md (fun _ => false) b moves k (Fin z) (Some m) = Some m.
Proof.
  induction moves as [|c rest IH]; intros Hlost k z m Hz; [reflexivity|].
  simpl. rewrite (Hlost c (or_introl eq_refl)).
  replace (ext_ltb (Fin z) (Fin (-10000))) with false
    by (symmetry; apply ext_ltb_false; simpl; lia).
  apply IH; [|assumption]. intros c' Hc'. apply Hlost. right. assumption.
Qed.

Lemma decision_first_column (md : nat) (r : nat) (b : board) (c0 : nat)
    (rest : list nat) :
  P4.prioritize_moves b = c0 :: rest ->
  (forall c, In c rest ->
     P4.min_value (fst (drop_piece b c AI_PLAYER)) NegInf PosInf (md - 1)
     = Fin (-10000)) ->
  P4.IA_Decision_at md (fun _ => false) r b = Some c0.
Proof.
  intros Hmoves Hlost. unfold P4.IA_Decision_at. rewrite Hmoves. simpl.
  destruct (search_floor (md - 1) (fst (drop_piece b c0 AI_PLAYER))
              NegInf PosInf) as [_ (z & -> & Hz)].
  simpl. rewrite decision_loop_stays by assumption. reflexivity.
Qed.

Lemma IA_Decision_blocks_from_depth_2 (d r : nat) :
  P4.IA_Decision_at (S (S d)) (fun _ => false) r threat_board = Some 3%nat.
Proof.
  apply (decision_first_column _ _ _ 3%nat
           [5; 6; 4; 7; 8; 0; 1; 2; 9; 10; 11]%nat).
  - vm_compute. reflexivity.
  - intros c Hc. change (S (S d) - 1)%nat with (S d).
    apply min_value_lost.
    assert (Hall : forallb (fun c =>
                      loses_at_once (fst (drop_piece threat_board c AI_PLAYER)))
                     [5; 6; 4; 7; 8; 0; 1; 2; 9; 10; 11]%nat = true)
      by (vm_compute; reflexivity).
    rewrite forallb_forall in Hall. apply Hall. assumption.
Qed.

(** P4v2.py blocks at its depth constant 3 and at the shallower depths. *)
Lemma IA_Decision_v2_blocks_shallow (r : nat) :
  P4v2.IA_Decision_at (fun _ => false) 1 r threat_board = Some 3%nat
  /\ P4v2.IA_Decision_at (fun _ => false) 2 r threat_board = Some 3%nat
  /\ P4v2.IA_Decision (fun _ => false) r threat_board = Some 3%nat.
Proof.
  assert (Hpick : exists c, random_choice r (get_valid_moves threat_board)
                            = Some c).
  { apply random_choice_some. vm_compute. discriminate. }
  destruct Hpick as [c Hc].
  unfold P4v2.IA_Decision, P4v2.IA_Decision_at. rewrite Hc.
  split; [|split]; vm_compute; reflexivity.
Qed.

(** * Further properties of the code *)

(** ** Legal moves *)

Lemma filter_seq_sorted (p : nat -> bool) (n a : nat) :
  StronglySorted lt (List.filter p (seq a n)).
Proof.
  revert a. induction n as [|n IH]; intros a; simpl; [constructor|].
  destruct (p a); [|apply IH]. constructor; [apply IH|].
  apply List.Forall_forall. intros x [Hx%in_seq _]%filter_In. lia.
Qed.

(** X1. [get_valid_moves(board)] lists exactly the columns of the grid whose
    top cell is empty, in strictly ascending order. *)
Theorem get_valid_moves_ascending (b : board) :
  (forall col, In col (get_valid_moves b) <->
               (col < COLS)%nat /\ cell b 0 col = EMPTY)
  /\ StronglySorted lt (get_valid_moves b).
Proof.
  split.
  - intros col. rewrite get_valid_moves_spec. apply is_valid_move_spec.
  - apply filter_seq_sorted.
Qed.

(** X2. The board is full, for [is_board_full], exactly when
    [get_valid_moves] is empty; so on a board that is not full
    [random.choice(get_valid_moves(board))] has something to choose from. *)
Theorem is_board_full_no_valid_move (b : board) :
  (is_board_full b = true <-> get_valid_moves b = [])
  /\ (is_board_full b = false <->
      exists col, is_valid_move b col = true).
Proof.
  assert (Hfull : is_board_full b = true -> get_valid_moves b = []).
  { intros Hf. rewrite is_board_full_spec in Hf.
    destruct (get_valid_moves b) as [|col l] eqn:Hl; [reflexivity|].
    assert (Hin : In col (get_valid_moves b)) by (rewrite Hl; left; auto).
    apply get_valid_moves_spec, is_valid_move_spec in Hin as [Hcol He].
    exfalso. exact (Hf col Hcol He). }
  split; [split; [exact Hfull|]|split].
  - intros Hnil. destruct (is_board_full b) eqn:Hf; [reflexivity|].
    exfalso. exact (not_full_valid_move b Hf Hnil).
  - intros Hf. pose proof (not_full_valid_move b Hf) as Hne.
    destruct (get_valid_moves b) as [|col l] eqn:Hl; [congruence|].
    exists col. apply get_valid_moves_spec. rewrite Hl. left. reflexivity.
  - intros [col Hv]. destruct (is_board_full b) eqn:Hf; [|reflexivity].
    apply get_valid_moves_spec in Hv. rewrite (Hfull eq_refl) in Hv.
    destruct Hv.
Qed.

(** ** What a move changes *)

Lemma cell_set_cell_cases (b : board) (row col : nat) (q : Z) :
  cell (set_cell b row col q) row col = q
  \/ cell (set_cell b row col q) row col = cell b row col.
Proof.
  unfold set_cell, cell.
  destruct (b !! row) as [r|] eqn:Hr; [|right; rewrite Hr; reflexivity].
  rewrite list_lookup_insert_eq by (eapply lookup_lt_Some; eauto).
  simpl.
  destruct (decide (col < length r)%nat) as [Hlt|Hge].
  - left. rewrite list_lookup_insert_eq by assumption. reflexivity.
  - right. rewrite list_insert_ge by lia. reflexivity.
Qed.

(** Cell by cell: a move leaves a cell as it was, or fills an empty cell of
    its column with the player. *)
Lemma drop_piece_cells (b : board) (col : nat) (q : Z) (r c : nat) :
  cell (fst (drop_piece b col q)) r c = cell b r c
  \/ (cell b r c = EMPTY /\ cell (fst (drop_piece b col q)) r c = q
      /\ c = col).
Proof.
  destruct (drop_piece_result b col q)
    as [(row & _ & -> & He & _)|[-> _]]; simpl; [|left; reflexivity].
  destruct (decide ((row, col) = (r, c))) as [[= <- <-]|Hne].
  - destruct (cell_set_cell_cases b row col q) as [Hq|Hsame]; [|auto].
    right. auto.
  - left. apply cell_set_cell_ne. assumption.
Qed.

Lemma drop_piece_keeps (b : board) (col : nat) (q : Z) (r c : nat) :
  cell b r c <> EMPTY -> cell (fst (drop_piece b col q)) r c = cell b r c.
Proof.
  intros Hocc. destruct (drop_piece_cells b col q r c) as [H|(He & _)];
    [assumption | contradiction].
Qed.

Lemma grid_spec (r c : nat) :
  In (r, c) grid <-> (r < ROWS)%nat /\ (c < COLS)%nat.
Proof.
  unfold grid. rewrite in_flat_map. split.
  - intros (row & Hrow%in_seq & (col & [= <- <-] & Hcol%in_seq)%in_map_iff).
    lia.
  - intros [Hr Hc]. exists r. split; [apply in_seq; lia|].
    apply in_map_iff. exists c. split; [reflexivity | apply in_seq; lia].
Qed.

Lemma grid_NoDup : List.NoDup grid.
Proof.
  apply NoDup_ListNoDup. refine (bool_decide_unpack _ _). vm_compute.
  exact I.
Qed.

Lemma count_same (g g' : nat * nat -> bool) (l : list (nat * nat)) :
  (forall x, In x l -> g' x = g x) ->
  length (List.filter g' l) = length (List.filter g l).
Proof.
  induction l as [|x l IH]; intros Hg; [reflexivity|]. simpl.
  rewrite (Hg x (or_introl eq_refl)).
  specialize (IH (fun y Hy => Hg y (or_intror Hy))).
  destruct (g x); simpl; rewrite IH; reflexivity.
Qed.

Lemma count_one_more (g g' : nat * nat -> bool) (l : list (nat * nat))
    (x0 : nat * nat) :
  List.NoDup l -> In x0 l -> (forall x, x <> x0 -> g' x = g x) ->
  g x0 = false -> g' x0 = true ->
  length (List.filter g' l) = S (length (List.filter g l)).
Proof.
  intros Hnd Hin Hother Hold Hnew.
  induction l as [|x l IH]; [destruct Hin|].
  apply List.NoDup_cons_iff in Hnd as [Hnotin Hnd]. simpl.
  destruct Hin as [->|Hin].
  - rewrite Hold, Hnew. simpl. f_equal. apply count_same.
    intros y Hy. apply Hother. intros ->. contradiction.
  - rewrite (Hother x) by (intros ->; contradiction).
    specialize (IH Hnd Hin). destruct (g x); simpl; rewrite IH; reflexivity.
Qed.

Lemma drop_piece_counts (b : board) (col : nat) (player : Z) :
  board_shape b = true -> is_player player = true ->
  is_valid_move b col = true ->
  pieces (fst (drop_piece b col player)) = S (pieces b)
  /\ pieces_of player (fst (drop_piece b col player))
     = S (pieces_of player b)
  /\ pieces_of (- player) (fst (drop_piece b col player))
     = pieces_of (- player) b.
Proof.
  intros Hs Hp Hv.
  destruct (drop_piece_valid b col player Hv)
    as (row & Hrow & Hdrop & Hempty & _).
  pose proof Hv as [Hcol _]%is_valid_move_spec.
  pose proof (is_player_not_empty _ Hp) as Hne.
  rewrite Hdrop. simpl.
  assert (Hset : cell (set_cell b row col player) row col = player)
    by (apply cell_set_cell_eq; assumption).
  assert (Hin : In (row, col) grid) by (apply grid_spec; auto).
  unfold pieces, pieces_of, count_cells. split; [|split].
  - apply (count_one_more _ _ _ (row, col) grid_NoDup Hin).
    + intros [r c] Hrc. simpl. rewrite cell_set_cell_ne by congruence.
      reflexivity.
    + simpl. rewrite Hempty. reflexivity.
    + simpl. rewrite Hset. apply negb_true_iff, Z.eqb_neq. assumption.
  - apply (count_one_more _ _ _ (row, col) grid_NoDup Hin).
    + intros [r c] Hrc. simpl. rewrite cell_set_cell_ne by congruence.
      reflexivity.
    + simpl. rewrite Hempty. apply Z.eqb_neq. unfold EMPTY in *. lia.
    + simpl. rewrite Hset. apply Z.eqb_refl.
  - apply count_same. intros [r c] _. simpl.
    destruct (decide ((row, col) = (r, c))) as [[= <- <-]|Hrc].
    + rewrite Hset, Hempty.
      apply is_player_spec in Hp as [->| ->]; reflexivity.
    + rewrite cell_set_cell_ne by assumption. reflexivity.
Qed.

(** X3. A move never touches an occupied cell. On a board of the fixed
    shape a legal move of a player adds exactly one piece, of that player:
    the number of pieces and the number of the mover's pieces grow by one,
    the number of the other side's pieces stays. *)
Theorem drop_piece_adds_one_piece (b : board) (col : nat) (player : Z) :
  (forall r c, cell b r c <> EMPTY ->
     cell (fst (drop_piece b col player)) r c = cell b r c)
  /\ (board_shape b = true -> is_player player = true ->
      is_valid_move b col = true ->
      pieces (fst (drop_piece b col player)) = S (pieces b)
      /\ pieces_of player (fst (drop_piece b col player))
         = S (pieces_of player b)
      /\ pieces_of (- player) (fst (drop_piece b col player))
         = pieces_of (- player) b).
Proof.
  split; [intros r c; apply drop_piece_keeps | apply drop_piece_counts].
Qed.

Lemma drop_piece_adds_one_piece_witness :
  pieces (fst (drop_piece threat_board 3 AI_PLAYER)) = S (pieces threat_board)
  /\ pieces_of AI_PLAYER (fst (drop_piece threat_board 3 AI_PLAYER))
     = S (pieces_of AI_PLAYER threat_board)
  /\ pieces_of (- AI_PLAYER) (fst (drop_piece threat_board 3 AI_PLAYER))
     = pieces_of (- AI_PLAYER) threat_board.
Proof.
  apply (proj2 (drop_piece_adds_one_piece threat_board 3 AI_PLAYER));
    reflexivity.
Defined.

(** ** Wins and moves *)

Lemma has_four_transfer (b b' : board) (p : Z) :
  (forall r c, cell b r c = p -> cell b' r c = p) ->
  has_four b p -> has_four b' p.
Proof.
  intros Hcells (d & r0 & c0 & Hrun). exists d, r0, c0.
  intros i Hi. destruct (Hrun i Hi) as (Hup & Hgrid & Hc).
  repeat split; try assumption; try apply Hgrid. apply Hcells. assumption.
Qed.

Lemma check_win_transfer (b b' : board) (p : Z) :
  (forall r c, cell b r c = p -> cell b' r c = p) ->
  P4.check_win b p = true -> P4.check_win b' p = true.
Proof.
  intros Hcells Hwin. apply check_win_has_four.
  apply (has_four_transfer b b' p Hcells). apply check_win_has_four.
  assumption.
Qed.

Lemma check_win_other_side (b : board) (col : nat) (player q : Z) :
  player <> EMPTY -> q <> player ->
  P4.check_win (fst (drop_piece b col q)) player = P4.check_win b player.
Proof.
  intros Hp Hq. apply eq_true_iff_eq. split.
  - apply check_win_transfer. intros r c Hc.
    destruct (drop_piece_cells b col q r c) as [Hsame|(_ & Hnew & _)];
      congruence.
  - apply check_win_transfer. intros r c Hc.
    rewrite drop_piece_keeps; [assumption | congruence].
Qed.

(** X4. Four in a row is never lost by a later move, and a move of one side
    never gives the other side four in a row: [check_win] for [player] is
    the same before and after a piece of another value is dropped. *)
Theorem check_win_after_move (b : board) (col : nat) (player q : Z) :
  player <> EMPTY ->
  (P4.check_win b player = true ->
   P4.check_win (fst (drop_piece b col q)) player = true)
  /\ (q <> player ->
      P4.check_win (fst (drop_piece b col q)) player = P4.check_win b player
      /\ P4v2.check_win (fst (drop_piece b col q)) player
         = P4v2.check_win b player).
Proof.
  intros Hp.
  assert (Hfwd : P4.check_win b player = true ->
                 P4.check_win (fst (drop_piece b col q)) player = true).
  { apply check_win_transfer. intros r c Hc.
    rewrite drop_piece_keeps; [assumption | congruence]. }
  split; [exact Hfwd|]. intros Hq.
  assert (Heq : P4.check_win (fst (drop_piece b col q)) player
                = P4.check_win b player).
  { apply eq_true_iff_eq. split; [|exact Hfwd].
    apply check_win_transfer. intros r c Hc.
    destruct (drop_piece_cells b col q r c) as [Hsame|(_ & Hnew & _)];
      congruence. }
  split; [exact Heq|]. rewrite !check_win_v2. exact Heq.
Qed.

Lemma check_win_after_move_witness :
  P4.check_win (fst (drop_piece threat_board 3 HUMAN_PLAYER)) HUMAN_PLAYER
  = true
  /\ drop_piece (fst (drop_piece threat_board 3 HUMAN_PLAYER)) 4 AI_PLAYER
     = (set_cell (fst (drop_piece threat_board 3 HUMAN_PLAYER)) 5 4 AI_PLAYER,
        5)
  /\ P4.check_win
       (fst (drop_piece (fst (drop_piece threat_board 3 HUMAN_PLAYER)) 4
               AI_PLAYER)) HUMAN_PLAYER = true
  /\ P4.check_win (fst (drop_piece threat_board 3 AI_PLAYER)) HUMAN_PLAYER
     = P4.check_win threat_board HUMAN_PLAYER
  /\ P4v2.check_win (fst (drop_piece threat_board 3 AI_PLAYER)) HUMAN_PLAYER
     = P4v2.check_win threat_board HUMAN_PLAYER.
Proof.
  split; [vm_compute; reflexivity|]. split; [vm_compute; reflexivity|].
  split.
  - apply (proj1 (check_win_after_move
                    (fst (drop_piece threat_board 3 HUMAN_PLAYER)) 4
                    HUMAN_PLAYER AI_PLAYER ltac:(discriminate))).
    vm_compute. reflexivity.
  - apply (proj2 (check_win_after_move threat_board 3 HUMAN_PLAYER AI_PLAYER
                    ltac:(discriminate))).
    discriminate.
Defined.

(** X5. When [check_immediate_threat(board, player, col)] answers [True] on
    a board where [player] has no four in a row yet, the column was not
    full and some 4-cell line of [player] on the new board passes through
    the cell where the piece landed. *)
Theorem check_immediate_threat_through_landing (b : board) (player : Z)
    (col : nat) :
  player <> EMPTY ->
  P4.check_win b player = false ->
  P4.check_immediate_threat b player col = true ->
  exists row d r0 c0 i,
    (row < ROWS)%nat
    /\ drop_piece b col player = (set_cell b row col player, Z.of_nat row)
    /\ cell b row col = EMPTY
    /\ run_from (set_cell b row col player) player d r0 c0 4
    /\ (i < 4)%nat /\ line_cell d r0 c0 i = (row, col).
Proof.
  intros Hp Hno Hthreat. unfold P4.check_immediate_threat in Hthreat.
  destruct (drop_piece_result b col player)
    as [(row & Hrow & Hdrop & He & _)|[Hdrop _]]; rewrite Hdrop in Hthreat;
    [|discriminate].
  destruct (Z.of_nat row =? -1) eqn:Hz; [discriminate|].
  apply check_win_has_four in Hthreat as (d & r0 & c0 & Hrun).
  exists row, d, r0, c0.
  assert (Hdec : (exists i, (i < 4)%nat /\ line_cell d r0 c0 i = (row, col))
                 \/ forall i, (i < 4)%nat ->
                      line_cell d r0 c0 i <> (row, col)).
  { assert (Hone : forall i,
              {line_cell d r0 c0 i = (row, col)}
              + {line_cell d r0 c0 i <> (row, col)})
      by (intros i; apply (decide _)).
    destruct (Hone 0%nat); [left; exists 0%nat; split; [lia|auto]|].
    destruct (Hone 1%nat); [left; exists 1%nat; split; [lia|auto]|].
    destruct (Hone 2%nat); [left; exists 2%nat; split; [lia|auto]|].
    destruct (Hone 3%nat); [left; exists 3%nat; split; [lia|auto]|].
    right. intros i Hi.
    destruct i as [|[|[|[|i]]]]; try assumption. lia. }
  destruct Hdec as [(i & Hi & Hcell)|Hout].
  - exists i. do 5 (split; [assumption|]). assumption.
  - exfalso.
    assert (Hold : has_four b player).
    { exists d, r0, c0. intros i Hi.
      destruct (Hrun i Hi) as (Hup & Hgrid & Hc).
      repeat split; try assumption; try apply Hgrid.
      rewrite cell_set_cell_ne in Hc; [assumption|].
      intros Heq. apply (Hout i Hi).
      destruct (line_cell d r0 c0 i) as [x y]. simpl in Heq. congruence. }
    apply check_win_has_four in Hold. congruence.
Qed.

Lemma check_immediate_threat_through_landing_witness :
  exists row d r0 c0 i,
    (row < ROWS)%nat
    /\ drop_piece threat_board 3 HUMAN_PLAYER
       = (set_cell threat_board row 3 HUMAN_PLAYER, Z.of_nat row)
    /\ cell threat_board row 3 = EMPTY
    /\ run_from (set_cell threat_board row 3 HUMAN_PLAYER) HUMAN_PLAYER
         d r0 c0 4
    /\ (i < 4)%nat /\ line_cell d r0 c0 i = (row, 3%nat).
Proof.
  apply (check_immediate_threat_through_landing threat_board HUMAN_PLAYER 3);
    [discriminate | reflexivity | reflexivity].
Defined.

(** ** Boards reached by play *)

Lemma cells_valid_spec (b : board) :
  cells_valid b = true <->
  forall r c, (r < ROWS)%nat -> (c < COLS)%nat ->
    cell b r c = EMPTY \/ is_player (cell b r c) = true.
Proof.
  unfold cells_valid. rewrite forallb_forall. split.
  - intros H r c Hr Hc.
    specialize (H (r, c) (proj2 (grid_spec r c) (conj Hr Hc))). simpl in H.
    apply orb_true_iff in H as [H%Z.eqb_eq|H]; auto.
  - intros H [r c] [Hr Hc]%grid_spec. simpl. apply orb_true_iff.
    destruct (H r c Hr Hc) as [->|Hp]; [left; reflexivity | right; exact Hp].
Qed.

Lemma cells_valid_drop_piece (b : board) (col : nat) (q : Z) :
  is_player q = true -> cells_valid b = true ->
  cells_valid (fst (drop_piece b col q)) = true.
Proof.
  intros Hq Hv. rewrite cells_valid_spec in *. intros r c Hr Hc.
  destruct (drop_piece_cells b col q r c) as [->|(_ & -> & _)]; auto.
Qed.

Lemma gravity_drop_piece (b : board) (col : nat) (q : Z) :
  board_shape b = true -> is_player q = true ->
  is_valid_move b col = true -> gravity b = true ->
  gravity (fst (drop_piece b col q)) = true.
Proof.
  intros Hs Hq Hv Hg.
  destruct (drop_piece_valid b col q Hv) as (row & Hrow & -> & _ & Hbelow).
  pose proof Hv as [Hcol _]%is_valid_move_spec. simpl.
  apply gravity_set_lowest; try assumption.
  apply is_player_not_empty. assumption.
Qed.

Lemma is_player_opp (p : Z) : is_player p = true -> is_player (- p) = true.
Proof. intros [->| ->]%is_player_spec; reflexivity. Qed.

Lemma play_invariants (moves : list nat) :
  forall p b0 b,
    is_player p = true -> board_shape b0 = true -> gravity b0 = true ->
    cells_valid b0 = true -> play moves p b0 = Some b ->
    board_shape b = true /\ gravity b = true /\ cells_valid b = true
    /\ pieces b = (pieces b0 + length moves)%nat
    /\ pieces_of p b = (pieces_of p b0 + (length moves + 1) / 2)%nat
    /\ pieces_of (- p) b = (pieces_of (- p) b0 + length moves / 2)%nat.
Proof.
  induction moves as [|col rest IH]; intros p b0 b Hp Hs Hg Hv Hplay.
  - simpl in Hplay. injection Hplay as <-. simpl.
    repeat split; try assumption; lia.
  - simpl in Hplay.
    destruct (negb (P4.Terminal_Test b0) && is_valid_move b0 col) eqn:Hok;
      [|discriminate].
    apply andb_true_iff in Hok as [_ Hvalid].
    destruct (drop_piece_counts b0 col p Hs Hp Hvalid) as (Hn & Hnp & Hnq).
    destruct (IH (- p) (fst (drop_piece b0 col p)) b) as
      (Hs' & Hg' & Hv' & Hcount & Hq & Hpp); try assumption.
    + apply is_player_opp. assumption.
    + apply board_shape_drop_piece. assumption.
    + apply gravity_drop_piece; assumption.
    + apply cells_valid_drop_piece; assumption.
    + rewrite Z.opp_involutive in Hpp.
      split; [assumption|]. split; [assumption|]. split; [assumption|].
      change (length (col :: rest)) with (S (length rest)).
      rewrite Hcount, Hq, Hpp, Hn, Hnp, Hnq.
      assert (Hdiv : ((S (length rest) + 1) / 2
                      = S (length rest / 2))%nat).
      { replace (S (length rest) + 1)%nat with (length rest + 1 * 2)%nat
          by lia.
        rewrite Nat.div_add by lia. lia. }
      rewrite Hdiv.
      replace (length rest + 1)%nat with (S (length rest)) by lia.
      lia.
Qed.

Lemma pieces_bound (b : board) : (pieces b <= ROWS * COLS)%nat.
Proof.
  unfold pieces, count_cells.
  etransitivity; [apply List.filter_length_le|]. reflexivity.
Qed.

(** X6. Every board reached from the empty board by alternating legal play
    has the fixed shape, satisfies gravity and holds only [EMPTY],
    [AI_PLAYER] and [HUMAN_PLAYER]; it holds as many pieces as moves were
    made, the side that started has made the larger half of them, and a game
    has at most 72 moves. *)
Theorem play_keeps_board_invariants (moves : list nat) (p : Z) (b : board) :
  is_player p = true ->
  play moves p empty_board = Some b ->
  board_shape b = true /\ gravity b = true /\ cells_valid b = true
  /\ pieces b = length moves
  /\ pieces_of p b = ((length moves + 1) / 2)%nat
  /\ pieces_of (- p) b = (length moves / 2)%nat
  /\ (length moves <= ROWS * COLS)%nat.
Proof.
  intros Hp Hplay.
  destruct (play_invariants moves p empty_board b Hp eq_refl eq_refl eq_refl
              Hplay) as (Hs & Hg & Hv & Hn & Hnp & Hnq).
  assert (H0 : forall q, is_player q = true -> pieces_of q empty_board = 0%nat).
  { intros q [->| ->]%is_player_spec; reflexivity. }
  rewrite (H0 p Hp) in Hnp. rewrite (H0 (- p) (is_player_opp p Hp)) in Hnq.
  change (pieces empty_board) with 0%nat in Hn. simpl in Hn, Hnp, Hnq.
  repeat split; try assumption.
  rewrite <- Hn. apply pieces_bound.
Qed.

Lemma play_keeps_board_invariants_witness :
  board_shape crowded_board = true /\ gravity crowded_board = true
  /\ cells_valid crowded_board = true
  /\ pieces crowded_board = length crowded_moves
  /\ pieces_of AI_PLAYER crowded_board
     = ((length crowded_moves + 1) / 2)%nat
  /\ pieces_of (- AI_PLAYER) crowded_board = (length crowded_moves / 2)%nat
  /\ (length crowded_moves <= ROWS * COLS)%nat.
Proof.
  apply (play_keeps_board_invariants crowded_moves AI_PLAYER crowded_board).
  - reflexivity.
  - vm_compute. reflexivity.
Defined.

Lemma play_last_move (moves : list nat) :
  forall p b0 b,
    is_player p = true -> moves <> [] -> play moves p b0 = Some b ->
    exists b1 col q,
      is_player q = true /\ P4.Terminal_Test b1 = false
      /\ b = fst (drop_piece b1 col q).
Proof.
  induction moves as [|col rest IH]; intros p b0 b Hp Hne Hplay;
    [congruence|].
  simpl in Hplay.
  destruct (negb (P4.Terminal_Test b0) && is_valid_move b0 col) eqn:Hok;
    [|discriminate].
  apply andb_true_iff in Hok as [Hterm%negb_true_iff _].
  destruct rest as [|col' rest'].
  - simpl in Hplay. injection Hplay as <-. exists b0, col, p. auto.
  - apply (IH (- p) (fst (drop_piece b0 col p)) b);
      [apply is_player_opp; assumption | discriminate | assumption].
Qed.

Lemma reachable_one_winner (b : board) :
  reachable b ->
  P4.check_win b AI_PLAYER = false \/ P4.check_win b HUMAN_PLAYER = false.
Proof.
  intros (moves & p & Hp & Hplay).
  destruct moves as [|col rest].
  - simpl in Hplay. injection Hplay as <-. left. reflexivity.
  - destruct (play_last_move (col :: rest) p empty_board b Hp
                ltac:(discriminate) Hplay)
      as (b1 & c & q & Hq & Hterm & ->).
    unfold P4.Terminal_Test in Hterm.
    apply orb_false_iff in Hterm as [Hwins _].
    apply orb_false_iff in Hwins as [Hai Hhu].
    apply is_player_spec in Hq as [->| ->].
    + right. rewrite check_win_other_side; [assumption|discriminate..].
    + left. rewrite check_win_other_side; [assumption|discriminate..].
Qed.

(** X7. On a board reached by play at most one side has four in a row (the
    game stops at the first), so [Utility] is 10000 exactly when the engine
    has four, -10000 exactly when the opponent has, and 0 exactly when
    nobody has. *)
Theorem reachable_utility (b : board) :
  reachable b ->
  (P4.check_win b AI_PLAYER = false \/ P4.check_win b HUMAN_PLAYER = false)
  /\ (P4.Utility b = 10000 <-> P4.check_win b AI_PLAYER = true)
  /\ (P4.Utility b = -10000 <-> P4.check_win b HUMAN_PLAYER = true)
  /\ (P4.Utility b = 0 <->
      P4.check_win b AI_PLAYER = false /\ P4.check_win b HUMAN_PLAYER = false).
Proof.
  intros Hr. pose proof (reachable_one_winner b Hr) as Hone.
  split; [exact Hone|]. unfold P4.Utility.
  destruct (P4.check_win b AI_PLAYER), (P4.check_win b HUMAN_PLAYER);
    destruct Hone as [H|H]; try discriminate;
    repeat split; intros; try discriminate; try reflexivity; try tauto;
    try lia; intuition discriminate.
Qed.

Lemma reachable_utility_witness :
  (P4.check_win full_board_with_four AI_PLAYER = false
   \/ P4.check_win full_board_with_four HUMAN_PLAYER = false)
  /\ (P4.Utility full_board_with_four = 10000 <->
      P4.check_win full_board_with_four AI_PLAYER = true)
  /\ (P4.Utility full_board_with_four = -10000 <->
      P4.check_win full_board_with_four HUMAN_PLAYER = true)
  /\ (P4.Utility full_board_with_four = 0 <->
      P4.check_win full_board_with_four AI_PLAYER = false
      /\ P4.check_win full_board_with_four HUMAN_PLAYER = false).
Proof.
  apply (reachable_utility full_board_with_four).
  exists full_game_moves, HUMAN_PLAYER. split; [reflexivity|].
  vm_compute. reflexivity.
Defined.

(** ** Values of the search *)

Lemma evaluate_line_range (line : list Z) (player : Z) :
  0 <= P4v2.evaluate_line line player <= 1000.
Proof.
  unfold P4v2.evaluate_line.
  repeat match goal with
         | |- context [if ?c then _ else _] => destruct c
         end; lia.
Qed.

Lemma sum_Z_range_all (f : list Z -> Z) (lo hi : Z) (lines : list (list Z)) :
  (forall l, lo <= f l <= hi) ->
  lo * Z.of_nat (length lines) <= sum_Z (map f lines)
  <= hi * Z.of_nat (length lines).
Proof. intros Hf. apply sum_Z_range. intros l _. apply Hf. Qed.

Lemma evaluate_position_range (b : board) :
  -144000 <= P4v2.evaluate_position b <= 144000.
Proof.
  unfold P4v2.evaluate_position, P4v2.evaluate_lines.
  rewrite !evaluate_lines_fold.
  assert (Hlen : length (board_lines b) = 144%nat) by reflexivity.
  pose proof (sum_Z_range_all (fun l => P4v2.evaluate_line l AI_PLAYER)
                0 1000 (board_lines b)
                (fun l => evaluate_line_range l AI_PLAYER)) as Ha.
  pose proof (sum_Z_range_all (fun l => P4v2.evaluate_line l HUMAN_PLAYER)
                0 1000 (board_lines b)
                (fun l => evaluate_line_range l HUMAN_PLAYER)) as Hh.
  rewrite Hlen in Ha, Hh. lia.
Qed.

Section SearchValuesV2.

Variable P : Z -> Prop.
Hypothesis P_max : forall x y, P x -> P y -> P (Z.max x y).
Hypothesis P_min : forall x y, P x -> P y -> P (Z.min x y).
Hypothesis P_leaf : forall b, P (P4v2.evaluate_position b).

Lemma max_loop_v2_sat (child : board -> ext -> ext -> P4v2.Clock ext)
    (b : board) (cols : list nat) :
  (forall nb a be k, fin_sat P (fst (child nb a be k))) ->
  forall v alpha beta k, v = NegInf \/ fin_sat P v ->
    cols <> [] \/ fin_sat P v ->
    fin_sat P (fst (P4v2.max_loop child b cols v alpha beta k)).
Proof.
  intros Hchild. induction cols as [|col rest IH];
    intros v alpha beta k Hv Hne.
  - simpl. destruct Hne as [Hne|Hfin]; [congruence | assumption].
  - simpl. unfold P4v2.bind.
    pose proof (Hchild (fst (drop_piece b col AI_PLAYER)) alpha beta k)
      as Hc.
    destruct (child (fst (drop_piece b col AI_PLAYER)) alpha beta k)
      as [r k'].
    simpl in Hc. destruct Hc as (z & -> & Hz).
    assert (Hfin : fin_sat P (ext_max v (Fin z))).
    { rewrite ext_max_eq. destruct Hv as [->|(z' & -> & Hz')].
      - exists z. auto.
      - exists (Z.max z' z). auto. }
    destruct (ext_leb beta (ext_max alpha (ext_max v (Fin z))));
      [assumption|].
    apply IH; right; assumption.
Qed.

Lemma min_loop_v2_sat (child : board -> ext -> ext -> P4v2.Clock ext)
    (b : board) (cols : list nat) :
  (forall nb a be k, fin_sat P (fst (child nb a be k))) ->
  forall v alpha beta k, v = PosInf \/ fin_sat P v ->
    cols <> [] \/ fin_sat P v ->
    fin_sat P (fst (P4v2.min_loop child b cols v alpha beta k)).
Proof.
  intros Hchild. induction cols as [|col rest IH];
    intros v alpha beta k Hv Hne.
  - simpl. destruct Hne as [Hne|Hfin]; [congruence | assumption].
  - simpl. unfold P4v2.bind.
    pose proof (Hchild (fst (drop_piece b col HUMAN_PLAYER)) alpha beta k)
      as Hc.
    destruct (child (fst (drop_piece b col HUMAN_PLAYER)) alpha beta k)
      as [r k'].
    simpl in Hc. destruct Hc as (z & -> & Hz).
    assert (Hfin : fin_sat P (ext_min v (Fin z))).
    { rewrite ext_min_eq. destruct Hv as [->|(z' & -> & Hz')].
      - exists z. auto.
      - exists (Z.min z' z). auto. }
    destruct (ext_leb (ext_min beta (ext_min v (Fin z))) alpha);
      [assumption|].
    apply IH; right; assumption.
Qed.

Lemma minimax_ab_sat (expired : nat -> bool) (d : nat) :
  forall b alpha beta maximizing k,
    fin_sat P (fst (P4v2.minimax_ab expired b d alpha beta maximizing k)).
Proof.
  induction d as [|d IH]; intros b alpha beta maximizing k.
  - simpl. eexists. split; [reflexivity | apply P_leaf].
  - cbn [P4v2.minimax_ab]. unfold P4v2.bind, P4v2.time_exceeded.
    destruct (expired k || P4v2.Terminal_Test b) eqn:Hstop.
    + simpl. eexists. split; [reflexivity | apply P_leaf].
    + apply orb_false_iff in Hstop as [_ Hterm].
      assert (Hne : get_valid_moves b <> []).
      { unfold P4v2.Terminal_Test in Hterm.
        apply orb_false_iff in Hterm as [_ Hfull].
        apply not_full_valid_move. assumption. }
      destruct maximizing.
      * apply max_loop_v2_sat; [|left; reflexivity|left; assumption].
        intros nb a be k'. apply IH.
      * apply min_loop_v2_sat; [|left; reflexivity|left; assumption].
        intros nb a be k'. apply IH.
Qed.

End SearchValuesV2.

(** X8. Every value the searches return is a number, never an infinity,
    whatever the window, the depth and the clock: between -10000 and 288000
    for [max_value] and [min_value] of P4.py, between -144000 and 144000
    for [minimax_ab] of P4v2.py. *)
Theorem search_values_bounded (b : board) (alpha beta : ext) (d : nat) :
  (exists z, P4.max_value b alpha beta d = Fin z /\ -10000 <= z <= 288000)
  /\ (exists z, P4.min_value b alpha beta d = Fin z /\ -10000 <= z <= 288000)
  /\ (forall expired maximizing k,
        exists z,
          fst (P4v2.minimax_ab expired b d alpha beta maximizing k) = Fin z
          /\ -144000 <= z <= 144000).
Proof.
  assert (H4 : fin_sat (fun z => -10000 <= z <= 288000)
                 (P4.max_value b alpha beta d)
               /\ fin_sat (fun z => -10000 <= z <= 288000)
                    (P4.min_value b alpha beta d)).
  { apply search_sat.
    - intros x y Hx Hy. lia.
    - intros x y Hx Hy. lia.
    - intros b'. unfold P4.Utility.
      destruct (P4.check_win b' AI_PLAYER); [lia|].
      destruct (P4.check_win b' HUMAN_PLAYER); lia.
    - intros b'. pose proof (heuristic_range b'). lia. }
  destruct H4 as [Hmax Hmin].
  split; [exact Hmax|]. split; [exact Hmin|].
  intros expired maximizing k.
  apply (minimax_ab_sat (fun z => -144000 <= z <= 144000)).
  - intros x y Hx Hy. lia.
  - intros x y Hx Hy. lia.
  - apply evaluate_position_range.
Qed.

(** ** Which column the decision picks *)

Lemma ext_le_lt_trans (x y z : ext) : ext_le x y -> ext_lt y z -> ext_lt x z.
Proof. ext_cases. Qed.

Lemma ext_lt_trans (x y z : ext) : ext_lt x y -> ext_lt y z -> ext_lt x z.
Proof. ext_cases. Qed.

Lemma ext_le_trans (x y z : ext) : ext_le x y -> ext_le y z -> ext_le x z.
Proof. ext_cases. Qed.

Lemma ext_lt_le (x y : ext) : ext_lt x y -> ext_le x y.
Proof. ext_cases. Qed.

Lemma ext_le_refl (x : ext) : ext_le x x.
Proof. ext_cases. Qed.

Section DecisionP4.

Variable md : nat.
Variable b : board.

(** The score [IA_Decision] gives to a column. *)
Let score (col : nat) : ext :=
  P4.min_value (fst (drop_piece b col AI_PLAYER)) NegInf PosInf (md - 1).

Lemma decision_loop_argmax (moves : list nat) :
  forall k bv bm,
    (P4.decision_loop md (fun _ => false) b moves k bv bm = bm
     /\ forall c', In c' moves -> ext_le (score c') bv)
    \/ exists c,
         P4.decision_loop md (fun _ => false) b moves k bv bm = Some c
         /\ ext_lt bv (score c) /\ first_best score moves c.
Proof.
  induction moves as [|col rest IH]; intros k bv bm.
  - left. split; [reflexivity|]. intros c' [].
  - simpl. fold (score col).
    destruct (ext_ltb bv (score col)) eqn:Hlt.
    + apply ext_ltb_true in Hlt. right.
      destruct (IH (S k) (score col) (Some col))
        as [[-> Hrest]|(c & -> & Hc & pre & post & -> & Hpre & Hpost)].
      * exists col. split; [reflexivity|]. split; [assumption|].
        exists [], rest. split; [reflexivity|]. split; [intros c' []|].
        assumption.
      * exists c. split; [reflexivity|].
        split; [apply (ext_lt_trans _ (score col)); assumption|].
        exists (col :: pre), post. split; [reflexivity|].
        split; [|assumption].
        intros c' [<-|Hin]; [assumption | apply Hpre; assumption].
    + apply ext_ltb_false in Hlt.
      destruct (IH (S k) bv bm)
        as [[-> Hrest]|(c & -> & Hc & pre & post & -> & Hpre & Hpost)].
      * left. split; [reflexivity|].
        intros c' [<-|Hin]; [assumption | apply Hrest; assumption].
      * right. exists c. split; [reflexivity|]. split; [assumption|].
        exists (col :: pre), post. split; [reflexivity|].
        split; [|assumption].
        intros c' [<-|Hin]; [|apply Hpre; assumption].
        apply (ext_le_lt_trans _ bv); assumption.
Qed.

Lemma decision_loop_prefix (expired : nat -> bool) (moves : list nat) :
  forall k n bv bm,
    (forall j, (k <= j < k + n)%nat -> expired j = false) ->
    expired (k + n)%nat = true ->
    P4.decision_loop md expired b moves k bv bm
    = P4.decision_loop md (fun _ => false) b (firstn (S n) moves) k bv bm.
Proof.
  induction moves as [|col rest IH]; intros k n bv bm Hbefore Hat;
    [reflexivity|].
  cbn [firstn P4.decision_loop].
  destruct (ext_ltb bv _).
  - destruct n as [|n].
    + rewrite Nat.add_0_r in Hat. rewrite Hat.
      destruct rest; reflexivity.
    + rewrite (Hbefore k) by lia. apply IH.
      * intros j Hj. apply Hbefore. lia.
      * rewrite <- Hat. f_equal. lia.
  - destruct n as [|n].
    + rewrite Nat.add_0_r in Hat. rewrite Hat.
      destruct rest; reflexivity.
    + rewrite (Hbefore k) by lia. apply IH.
      * intros j Hj. apply Hbefore. lia.
      * rewrite <- Hat. f_equal. lia.
Qed.

End DecisionP4.

(** X9. Without a timeout [IA_Decision] of P4.py returns the first column,
    in the order of [prioritize_moves], whose plain minimax value at depth
    [MAX_DEPTH - 1] (the opponent to move) is the largest: ties go to the
    column met first. *)
Theorem IA_Decision_first_best (d r : nat) (b : board) (c : nat) :
  P4.IA_Decision_at (S d) (fun _ => false) r b = Some c ->
  first_best (fun col => minimax (fst (drop_piece b col AI_PLAYER)) d false)
    (P4.prioritize_moves b) c.
Proof.
  unfold P4.IA_Decision_at. intros Hres.
  assert (Hscore : forall col,
            P4.min_value (fst (drop_piece b col AI_PLAYER)) NegInf PosInf
              (S d - 1)
            = minimax (fst (drop_piece b col AI_PLAYER)) d false).
  { intros col. replace (S d - 1)%nat with d by lia.
    apply (search_with_full_window P4.prioritize_moves prioritize_moves_perm). }
  destruct (decision_loop_argmax (S d) b (P4.prioritize_moves b) 0 NegInf None)
    as [[Hnone Hall]|(c0 & Hc0 & _ & pre & post & Hmoves & Hpre & Hpost)].
  - rewrite Hnone in Hres.
    destruct (P4.prioritize_moves b) as [|col rest] eqn:Hmoves.
    + assert (Hnil : get_valid_moves b = []).
      { apply Permutation_nil. rewrite <- Hmoves.
        apply prioritize_moves_perm. }
      rewrite Hnil in Hres. discriminate.
    + exfalso. specialize (Hall col (or_introl eq_refl)).
      destruct (proj2 (search_fin (S d - 1) (fst (drop_piece b col AI_PLAYER))
                         NegInf PosInf)) as [z Hz].
      rewrite Hz in Hall. exact Hall.
  - rewrite Hc0 in Hres. injection Hres as <-.
    exists pre, post. split; [assumption|]. split.
    + intros c' Hin. rewrite <- !Hscore. apply Hpre. assumption.
    + intros c' Hin. rewrite <- !Hscore. apply Hpost. assumption.
Qed.

Lemma IA_Decision_first_best_witness :
  first_best
    (fun col => minimax (fst (drop_piece threat_board col AI_PLAYER)) 1 false)
    (P4.prioritize_moves threat_board) 3.
Proof.
  apply (IA_Decision_first_best 1 0 threat_board 3).
  vm_compute. reflexivity.
Defined.

(** X10. The deadline of P4.py is tested only after a column has been
    scored: when the test first succeeds after [n + 1] columns, the decision
    is the one a search without deadline makes over these first [n + 1]
    columns of [prioritize_moves]; if the time is up at once, it is the
    first column of [prioritize_moves]. *)
Theorem IA_Decision_deadline (md : nat) (expired : nat -> bool) (b : board)
    (n : nat) :
  (forall j, (j < n)%nat -> expired j = false) ->
  expired n = true ->
  P4.decision_loop (S md) expired b (P4.prioritize_moves b) 0 NegInf None
  = P4.decision_loop (S md) (fun _ => false) b
      (firstn (S n) (P4.prioritize_moves b)) 0 NegInf None
  /\ (n = 0%nat -> forall r c rest,
        P4.prioritize_moves b = c :: rest ->
        P4.IA_Decision_at (S md) expired r b = Some c).
Proof.
  intros Hbefore Hat. split.
  - apply (decision_loop_prefix (S md) b expired _ 0 n).
    + intros j Hj. apply Hbefore. lia.
    + exact Hat.
  - intros -> r c rest Hmoves. unfold P4.IA_Decision_at. rewrite Hmoves.
    simpl.
    destruct (proj2 (search_fin (md - 0) (fst (drop_piece b c AI_PLAYER))
                       NegInf PosInf)) as [z ->].
    simpl. rewrite Hat. reflexivity.
Qed.

Lemma IA_Decision_deadline_witness :
  P4.decision_loop 1 (fun _ => true) threat_board
    (P4.prioritize_moves threat_board) 0 NegInf None
  = P4.decision_loop 1 (fun _ => false) threat_board
      (firstn 1 (P4.prioritize_moves threat_board)) 0 NegInf None.
Proof.
  apply (proj1 (IA_Decision_deadline 0 (fun _ => true) threat_board 0
                  ltac:(intros j Hj; lia) eq_refl)).
Defined.

Lemma minimax_ab_full_window (b : board) (d : nat) (maximizing : bool)
    (k : nat) :
  fst (P4v2.minimax_ab (fun _ => false) b d NegInf PosInf maximizing k)
  = minimax_v2 b d maximizing.
Proof. apply ab_ok_full, minimax_ab_ok. exact I. Qed.

Section DecisionP4v2.

Variable bd : nat.
Variable b : board.

Let score (col : nat) : ext :=
  minimax_v2 (fst (drop_piece b col AI_PLAYER)) bd false.

Lemma decision_loop_v2_argmax (moves : list nat) :
  forall bs bm k,
    (fst (P4v2.decision_loop (fun _ => false) bd b moves bs bm k) = bm
     /\ forall c', In c' moves -> ext_le (score c') bs)
    \/ (ext_lt bs
          (score (fst (P4v2.decision_loop (fun _ => false) bd b moves bs bm
                         k)))
        /\ first_best score moves
             (fst (P4v2.decision_loop (fun _ => false) bd b moves bs bm k))).
Proof.
  induction moves as [|col rest IH]; intros bs bm k.
  - left. split; [reflexivity|]. intros c' [].
  - simpl. unfold P4v2.bind.
    pose proof (minimax_ab_full_window (fst (drop_piece b col AI_PLAYER)) bd
                  false k) as Hs.
    destruct (P4v2.minimax_ab (fun _ => false)
                (fst (drop_piece b col AI_PLAYER)) bd NegInf PosInf false k)
      as [s k1].
    simpl in Hs. subst s. fold (score col).
    unfold P4v2.time_exceeded.
    destruct (ext_ltb bs (score col)) eqn:Hlt.
    + apply ext_ltb_true in Hlt. right.
      destruct (IH (score col) col (S k1))
        as [[-> Hrest]|(Hc & pre & post & Hmoves & Hpre & Hpost)].
      * split; [assumption|].
        exists [], rest. split; [reflexivity|]. split; [intros c' []|].
        assumption.
      * split; [apply (ext_lt_trans _ (score col)); assumption|].
        exists (col :: pre), post. split; [rewrite Hmoves at 1; reflexivity|].
        split; [|assumption].
        intros c' [<-|Hin]; [assumption | apply Hpre; assumption].
    + apply ext_ltb_false in Hlt.
      destruct (IH bs bm (S k1))
        as [[-> Hrest]|(Hc & pre & post & Hmoves & Hpre & Hpost)].
      * left. split; [reflexivity|].
        intros c' [<-|Hin]; [assumption | apply Hrest; assumption].
      * right. split; [assumption|].
        exists (col :: pre), post. split; [rewrite Hmoves at 1; reflexivity|].
        split; [|assumption].
        intros c' [<-|Hin]; [|apply Hpre; assumption].
        apply (ext_le_lt_trans _ bs); assumption.
Qed.

End DecisionP4v2.

(** X11. Without a timeout [IA_Decision] of P4v2.py returns the lowest
    column among the legal columns whose plain minimax value at depth
    [BASE_DEPTH] (the opponent to move) is the largest; the random initial
    choice is always replaced. *)
Theorem IA_Decision_v2_first_best (bd r : nat) (b : board) (c : nat) :
  P4v2.IA_Decision_at (fun _ => false) bd r b = Some c ->
  first_best (fun col => minimax_v2 (fst (drop_piece b col AI_PLAYER)) bd false)
    (get_valid_moves b) c.
Proof.
  unfold P4v2.IA_Decision_at.
  destruct (random_choice r (get_valid_moves b)) as [c0|] eqn:Hpick;
    [|discriminate].
  intros [= <-].
  destruct (decision_loop_v2_argmax bd b (get_valid_moves b) NegInf c0 0%nat)
    as [[_ Hall]|[_ Hbest]]; [|exact Hbest].
  exfalso. apply random_choice_in in Hpick.
  specialize (Hall c0 Hpick).
  rewrite <- (minimax_ab_full_window _ bd false 0%nat) in Hall.
  destruct (minimax_ab_sat (fun _ => True) (fun _ _ _ _ => I)
              (fun _ _ _ _ => I) (fun _ => I) (fun _ => false) bd
              (fst (drop_piece b c0 AI_PLAYER)) NegInf PosInf false 0%nat)
    as (z & Hz & _).
  rewrite Hz in Hall. exact Hall.
Qed.

Lemma IA_Decision_v2_first_best_witness :
  first_best
    (fun col =>
       minimax_v2 (fst (drop_piece threat_board col AI_PLAYER)) 1 false)
    (get_valid_moves threat_board) 3.
Proof.
  apply (IA_Decision_v2_first_best 1 0 threat_board 3).
  vm_compute. reflexivity.
Defined.

(** X12. When the deadline of P4v2.py has passed at its first two tests, the
    search of the first legal column returns its static evaluation at once
    and the loop stops there: [IA_Decision] returns the lowest legal
    column, not the random initial choice. *)
Theorem IA_Decision_v2_deadline (expired : nat -> bool) (bd r : nat)
    (b : board) (c : nat) (rest : list nat) :
  expired 0%nat = true -> expired 1%nat = true ->
  get_valid_moves b = c :: rest ->
  P4v2.IA_Decision_at expired bd r b = Some c.
Proof.
  intros H0 H1 Hmoves. unfold P4v2.IA_Decision_at.
  destruct (random_choice_some r (get_valid_moves b)) as [c0 Hc0];
    [rewrite Hmoves; discriminate|].
  rewrite Hc0, Hmoves. f_equal. simpl. unfold P4v2.bind.
  assert (Hsearch : P4v2.minimax_ab expired (fst (drop_piece b c AI_PLAYER))
                      bd NegInf PosInf false 0%nat
                    = (Fin (P4v2.evaluate_position
                              (fst (drop_piece b c AI_PLAYER))), 1%nat)).
  { destruct bd; simpl; unfold P4v2.bind, P4v2.time_exceeded;
      rewrite ?H0; reflexivity. }
  rewrite Hsearch. simpl. unfold P4v2.time_exceeded. rewrite H1. reflexivity.
Qed.

Lemma IA_Decision_v2_deadline_witness :
  P4v2.IA_Decision_at (fun _ => true) 3 7 threat_board = Some 0%nat.
Proof.
  apply (IA_Decision_v2_deadline (fun _ => true) 3 7 threat_board 0
           [1; 2; 3; 4; 5; 6; 7; 8; 9; 10; 11]%nat); reflexivity.
Defined.

(** ** The engine blocks an immediate threat *)

Lemma drop_piece_other_column (b : board) (c c0 : nat) (q : Z) (r : nat) :
  c <> c0 -> cell (fst (drop_piece b c q)) r c0 = cell b r c0.
Proof.
  intros Hne. destruct (drop_piece_cells b c q r c0) as [H|(_ & _ & H)];
    [assumption | congruence].
Qed.

Lemma is_valid_move_other_column (b : board) (c c0 : nat) (q : Z) :
  c <> c0 -> is_valid_move (fst (drop_piece b c q)) c0 = is_valid_move b c0.
Proof.
  intros Hne. unfold is_valid_move.
  rewrite drop_piece_other_column by assumption. reflexivity.
Qed.

Lemma check_immediate_threat_valid (b : board) (p : Z) (col : nat) :
  is_valid_move b col = true ->
  P4.check_immediate_threat b p col
  = P4.check_win (fst (drop_piece b col p)) p.
Proof.
  intros Hv. unfold P4.check_immediate_threat.
  destruct (drop_piece_valid b col p Hv) as (row & _ & -> & _). simpl.
  destruct (Z.of_nat row =? -1) eqn:Hz; [|reflexivity].
  apply Z.eqb_eq in Hz. lia.
Qed.

(** A threat in column [c0] is still there after a move in another
    column. *)
Lemma threat_persists (b : board) (c c0 : nat) (p q : Z) :
  board_shape b = true -> p <> EMPTY -> c <> c0 ->
  is_valid_move b c0 = true ->
  P4.check_win (fst (drop_piece b c0 p)) p = true ->
  P4.check_win (fst (drop_piece (fst (drop_piece b c q)) c0 p)) p = true.
Proof.
  intros Hs Hp Hne Hv.
  set (bc := fst (drop_piece b c q)).
  assert (Hsc : board_shape bc = true) by (apply board_shape_drop_piece; auto).
  assert (Hvc : is_valid_move bc c0 = true).
  { unfold bc. rewrite is_valid_move_other_column; assumption. }
  pose proof Hv as [Hcol _]%is_valid_move_spec.
  destruct (drop_piece_valid b c0 p Hv) as (row & Hrow & -> & He & Hbelow).
  destruct (drop_piece_valid bc c0 p Hvc)
    as (row' & Hrow' & -> & He' & Hbelow').
  assert (Hsame : row' = row).
  { unfold bc in He', Hbelow'.
    rewrite drop_piece_other_column in He' by assumption.
    destruct (Nat.lt_trichotomy row' row) as [Hlt|[Heq|Hgt]];
      [|assumption|].
    - exfalso. apply (Hbelow' row); [lia|].
      rewrite drop_piece_other_column; assumption.
    - exfalso. apply (Hbelow row'); [lia | assumption]. }
  subst row'. simpl. apply check_win_transfer. intros r cc Hc.
  destruct (decide ((row, c0) = (r, cc))) as [[= <- <-]|Hrc].
  - apply cell_set_cell_eq; assumption.
  - rewrite cell_set_cell_ne in Hc by assumption.
    rewrite cell_set_cell_ne by assumption.
    unfold bc. rewrite drop_piece_keeps; congruence.
Qed.

Lemma min_loop_hits_floor (child : board -> ext -> ext -> ext) (b : board)
    (cols : list nat) :
  (forall nb a be, fin_sat (fun z => -10000 <= z) (child nb a be)) ->
  forall v beta,
    v = PosInf \/ fin_sat (fun z => -10000 <= z) v ->
    v = Fin (-10000)
    \/ (exists col, In col cols /\
          forall a be,
            child (fst (drop_piece b col HUMAN_PLAYER)) a be = Fin (-10000)) ->
    P4.min_loop child b cols v NegInf beta = Fin (-10000).
Proof.
  intros Hchild. induction cols as [|col rest IH]; intros v beta Hv Hhit.
  - simpl. destruct Hhit as [->|(c & [] & _)]. reflexivity.
  - simpl.
    pose proof (Hchild (fst (drop_piece b col HUMAN_PLAYER)) NegInf beta)
      as (z & Hz & Hfloor).
    assert (Hv' : exists z', ext_min v (Fin z) = Fin z' /\ -10000 <= z'
                             /\ (v = Fin (-10000) \/ z = -10000 ->
                                 z' = -10000)).
    { rewrite ext_min_eq. destruct Hv as [->|(z0 & -> & Hz0)].
      - exists z. repeat split; [assumption|].
        intros [Hv|Hz']; [discriminate | assumption].
      - exists (Z.min z0 z). repeat split; [lia|].
        intros [[= ->]| ->]; lia. }
    rewrite Hz. destruct Hv' as (z' & Hmin & Hfloor' & Hhit').
    rewrite Hmin. cbn [ext_leb].
    apply IH; [right; exists z'; auto|].
    destruct Hhit as [Hv0|(c & [<-|Hin] & Hc)].
    + left. f_equal. apply Hhit'. left. assumption.
    + left. f_equal. apply Hhit'. right.
      specialize (Hc NegInf beta). rewrite Hz in Hc. congruence.
    + right. exists c. auto.
Qed.

Lemma decision_loop_stays_any (md : nat) (expired : nat -> bool) (b : board)
    (moves : list nat) :
  (forall c, In c moves ->
     P4.min_value (fst (drop_piece b c AI_PLAYER)) NegInf PosInf (md - 1)
     = Fin (-10000)) ->
  forall k z m, -10000 <= z ->
    P4.decision_loop md expired b moves k (Fin z) (Some m) = Some m.
Proof.
  induction moves as [|c rest IH]; intros Hlost k z m Hz; [reflexivity|].
  simpl. rewrite (Hlost c (or_introl eq_refl)).
  replace (ext_ltb (Fin z) (Fin (-10000))) with false
    by (symmetry; apply ext_ltb_false; simpl; lia).
  destruct (expired k); [reflexivity|].
  apply IH; [|assumption]. intros c' Hc'. apply Hlost. right. assumption.
Qed.

Lemma valid_move_not_full (b : board) (col : nat) :
  is_valid_move b col = true -> is_board_full b = false.
Proof.
  intros [Hcol He]%is_valid_move_spec.
  destruct (is_board_full b) eqn:Hf; [|reflexivity].
  rewrite is_board_full_spec in Hf. exfalso. exact (Hf col Hcol He).
Qed.

(** After a move of the engine that neither wins nor takes column [c0],
    where the opponent completes four in a row, the position is lost at
    every depth from 1 on. *)
Lemma min_value_after_unblocked (b : board) (c c0 d : nat) :
  board_shape b = true -> P4.Terminal_Test b = false ->
  is_valid_move b c = true -> is_valid_move b c0 = true -> c <> c0 ->
  P4.check_immediate_threat b AI_PLAYER c = false ->
  P4.check_immediate_threat b HUMAN_PLAYER c0 = true ->
  P4.min_value (fst (drop_piece b c AI_PLAYER)) NegInf PosInf (S d)
  = Fin (-10000).
Proof.
  intros Hs Hterm Hvc Hv0 Hne Hnowin Hthreat.
  rewrite check_immediate_threat_valid in Hnowin, Hthreat by assumption.
  unfold P4.Terminal_Test in Hterm.
  apply orb_false_iff in Hterm as [Hwins _].
  apply orb_false_iff in Hwins as [_ Hhu].
  set (bc := fst (drop_piece b c AI_PLAYER)) in *.
  assert (Hvc0 : is_valid_move bc c0 = true).
  { unfold bc. rewrite is_valid_move_other_column; assumption. }
  assert (Hhu' : P4.check_win bc HUMAN_PLAYER = false).
  { unfold bc. rewrite check_win_other_side; [assumption|discriminate..]. }
  assert (Htermc : P4.Terminal_Test bc = false).
  { unfold P4.Terminal_Test.
    rewrite Hnowin, Hhu', (valid_move_not_full bc c0 Hvc0). reflexivity. }
  set (bcc := fst (drop_piece bc c0 HUMAN_PLAYER)).
  assert (Hwin : P4.check_win bcc HUMAN_PLAYER = true).
  { apply threat_persists; try assumption. discriminate. }
  assert (Hai : P4.check_win bcc AI_PLAYER = false).
  { unfold bcc. rewrite check_win_other_side; [assumption|discriminate..]. }
  unfold P4.min_value. cbn [P4.min_value_with]. rewrite Htermc.
  apply min_loop_hits_floor.
  - intros nb a be. apply (search_floor d nb a be).
  - left. reflexivity.
  - right. exists c0. split.
    + apply list_elem_of_In. rewrite (prioritize_moves_perm bc).
      apply list_elem_of_In, get_valid_moves_spec. assumption.
    + intros a be. fold bcc. rewrite max_value_terminal.
      * unfold P4.Utility. rewrite Hai, Hwin. reflexivity.
      * unfold P4.Terminal_Test. rewrite Hai, Hwin. reflexivity.
Qed.

(** X13. Whatever the clock, with a depth constant from 2 on: on a board
    of the fixed shape where the game is not over, the engine has no column
    that wins at once and the opponent has one, [IA_Decision] of P4.py
    returns the lowest column in which the opponent would complete four in a
    row. *)
Theorem IA_Decision_blocks_threat (d : nat) (expired : nat -> bool) (r : nat)
    (b : board) (c0 : nat) (more : list nat) :
  board_shape b = true ->
  P4.Terminal_Test b = false ->
  List.filter (wins b) (get_valid_moves b) = [] ->
  List.filter (blocks b) (get_valid_moves b) = c0 :: more ->
  P4.IA_Decision_at (S (S d)) expired r b = Some c0
  /\ is_valid_move b c0 = true
  /\ P4.check_immediate_threat b HUMAN_PLAYER c0 = true.
Proof.
  intros Hs Hterm Hwins Hblocks.
  assert (Hc0 : In c0 (List.filter (blocks b) (get_valid_moves b)))
    by (rewrite Hblocks; left; reflexivity).
  apply filter_In in Hc0 as [Hv0%get_valid_moves_spec Hb0].
  unfold blocks in Hb0. apply andb_true_iff in Hb0 as [_ Hthreat].
  split; [|split; assumption].
  pose proof (prioritize_moves_groups b) as Hmoves.
  rewrite Hwins, Hblocks in Hmoves. simpl in Hmoves.
  assert (Hnd : List.NoDup (P4.prioritize_moves b)).
  { apply (Permutation_NoDup (l := get_valid_moves b)).
    - symmetry. apply prioritize_moves_perm.
    - apply List.NoDup_filter, List.seq_NoDup. }
  unfold P4.IA_Decision_at.
  set (rest := more ++ List.filter
                 (fun col => is_valid_move b col && others b col)
                 preference_order) in *.
  assert (Hrest : forall c, In c rest ->
            P4.min_value (fst (drop_piece b c AI_PLAYER)) NegInf PosInf
              (S (S d) - 1) = Fin (-10000)).
  { intros c Hin. change (S (S d) - 1)%nat with (S d).
    assert (Hvc : is_valid_move b c = true).
    { apply get_valid_moves_spec, list_elem_of_In.
      rewrite <- (prioritize_moves_perm b). apply list_elem_of_In.
      rewrite Hmoves. right. assumption. }
    apply (min_value_after_unblocked b c c0 d); try assumption.
    - intros ->. rewrite Hmoves in Hnd.
      apply List.NoDup_cons_iff in Hnd as [Hnotin _]. contradiction.
    - destruct (P4.check_immediate_threat b AI_PLAYER c) eqn:Hw;
        [|reflexivity].
      assert (Hinw : In c (List.filter (wins b) (get_valid_moves b))).
      { apply filter_In. split; [apply get_valid_moves_spec; assumption|].
        exact Hw. }
      rewrite Hwins in Hinw. destruct Hinw. }
  rewrite Hmoves. cbn [P4.decision_loop].
  destruct (proj2 (search_floor (S (S d) - 1)
                     (fst (drop_piece b c0 AI_PLAYER)) NegInf PosInf))
    as (z & -> & Hz).
  cbn [ext_ltb ext_leb negb].
  destruct (expired 0%nat); [reflexivity|].
  rewrite decision_loop_stays_any by assumption. reflexivity.
Qed.

Lemma IA_Decision_blocks_threat_witness :
  P4.IA_Decision_at 6 (fun k => 3 <=? k)%nat 0 threat_board = Some 3%nat
  /\ is_valid_move threat_board 3 = true
  /\ P4.check_immediate_threat threat_board HUMAN_PLAYER 3 = true.
Proof.
  apply (IA_Decision_blocks_threat 4 (fun k => 3 <=? k)%nat 0 threat_board
           3 []); vm_compute; reflexivity.
Defined.

(** ** The two evaluations *)

(** X14. On a 4-cell line [count_sequence] of P4.py returns 0, 1, 10 or 1000
    for the engine and 0, 1, 10 or -1000 for the opponent; the entry
    [3: 100] of [weights] is never used, and four pieces of the player in
    the line score 0. *)
Theorem count_sequence_values (x y z t : Z) :
  In (P4.count_sequence [x; y; z; t] AI_PLAYER) [0; 1; 10; 1000]
  /\ In (P4.count_sequence [x; y; z; t] HUMAN_PLAYER) [0; 1; 10; -1000]
  /\ P4.count_sequence [AI_PLAYER; AI_PLAYER; AI_PLAYER; AI_PLAYER] AI_PLAYER
     = 0
  /\ P4.count_sequence
       [HUMAN_PLAYER; HUMAN_PLAYER; HUMAN_PLAYER; HUMAN_PLAYER] HUMAN_PLAYER
     = 0.
Proof.
  split; [|split; [|split; reflexivity]].
  - unfold P4.count_sequence. cbn [P4.count_sequence_loop].
    destruct (x =? AI_PLAYER), (x =? EMPTY), (y =? AI_PLAYER), (y =? EMPTY),
      (z =? AI_PLAYER), (z =? EMPTY), (t =? AI_PLAYER), (t =? EMPTY);
      eval_run_scores; simpl; tauto.
  - unfold P4.count_sequence. cbn [P4.count_sequence_loop].
    destruct (x =? HUMAN_PLAYER), (x =? EMPTY), (y =? HUMAN_PLAYER),
      (y =? EMPTY), (z =? HUMAN_PLAYER), (z =? EMPTY), (t =? HUMAN_PLAYER),
      (t =? EMPTY); eval_run_scores; simpl; tauto.
Qed.

Lemma cell_swap_sides (b : board) (r c : nat) :
  cell (swap_sides b) r c = - cell b r c.
Proof.
  unfold cell, swap_sides.
  change (map (map Z.opp) b) with (fmap (M := list) (fmap (M := list) Z.opp) b).
  rewrite list_lookup_fmap.
  destruct (b !! r) as [row|]; simpl; [|reflexivity].
  rewrite list_lookup_fmap. destruct (row !! c); reflexivity.
Qed.

Lemma map_flat_map_lines (g : list Z -> list Z) (f : nat -> list (list Z))
    (l : list nat) :
  map g (flat_map f l) = flat_map (fun x => map g (f x)) l.
Proof.
  induction l as [|x l IH]; simpl; [reflexivity|].
  rewrite map_app, IH. reflexivity.
Qed.

Lemma board_lines_swap_sides (b : board) :
  board_lines (swap_sides b) = map (map Z.opp) (board_lines b).
Proof.
  assert (Hh : forall r c, line_h (swap_sides b) r c
                           = map Z.opp (line_h b r c)).
  { intros r c. unfold line_h. rewrite map_map. apply map_ext.
    intros i. apply cell_swap_sides. }
  assert (Hv : forall r c, line_v (swap_sides b) r c
                           = map Z.opp (line_v b r c)).
  { intros r c. unfold line_v. rewrite map_map. apply map_ext.
    intros i. apply cell_swap_sides. }
  assert (Hd : forall r c, line_d (swap_sides b) r c
                           = map Z.opp (line_d b r c)).
  { intros r c. unfold line_d. rewrite map_map. apply map_ext.
    intros i. apply cell_swap_sides. }
  assert (Hu : forall r c, line_u (swap_sides b) r c
                           = map Z.opp (line_u b r c)).
  { intros r c. unfold line_u. rewrite map_map. apply map_ext.
    intros i. apply cell_swap_sides. }
  unfold board_lines. rewrite !map_app, !map_flat_map_lines.
  apply (f_equal2 (@app (list Z)));
    [|apply (f_equal2 (@app (list Z))); [|apply (f_equal2 (@app (list Z)))]];
    apply flat_map_ext; intros i; rewrite map_map; apply map_ext; intros j;
    auto.
Qed.

Lemma count_opp (x : Z) (line : list Z) :
  P4v2.count (- x) (map Z.opp line) = P4v2.count x line.
Proof.
  unfold P4v2.count. f_equal. induction line as [|y line IH];
    [reflexivity|]. simpl.
  replace (- y =? - x) with (y =? x).
  - destruct (y =? x); simpl; rewrite IH; reflexivity.
  - destruct (Z.eqb_spec y x), (Z.eqb_spec (- y) (- x)); try reflexivity; lia.
Qed.

Lemma evaluate_line_opp (line : list Z) (player : Z) :
  P4v2.evaluate_line (map Z.opp line) (- player)
  = P4v2.evaluate_line line player.
Proof.
  unfold P4v2.evaluate_line.
  rewrite !count_opp, !(count_opp EMPTY line : P4v2.count EMPTY _ = _).
  reflexivity.
Qed.

Lemma evaluate_lines_swap_sides (b : board) (player : Z) :
  P4v2.evaluate_lines (swap_sides b) (- player)
  = P4v2.evaluate_lines b player.
Proof.
  unfold P4v2.evaluate_lines. rewrite !evaluate_lines_fold.
  rewrite board_lines_swap_sides, map_map. f_equal. f_equal.
  apply map_ext. intros l. apply evaluate_line_opp.
Qed.

(** X15. The evaluation of P4v2.py is symmetric in the two sides: on the
    board with every piece given to the other side, [evaluate_lines] of a
    side is what it was for the other side, and [evaluate_position] changes
    sign. The heuristic of P4.py is not: on the board of the blocking
    scenario and on its exchange it is positive both times. *)
Theorem evaluate_position_swap_sides (b : board) :
  P4v2.evaluate_lines (swap_sides b) AI_PLAYER
  = P4v2.evaluate_lines b HUMAN_PLAYER
  /\ P4v2.evaluate_lines (swap_sides b) HUMAN_PLAYER
     = P4v2.evaluate_lines b AI_PLAYER
  /\ P4v2.evaluate_position (swap_sides b) = - P4v2.evaluate_position b
  /\ P4.heuristic threat_board = 983
  /\ P4.heuristic (swap_sides threat_board) = 1017.
Proof.
  assert (Ha : P4v2.evaluate_lines (swap_sides b) AI_PLAYER
               = P4v2.evaluate_lines b HUMAN_PLAYER)
    by apply (evaluate_lines_swap_sides b HUMAN_PLAYER).
  assert (Hh : P4v2.evaluate_lines (swap_sides b) HUMAN_PLAYER
               = P4v2.evaluate_lines b AI_PLAYER)
    by apply (evaluate_lines_swap_sides b AI_PLAYER).
  split; [exact Ha|]. split; [exact Hh|]. split.
  - unfold P4v2.evaluate_position. rewrite Ha, Hh. lia.
  - split; vm_compute; reflexivity.
Qed.

(** ** The game loop of P4.py *)

Lemma IA_Decision_valid (expired : nat -> bool) (r : nat) (b : board) :
  P4.Terminal_Test b = false ->
  exists col, P4.IA_Decision expired r b = Some col
              /\ is_valid_move b col = true.
Proof.
  intros Hterm. pose proof (not_terminal_moves b Hterm) as Hmoves.
  unfold P4.IA_Decision, P4.IA_Decision_at.
  destruct (decision_loop_first P4.MAX_DEPTH expired b _ Hmoves) as [c Hc].
  exists c. rewrite Hc. split; [reflexivity|].
  apply decision_loop_in in Hc as [Hin|Hbm]; [|discriminate].
  apply get_valid_moves_spec, list_elem_of_In.
  rewrite <- (prioritize_moves_perm b). apply list_elem_of_In. assumption.
Qed.

Lemma filter_length_all (g : nat * nat -> bool) (l : list (nat * nat)) :
  (length l <= length (List.filter g l))%nat ->
  forall x, In x l -> g x = true.
Proof.
  induction l as [|y l IH]; intros Hlen x Hin; [destruct Hin|].
  simpl in Hlen. pose proof (List.filter_length_le g l) as Hle.
  destruct (g y) eqn:Hy; simpl in Hlen; [|lia].
  destruct Hin as [<-|Hin]; [assumption|]. apply IH; [lia | assumption].
Qed.

Lemma pieces_all_full (b : board) :
  (ROWS * COLS <= pieces b)%nat -> is_board_full b = true.
Proof.
  intros Hall. apply is_board_full_spec. intros col Hcol.
  assert (Hin : In (0%nat, col) grid) by (apply grid_spec; unfold ROWS; lia).
  pose proof (filter_length_all _ grid Hall _ Hin) as Hocc. simpl in Hocc.
  apply negb_true_iff, Z.eqb_neq in Hocc. assumption.
Qed.

Lemma is_valid_input_move (b : board) (col : Z) :
  P4_game.is_valid_input b col = true ->
  is_valid_move b (Z.to_nat col) = true.
Proof.
  unfold P4_game.is_valid_input. rewrite !andb_true_iff.
  intros [[H0%Z.leb_le Hlt%Z.ltb_lt] He%Z.eqb_eq].
  apply is_valid_move_spec. split; [lia | assumption].
Qed.

Section GameP4.

Variable strip : string -> string.
Variable int : string -> option Z.
Variable expired : nat -> nat -> bool.
Variable draw : nat -> nat.

Lemma human_move_spec (b : board) (inputs : list string) :
  forall out b' rest,
    P4_game.human_move strip int b inputs = (out, Some (b', rest)) ->
    exists col, is_valid_move b col = true
                /\ b' = fst (drop_piece b col HUMAN_PLAYER).
Proof.
  induction inputs as [|s inputs IH]; intros out b' rest Hmove;
    [discriminate|].
  simpl in Hmove. destruct (int (strip s)) as [col|].
  - destruct (P4_game.is_valid_input b col) eqn:Hv.
    + injection Hmove as _ <- _. exists (Z.to_nat col).
      split; [apply is_valid_input_move; assumption | reflexivity].
    + destruct (P4_game.human_move strip int b inputs) as [o res].
      injection Hmove as _ ->. eapply IH. reflexivity.
  - destruct (P4_game.human_move strip int b inputs) as [o res].
    injection Hmove as _ ->. eapply IH. reflexivity.
Qed.

Lemma turn_spec (b : board) (cur : Z) (inputs : list string) (n : nat) :
  is_player cur = true -> P4.Terminal_Test b = false ->
  match P4_game.turn strip int expired draw b cur inputs n with
  | (_, Some (b', _, _)) =>
      exists col, is_valid_move b col = true
                  /\ b' = fst (drop_piece b col cur)
  | (_, None) => cur = HUMAN_PLAYER
  end.
Proof.
  intros Hcur Hterm. unfold P4_game.turn.
  destruct (Z.eqb_spec cur HUMAN_PLAYER) as [->|Hne].
  - destruct (P4_game.human_move strip int b inputs) as [out [[b' rest]|]]
      eqn:Hmove; [|reflexivity].
    eapply human_move_spec. exact Hmove.
  - apply is_player_spec in Hcur as [->|Hh]; [|contradiction].
    destruct (IA_Decision_valid (expired n) (draw n) b Hterm)
      as (col & -> & Hv).
    exists col. auto.
Qed.

Lemma game_loop_spec (fuel : nat) :
  forall b cur inputs n out how bf,
    is_player cur = true -> board_shape b = true ->
    (ROWS * COLS <= pieces b + fuel)%nat ->
    P4_game.game_loop strip int expired draw fuel b cur inputs n
    = (out, how, bf) ->
    (exists moves, play moves cur b = Some bf)
    /\ (how = P4_game.Returns \/ how = P4_game.EOFError)
    /\ (how = P4_game.Returns ->
        P4.Terminal_Test bf = true
        /\ (P4.Terminal_Test b = false ->
            exists out' msg,
              out = out' ++ [P4_game.Show bf; msg]
              /\ P4_game.verdict msg bf))
    /\ (how = P4_game.EOFError -> P4.Terminal_Test bf = false).
Proof.
  induction fuel as [|fuel IH]; intros b cur inputs n out how bf Hcur Hs Hfuel;
    simpl; destruct (P4.Terminal_Test b) eqn:Hterm.
  - intros [= <- <- <-]. split; [exists []; reflexivity|].
    split; [left; reflexivity|]. split; [|discriminate].
    intros _. split; [assumption | discriminate].
  - exfalso. rewrite Nat.add_0_r in Hfuel.
    apply pieces_all_full in Hfuel. unfold P4.Terminal_Test in Hterm.
    rewrite Hfuel, orb_true_r in Hterm. discriminate.
  - intros [= <- <- <-]. split; [exists []; reflexivity|].
    split; [left; reflexivity|]. split; [|discriminate].
    intros _. split; [assumption | discriminate].
  - pose proof (turn_spec b cur inputs n Hcur Hterm) as Hturn.
    destruct (P4_game.turn strip int expired draw b cur inputs n)
      as [o [[[b' rest] n']|]].
    + destruct Hturn as (col & Hv & ->).
      set (b' := fst (drop_piece b col cur)) in *.
      assert (Hone : play [col] cur b = Some b').
      { simpl. rewrite Hterm, Hv. reflexivity. }
      destruct (P4.check_win b' HUMAN_PLAYER) eqn:Hhu;
        [|destruct (P4.check_win b' AI_PLAYER) eqn:Hai;
          [|destruct (is_board_full b') eqn:Hfull]].
      * intros [= <- <- <-]. split; [exists [col]; exact Hone|].
        split; [left; reflexivity|]. split; [|discriminate].
        intros _. split.
        { unfold P4.Terminal_Test. rewrite Hhu, orb_true_r. reflexivity. }
        intros _. exists (P4_game.Show b :: o), P4_game.HumanWins.
        split; [reflexivity|]. left. auto.
      * intros [= <- <- <-]. split; [exists [col]; exact Hone|].
        split; [left; reflexivity|]. split; [|discriminate].
        intros _. split.
        { unfold P4.Terminal_Test. rewrite Hai. reflexivity. }
        intros _. exists (P4_game.Show b :: o), P4_game.AIWins.
        split; [reflexivity|]. right. left. auto.
      * intros [= <- <- <-]. split; [exists [col]; exact Hone|].
        split; [left; reflexivity|]. split; [|discriminate].
        intros _. split.
        { unfold P4.Terminal_Test. rewrite Hfull, orb_true_r. reflexivity. }
        intros _. exists (P4_game.Show b :: o), P4_game.ItsADraw.
        split; [reflexivity|]. right. right. auto.
      * assert (Hterm' : P4.Terminal_Test b' = false).
        { unfold P4.Terminal_Test. rewrite Hhu, Hai, Hfull. reflexivity. }
        assert (Hnext : (if cur =? AI_PLAYER then HUMAN_PLAYER
                         else AI_PLAYER) = - cur).
        { apply is_player_spec in Hcur as [->| ->]; reflexivity. }
        rewrite Hnext.
        destruct (P4_game.game_loop strip int expired draw fuel b' (- cur)
                    rest n') as [[out' how'] bf'] eqn:Hloop.
        intros [= <- <- <-].
        destruct (drop_piece_counts b col cur Hs Hcur Hv) as (Hn & _ & _).
        destruct (IH b' (- cur) rest n' out' how' bf') as
          ((moves & Hplay) & Hhow & Hret & Heof).
        { apply is_player_opp. assumption. }
        { apply board_shape_drop_piece. assumption. }
        { fold b' in Hn. lia. }
        { exact Hloop. }
        split.
        { exists (col :: moves). simpl. rewrite Hterm, Hv. exact Hplay. }
        split; [exact Hhow|]. split; [|exact Heof].
        intros Hr. destruct (Hret Hr) as [Htf Hlast]. split; [exact Htf|].
        intros _. destruct (Hlast Hterm') as (o1 & msg & -> & Hverdict).
        exists (P4_game.Show b :: o ++ o1), msg. split; [|exact Hverdict].
        simpl. rewrite <- app_assoc. reflexivity.
    + subst cur. simpl. intros [= <- <- <-].
      split; [exists []; reflexivity|]. split; [right; reflexivity|].
      split; [discriminate|]. intros _. assumption.
Qed.

End GameP4.

(** X16. Whatever is typed and whatever the clock, [play_game] of P4.py ends
    in one of two ways: it returns, or [input()] runs out of lines. The
    engine's decision never fails and the game needs no more than 72 turns.
    The board at the end is reached from the empty board by alternating
    legal play. When the function returns, the game is over on that board
    and the last two things printed are the board and a message that is
    true of it: "Human wins!" with four in a row of the human, "AI wins!"
    with four in a row of the engine only, "It's a draw!" with a full board
    and no four in a row. When the input runs out, the game is not over. *)
Theorem play_game_ends_with_true_verdict (strip : string -> string)
    (int : string -> option Z) (expired : nat -> nat -> bool)
    (draw : nat -> nat) (inputs : list string) :
  forall out how bf,
    P4_game.play_game strip int expired draw inputs = (out, how, bf) ->
    (how = P4_game.Returns \/ how = P4_game.EOFError)
    /\ reachable bf
    /\ (how = P4_game.Returns ->
        P4.Terminal_Test bf = true
        /\ exists out' msg,
             out = out' ++ [P4_game.Show bf; msg] /\ P4_game.verdict msg bf)
    /\ (how = P4_game.EOFError -> P4.Terminal_Test bf = false).
Proof.
  intros out how bf. unfold P4_game.play_game.
  destruct (P4_game.choose_start strip inputs) as [o [[human_starts rest]|]].
  - set (cur := if human_starts then HUMAN_PLAYER else AI_PLAYER).
    assert (Hcur : is_player cur = true)
      by (unfold cur; destruct human_starts; reflexivity).
    destruct (P4_game.game_loop strip int expired draw (ROWS * COLS)
                empty_board cur rest 0) as [[out' how'] bf'] eqn:Hloop.
    intros [= <- <- <-].
    destruct (game_loop_spec strip int expired draw (ROWS * COLS) empty_board
                cur rest 0%nat out' how' bf' Hcur eq_refl
                ltac:(lia) Hloop)
      as ((moves & Hplay) & Hhow & Hret & Heof).
    split; [exact Hhow|].
    split; [exists moves, cur; split; assumption|].
    split; [|exact Heof].
    intros Hr. destruct (Hret Hr) as [Hterm Hlast]. split; [exact Hterm|].
    destruct (Hlast eq_refl) as (o1 & msg & -> & Hverdict).
    exists (o ++ o1), msg. split; [|exact Hverdict].
    rewrite <- app_assoc. reflexivity.
  - intros [= <- <- <-]. split; [right; reflexivity|].
    split; [exists [], AI_PLAYER; split; reflexivity|].
    split; [discriminate|]. intros _. reflexivity.
Qed.

Lemma play_game_ends_with_true_verdict_witness :
  exists out bf,
    P4_game.play_game (fun s => s) int_decimal (fun _ _ => true)
      (fun _ => 0%nat) ["x"; "1"; "2"; "3"; "y"; "12"; "1"; "4"]%string
    = (out, P4_game.Returns, bf)
    /\ List.filter P4_game.is_message out
       = [P4_game.InvalidChoice; P4_game.HumanPlayed 2; P4_game.AIPlayed 5;
          P4_game.HumanPlayed 3; P4_game.AIPlayed 5; P4_game.NotANumber;
          P4_game.InvalidMove; P4_game.HumanPlayed 1; P4_game.AIPlayed 0;
          P4_game.HumanPlayed 4; P4_game.HumanWins]
    /\ (P4_game.Returns = P4_game.Returns
        \/ P4_game.Returns = P4_game.EOFError)
    /\ reachable bf
    /\ (P4_game.Returns = P4_game.Returns ->
        P4.Terminal_Test bf = true
        /\ exists out' msg,
             out = out' ++ [P4_game.Show bf; msg] /\ P4_game.verdict msg bf)
    /\ (P4_game.Returns = P4_game.EOFError -> P4.Terminal_Test bf = false).
Proof.
  set (game := P4_game.play_game (fun s => s) int_decimal (fun _ _ => true)
                 (fun _ => 0%nat)
                 ["x"; "1"; "2"; "3"; "y"; "12"; "1"; "4"]%string).
  assert (Hval : (snd (fst game), List.filter P4_game.is_message (fst (fst game)))
                 = (P4_game.Returns,
                    [P4_game.InvalidChoice; P4_game.HumanPlayed 2;
                     P4_game.AIPlayed 5; P4_game.HumanPlayed 3;
                     P4_game.AIPlayed 5; P4_game.NotANumber;
                     P4_game.InvalidMove; P4_game.HumanPlayed 1;
                     P4_game.AIPlayed 0; P4_game.HumanPlayed 4;
                     P4_game.HumanWins]))
    by (vm_compute; reflexivity).
  destruct game as [[out how] bf] eqn:Hgame. cbn [fst snd] in Hval.
  injection Hval as Hhow Hmsgs. subst how.
  exists out, bf. split; [reflexivity|]. split; [exact Hmsgs|].
  exact (play_game_ends_with_true_verdict (fun s => s) int_decimal
           (fun _ _ => true) (fun _ => 0%nat)
           ["x"; "1"; "2"; "3"; "y"; "12"; "1"; "4"]%string
           out P4_game.Returns bf Hgame).
Defined.

Lemma IA_Decision_depth (expired : nat -> bool) (r : nat) (b : board) :
  P4.IA_Decision expired r b = P4.IA_Decision_at P4.MAX_DEPTH expired r b.
Proof. reflexivity. Qed.

(** [decision_first_column] for any clock. *)
Lemma decision_first_column_any (md : nat) (expired : nat -> bool) (r : nat)
    (b : board) (c0 : nat) (rest : list nat) :
  P4.prioritize_moves b = c0 :: rest ->
  (forall c, In c rest ->
     P4.min_value (fst (drop_piece b c AI_PLAYER)) NegInf PosInf (md - 1)
     = Fin (-10000)) ->
  P4.IA_Decision_at md expired r b = Some c0.
Proof.
  intros Hmoves Hlost. unfold P4.IA_Decision_at. rewrite Hmoves.
  cbn [P4.decision_loop].
  destruct (proj2 (search_floor (md - 1) (fst (drop_piece b c0 AI_PLAYER))
                     NegInf PosInf)) as (z & -> & Hz).
  cbn [ext_ltb ext_leb negb].
  destruct (expired 0%nat); [reflexivity|].
  rewrite decision_loop_stays_any by assumption. reflexivity.
Qed.

Lemma assert_blocked_passes (b : board) (expired : nat -> bool) (r : nat) :
  P4.IA_Decision expired r b = Some 3%nat ->
  P4_game.test_blocking_threat b expired r = P4_game.Passes.
Proof.
  intros Hdec. unfold P4_game.test_blocking_threat. rewrite Hdec. reflexivity.
Qed.

(** X17. [test_blocking_threat()] of P4.py passes whatever the clock and
    the random draw: on its board, with the opponent on columns 0, 1 and 2
    of the bottom row, [IA_Decision] returns 3 and the assertion holds. *)
Theorem test_blocking_threat_passes (expired : nat -> bool) (r : nat) :
  P4_game.test_blocking_threat threat_board expired r = P4_game.Passes.
Proof.
  apply assert_blocked_passes. rewrite IA_Decision_depth.
  apply (decision_first_column_any P4.MAX_DEPTH expired r threat_board 3%nat
           [5; 6; 4; 7; 8; 0; 1; 2; 9; 10; 11]%nat).
  - vm_compute. reflexivity.
  - intros c Hc.
    apply (min_value_lost (fst (drop_piece threat_board c AI_PLAYER)) 4).
    assert (Hall : forallb (fun c =>
                      loses_at_once (fst (drop_piece threat_board c AI_PLAYER)))
                     [5; 6; 4; 7; 8; 0; 1; 2; 9; 10; 11]%nat = true)
      by (vm_compute; reflexivity).
    rewrite forallb_forall in Hall. apply Hall. assumption.
Qed.

(** ** The game loop of P4v2.py *)

Lemma IA_Decision_v2_valid (expired : nat -> bool) (r : nat) (b : board) :
  P4v2.Terminal_Test b = false ->
  exists col, P4v2.IA_Decision expired r b = Some col
              /\ is_valid_move b col = true.
Proof.
  rewrite Terminal_Test_v2. unfold P4.Terminal_Test.
  intros [_ Hfull]%orb_false_iff.
  destruct (random_choice_some r (get_valid_moves b)
              (not_full_valid_move b Hfull)) as [bm Hbm].
  unfold P4v2.IA_Decision, P4v2.IA_Decision_at. rewrite Hbm.
  eexists. split; [reflexivity|]. apply get_valid_moves_spec.
  destruct (decision_loop_v2_in expired P4v2.BASE_DEPTH b (get_valid_moves b)
              NegInf bm 0%nat) as [Hin| ->]; [assumption|].
  apply random_choice_in in Hbm. assumption.
Qed.

Lemma is_valid_input_v2_move (b : board) (col : Z) :
  P4v2_game.is_valid_input b col = true ->
  is_valid_move b (Z.to_nat col) = true.
Proof.
  unfold P4v2_game.is_valid_input. intros (c & Hin & He%Z.eqb_eq)%existsb_exists.
  subst col. rewrite Nat2Z.id. apply get_valid_moves_spec. assumption.
Qed.

Section GameP4v2.

Variable int : string -> option Z.
Variable expired : nat -> nat -> bool.
Variable draw : nat -> nat.

Lemma turn_v2_spec (b : board) (cur : Z) (inputs : list string) (n : nat) :
  is_player cur = true -> P4v2.Terminal_Test b = false ->
  match P4v2_game.turn int expired draw b cur inputs n with
  | (_, inl how) =>
      how = P4v2_game.EOFError
      \/ (how = P4v2_game.ValueError /\ exists s, In s inputs /\ int s = None)
  | (_, inr (b', cur', rest, _)) =>
      (forall s, In s rest -> In s inputs)
      /\ ((b' = b /\ cur' = cur /\ (length rest < length inputs)%nat)
          \/ (exists col, is_valid_move b col = true
                          /\ b' = fst (drop_piece b col cur))
             /\ cur' = - cur /\ (length rest <= length inputs)%nat)
  end.
Proof.
  intros Hcur Hterm. unfold P4v2_game.turn, P4v2_game.next_player.
  destruct (Z.eqb_spec cur HUMAN_PLAYER) as [->|Hne].
  - destruct inputs as [|s rest]; [left; reflexivity|].
    destruct (int s) as [col|] eqn:Hint.
    + destruct (P4v2_game.is_valid_input b col) eqn:Hv; simpl.
      * split; [intros s' Hs'; right; assumption|]. right.
        split; [|split; [reflexivity | lia]].
        exists (Z.to_nat col).
        split; [apply is_valid_input_v2_move; assumption | reflexivity].
      * split; [intros s' Hs'; right; assumption|]. left.
        split; [reflexivity|]. split; [reflexivity | lia].
    + right. split; [reflexivity|]. exists s. split; [left; reflexivity|].
      assumption.
  - apply is_player_spec in Hcur as [->|Hh]; [|contradiction].
    destruct (IA_Decision_v2_valid (expired n) (draw n) b Hterm)
      as (col & -> & Hv).
    split; [auto|]. right. split; [exists col; auto|].
    split; [reflexivity | lia].
Qed.

Lemma game_loop_v2_spec (fuel : nat) :
  forall b cur inputs n out how bf,
    is_player cur = true -> board_shape b = true ->
    (ROWS * COLS + length inputs <= pieces b + fuel)%nat ->
    P4v2_game.game_loop int expired draw fuel b cur inputs n
    = (out, how, bf) ->
    (exists moves, play moves cur b = Some bf)
    /\ (how = P4v2_game.Returns \/ how = P4v2_game.EOFError
        \/ how = P4v2_game.ValueError)
    /\ (how = P4v2_game.Returns -> P4v2.Terminal_Test bf = true)
    /\ (how <> P4v2_game.Returns -> P4v2.Terminal_Test bf = false)
    /\ (how = P4v2_game.ValueError ->
        exists s, In s inputs /\ int s = None).
Proof.
  induction fuel as [|fuel IH]; intros b cur inputs n out how bf Hcur Hs Hfuel;
    simpl; destruct (P4v2.Terminal_Test b) eqn:Hterm.
  - intros [= <- <- <-]. split; [exists []; reflexivity|].
    split; [left; reflexivity|]. split; [intros _; assumption|].
    split; [congruence | discriminate].
  - exfalso. assert (Hall : (ROWS * COLS <= pieces b)%nat) by lia.
    apply pieces_all_full in Hall. rewrite Terminal_Test_v2 in Hterm.
    unfold P4.Terminal_Test in Hterm.
    rewrite Hall, orb_true_r in Hterm. discriminate.
  - intros [= <- <- <-]. split; [exists []; reflexivity|].
    split; [left; reflexivity|]. split; [intros _; assumption|].
    split; [congruence | discriminate].
  - pose proof (turn_v2_spec b cur inputs n Hcur Hterm) as Hturn.
    destruct (P4v2_game.turn int expired draw b cur inputs n)
      as [o [how0|[[[b' cur'] rest] n']]].
    + intros [= <- <- <-]. split; [exists []; reflexivity|].
      split; [destruct Hturn as [->|[-> _]]; auto|].
      split; [destruct Hturn as [->|[-> _]]; discriminate|].
      split; [intros _; assumption|].
      destruct Hturn as [->|[_ Hs']]; [discriminate | intros _; assumption].
    + destruct (P4v2_game.game_loop int expired draw fuel b' cur' rest n')
        as [[out' how'] bf'] eqn:Hloop.
      intros [= <- <- <-]. destruct Hturn as [Hincl Hturn].
      destruct Hturn as [(-> & -> & Hlen)|((col & Hv & ->) & -> & Hlen)].
      * destruct (IH b cur rest n' out' how' bf' Hcur Hs ltac:(lia) Hloop)
          as (Hplay & Hhow & Hret & Hexc & Hval).
        split; [exact Hplay|]. split; [exact Hhow|]. split; [exact Hret|].
        split; [exact Hexc|]. intros Hve.
        destruct (Hval Hve) as (s & Hin & Hint). exists s. auto.
      * destruct (drop_piece_counts b col cur Hs Hcur Hv) as (Hn & _ & _).
        destruct (IH (fst (drop_piece b col cur)) (- cur) rest n' out' how'
                    bf') as ((moves & Hplay) & Hhow & Hret & Hexc & Hval).
        { apply is_player_opp. assumption. }
        { apply board_shape_drop_piece. assumption. }
        { lia. }
        { exact Hloop. }
        split.
        { exists (col :: moves). simpl.
          rewrite <- Terminal_Test_v2, Hterm, Hv. exact Hplay. }
        split; [exact Hhow|]. split; [exact Hret|].
        split; [exact Hexc|]. intros Hve.
        destruct (Hval Hve) as (s & Hin & Hint). exists s. auto.
Qed.

Lemma announce_verdict (b : board) :
  P4v2.Terminal_Test b = true ->
  P4v2_game.verdict (P4v2_game.announce b) b.
Proof.
  unfold P4v2.Terminal_Test, P4v2_game.announce, P4v2_game.verdict.
  destruct (P4v2.check_win b AI_PLAYER); [auto|].
  destruct (P4v2.check_win b HUMAN_PLAYER); [auto|].
  simpl. intros ->. right. right. auto.
Qed.

End GameP4v2.

(** X18. Whatever is typed and whatever the clock, [play_game] of P4v2.py
    ends in one of three ways: it returns, [input()] runs out of lines, or
    [int] raises ValueError, which needs a line typed that is not a number.
    The engine's decision never fails, and the loop has at most as many
    turns as lines typed plus 72. The board at the end is reached from the
    empty board by alternating legal play: a move that is not legal is
    refused and leaves the board and the turn as they were. When the
    function returns, the game is over on that board and the last two things
    printed are the board and a message that is true of it; otherwise the
    game is not over. *)
Theorem play_game_v2_ends_with_true_verdict (int : string -> option Z)
    (expired : nat -> nat -> bool) (draw : nat -> nat)
    (inputs : list string) :
  forall out how bf,
    P4v2_game.play_game int expired draw inputs = (out, how, bf) ->
    (how = P4v2_game.Returns \/ how = P4v2_game.EOFError
     \/ how = P4v2_game.ValueError)
    /\ reachable bf
    /\ (how = P4v2_game.Returns ->
        P4v2.Terminal_Test bf = true
        /\ exists out' msg,
             out = out' ++ [P4v2_game.Show bf; msg]
             /\ P4v2_game.verdict msg bf)
    /\ (how <> P4v2_game.Returns -> P4v2.Terminal_Test bf = false)
    /\ (how = P4v2_game.ValueError -> exists s, In s inputs /\ int s = None).
Proof.
  intros out how bf. unfold P4v2_game.play_game.
  destruct inputs as [|s rest].
  { intros [= <- <- <-]. split; [auto|].
    split; [exists [], AI_PLAYER; split; reflexivity|].
    split; [discriminate|]. split; [reflexivity | discriminate]. }
  destruct (int s) as [choice|] eqn:Hint.
  - set (cur := if choice =? 1 then HUMAN_PLAYER else AI_PLAYER).
    assert (Hcur : is_player cur = true)
      by (unfold cur; destruct (choice =? 1); reflexivity).
    destruct (P4v2_game.game_loop int expired draw (length rest + ROWS * COLS)
                empty_board cur rest 0) as [[out' how'] bf'] eqn:Hloop.
    destruct (game_loop_v2_spec int expired draw (length rest + ROWS * COLS)
                empty_board cur rest 0%nat out' how' bf' Hcur eq_refl
                ltac:(lia) Hloop)
      as ((moves & Hplay) & Hhow & Hret & Hexc & Hval).
    assert (Hreach : reachable bf') by (exists moves, cur; split; assumption).
    assert (Hin : how' = P4v2_game.ValueError ->
                  exists s', In s' (s :: rest) /\ int s' = None).
    { intros Hve. destruct (Hval Hve) as (s' & Hs' & Hi).
      exists s'. split; [right; assumption | assumption]. }
    destruct how'; intros [= <- <- <-];
      (split; [auto|]); (split; [exact Hreach|]);
      try (split; [discriminate|]; split; [exact Hexc | exact Hin]);
      try (exfalso; destruct Hhow as [Hh|[Hh|Hh]]; discriminate).
    split; [|split; [congruence | discriminate]].
    intros _. split; [apply Hret; reflexivity|].
    exists out', (P4v2_game.announce bf'). split; [reflexivity|].
    apply announce_verdict, Hret. reflexivity.
  - intros [= <- <- <-]. split; [auto|].
    split; [exists [], AI_PLAYER; split; reflexivity|].
    split; [discriminate|]. split; [reflexivity|].
    intros _. exists s. split; [left; reflexivity | assumption].
Qed.

Lemma play_game_v2_ends_with_true_verdict_witness :
  exists out bf,
    P4v2_game.play_game int_decimal (fun _ _ => true) (fun _ => 0%nat)
      ["2"; "1"; "12"; "2"; "1"]%string
    = (out, P4v2_game.Returns, bf)
    /\ List.filter P4v2_game.is_message out
       = [P4v2_game.Thinking; P4v2_game.AIPlayed 0; P4v2_game.Thinking;
          P4v2_game.AIPlayed 0; P4v2_game.InvalidMove; P4v2_game.Thinking;
          P4v2_game.AIPlayed 0; P4v2_game.Thinking; P4v2_game.AIPlayed 0;
          P4v2_game.AIWins]
    /\ (P4v2_game.Returns = P4v2_game.Returns
        \/ P4v2_game.Returns = P4v2_game.EOFError
        \/ P4v2_game.Returns = P4v2_game.ValueError)
    /\ reachable bf
    /\ (P4v2_game.Returns = P4v2_game.Returns ->
        P4v2.Terminal_Test bf = true
        /\ exists out' msg,
             out = out' ++ [P4v2_game.Show bf; msg]
             /\ P4v2_game.verdict msg bf)
    /\ (P4v2_game.Returns <> P4v2_game.Returns ->
        P4v2.Terminal_Test bf = false)
    /\ (P4v2_game.Returns = P4v2_game.ValueError ->
        exists s,
          In s ["2"; "1"; "12"; "2"; "1"]%string /\ int_decimal s = None).
Proof.
  set (game := P4v2_game.play_game int_decimal (fun _ _ => true)
                 (fun _ => 0%nat) ["2"; "1"; "12"; "2"; "1"]%string).
  assert (Hval : (snd (fst game),
                  List.filter P4v2_game.is_message (fst (fst game)))
                 = (P4v2_game.Returns,
                    [P4v2_game.Thinking; P4v2_game.AIPlayed 0;
                     P4v2_game.Thinking; P4v2_game.AIPlayed 0;
                     P4v2_game.InvalidMove; P4v2_game.Thinking;
                     P4v2_game.AIPlayed 0; P4v2_game.Thinking;
                     P4v2_game.AIPlayed 0; P4v2_game.AIWins]))
    by (vm_compute; reflexivity).
  destruct game as [[out how] bf] eqn:Hgame. cbn [fst snd] in Hval.
  injection Hval as Hhow Hmsgs. subst how.
  exists out, bf. split; [reflexivity|]. split; [exact Hmsgs|].
  exact (play_game_v2_ends_with_true_verdict int_decimal (fun _ _ => true)
           (fun _ => 0%nat) ["2"; "1"; "12"; "2"; "1"]%string
           out P4v2_game.Returns bf Hgame).
Defined.

(** ** Drawing the board *)

Lemma cell_str_char (x : Z) :
  P4_game.cell_str x = String " " (String (cell_char x) " ").
Proof.
  unfold P4_game.cell_str, cell_char.
  destruct (x =? AI_PLAYER); [reflexivity|].
  destruct (x =? HUMAN_PLAYER); reflexivity.
Qed.

Lemma cell_str_v2_char (x : Z) :
  P4v2_game.cell_str x = String (cell_char (- x)) "".
Proof.
  unfold P4v2_game.cell_str, cell_char, AI_PLAYER, HUMAN_PLAYER.
  destruct (Z.eqb_spec x 1) as [->|H1]; [reflexivity|].
  destruct (Z.eqb_spec x (-1)) as [->|H2]; [reflexivity|].
  destruct (Z.eqb_spec (- x) 1); [lia|].
  destruct (Z.eqb_spec (- x) (-1)); [lia|]. reflexivity.
Qed.

Lemma cell_char_inj (x y : Z) :
  (x = EMPTY \/ is_player x = true) -> (y = EMPTY \/ is_player y = true) ->
  cell_char x = cell_char y -> x = y.
Proof.
  intros [->|[->| ->]%is_player_spec] [->|[->| ->]%is_player_spec];
    vm_compute; congruence.
Qed.

Ltac destruct_row r H :=
  do 12 (destruct r as [|? r]; [discriminate H|]);
  destruct r; [clear H | discriminate H].

Lemma row_str_cells (b : board) (row : nat) (r : list Z) :
  b !! row = Some r -> length r = COLS ->
  P4_game.row_str b row
  = "|" +:+ String.concat "" (map P4_game.cell_str r) +:+ "|".
Proof.
  intros Hb Hlen. unfold P4_game.row_str, cell. rewrite Hb.
  destruct_row r Hlen. cbn -[P4_game.cell_str cell_char].
  rewrite !cell_str_char. reflexivity.
Qed.

Lemma row_str_swap (r : list Z) :
  length r = COLS ->
  P4v2_game.row_str r
  = "|" +:+ String.concat "" (map P4_game.cell_str (map Z.opp r)) +:+ "|".
Proof.
  intros Hlen. unfold P4v2_game.row_str. destruct_row r Hlen.
  cbn -[P4_game.cell_str P4v2_game.cell_str cell_char Z.opp].
  rewrite !cell_str_char, !cell_str_v2_char. reflexivity.
Qed.

Lemma row_cells_inj (r1 r2 : list Z) :
  length r1 = COLS -> length r2 = COLS ->
  (forall x, In x r1 -> x = EMPTY \/ is_player x = true) ->
  (forall x, In x r2 -> x = EMPTY \/ is_player x = true) ->
  "|" +:+ String.concat "" (map P4_game.cell_str r1) +:+ "|"
  = "|" +:+ String.concat "" (map P4_game.cell_str r2) +:+ "|" ->
  r1 = r2.
Proof.
  intros H1 H2 Hv1 Hv2. destruct_row r1 H1. destruct_row r2 H2.
  cbn -[P4_game.cell_str cell_char]. rewrite !cell_str_char.
  cbn -[cell_char]. intros Heq. injection Heq as E0 E1 E2 E3 E4 E5 E6 E7 E8 E9 E10 E11.
  repeat f_equal; apply cell_char_inj; try assumption;
    try (apply Hv1; simpl; tauto); try (apply Hv2; simpl; tauto).
Qed.

Lemma board_shape_rows (b : board) :
  board_shape b = true ->
  length b = ROWS /\ forall i r, b !! i = Some r -> length r = COLS.
Proof.
  unfold board_shape. intros [Hl%Nat.eqb_eq Hr]%andb_true_iff.
  split; [assumption|]. intros i r Hi. rewrite forallb_forall in Hr.
  apply Nat.eqb_eq, Hr, list_elem_of_In. eapply list_elem_of_lookup_2.
  exact Hi.
Qed.

Lemma cells_valid_row (b : board) (i : nat) (r : list Z) :
  board_shape b = true -> cells_valid b = true -> b !! i = Some r ->
  forall x, In x r -> x = EMPTY \/ is_player x = true.
Proof.
  intros Hs Hv Hi x Hx. destruct (board_shape_rows b Hs) as [Hl Hr].
  apply list_elem_of_In, list_elem_of_lookup_1 in Hx as [c Hc].
  pose proof (lookup_lt_Some _ _ _ Hi) as Hlt.
  pose proof (lookup_lt_Some _ _ _ Hc) as Hltc.
  rewrite (Hr i r Hi) in Hltc. rewrite Hl in Hlt.
  pose proof (proj1 (cells_valid_spec b) Hv i c Hlt Hltc) as Hcell.
  unfold cell in Hcell. rewrite Hi in Hcell. simpl in Hcell.
  rewrite Hc in Hcell. exact Hcell.
Qed.

Lemma boards_eq_by_rows (b1 b2 : board) :
  length b1 = ROWS -> length b2 = ROWS ->
  (forall i r1 r2, b1 !! i = Some r1 -> b2 !! i = Some r2 -> r1 = r2) ->
  b1 = b2.
Proof.
  intros H1 H2 Hrows. apply list_eq. intros i.
  destruct (b1 !! i) as [r1|] eqn:E1, (b2 !! i) as [r2|] eqn:E2.
  - f_equal. eapply Hrows; eassumption.
  - apply lookup_lt_Some in E1. apply lookup_ge_None in E2. lia.
  - apply lookup_ge_None in E1. apply lookup_lt_Some in E2. lia.
  - reflexivity.
Qed.

Lemma some_eq_inv {A : Type} (x y : A) : Some x = Some y -> x = y.
Proof. intros [= Heq]. exact Heq. Qed.

Lemma lookup_after_first (x : string) (l : list string) (i : nat) :
  ([x] ++ l) !! S i = l !! i.
Proof. reflexivity. Qed.

Lemma framed_inv (x y f g : string) (l1 l2 : list string) :
  [x] ++ l1 ++ [f] = [y] ++ l2 ++ [g] -> l1 = l2.
Proof.
  simpl. intros [= _ Heq]. apply app_inj_tail in Heq as [Heq _]. exact Heq.
Qed.

Lemma print_board_rows (b1 b2 : board) :
  P4_game.print_board b1 = P4_game.print_board b2 ->
  P4_game.board_rows b1 = P4_game.board_rows b2.
Proof. unfold P4_game.print_board. apply framed_inv. Qed.

Lemma print_board_v2_rows (b1 b2 : board) :
  P4v2_game.print_board b1 = P4v2_game.print_board b2 ->
  P4v2_game.board_rows b1 = P4v2_game.board_rows b2.
Proof. unfold P4v2_game.print_board. apply framed_inv. Qed.

Lemma board_rows_lookup (b : board) (i : nat) :
  (i < ROWS)%nat ->
  P4_game.board_rows b !! i = Some (P4_game.row_str b i).
Proof.
  intros Hi. unfold P4_game.board_rows.
  change (map (P4_game.row_str b) (seq 0 ROWS))
    with (P4_game.row_str b <$> seq 0 ROWS).
  rewrite list_lookup_fmap, lookup_seq_lt by assumption. reflexivity.
Qed.

Lemma board_rows_v2_lookup (b : board) (i : nat) :
  P4v2_game.board_rows b !! i = P4v2_game.row_str <$> b !! i.
Proof.
  unfold P4v2_game.board_rows.
  change (map P4v2_game.row_str b) with (P4v2_game.row_str <$> b).
  apply list_lookup_fmap.
Qed.

Lemma map_opp_inj (r1 r2 : list Z) : map Z.opp r1 = map Z.opp r2 -> r1 = r2.
Proof.
  revert r2. induction r1 as [|x r1 IH]; intros [|y r2] Heq;
    try discriminate; [reflexivity|].
  injection Heq as Hxy Hr. f_equal; [lia | apply IH; assumption].
Qed.

(** X19. [print_board] shows the position: two boards of the fixed shape
    whose cells hold [EMPTY] or a player and that [print_board] of P4.py
    prints alike are the same board, and so for [print_board] of P4v2.py. *)
Theorem print_board_shows_the_position (b1 b2 : board) :
  board_shape b1 = true -> board_shape b2 = true ->
  cells_valid b1 = true -> cells_valid b2 = true ->
  (P4_game.print_board b1 = P4_game.print_board b2 -> b1 = b2)
  /\ (P4v2_game.print_board b1 = P4v2_game.print_board b2 -> b1 = b2).
Proof.
  intros Hs1 Hs2 Hv1 Hv2.
  destruct (board_shape_rows b1 Hs1) as [Hl1 Hr1].
  destruct (board_shape_rows b2 Hs2) as [Hl2 Hr2].
  split; intros Heq; apply boards_eq_by_rows; try assumption;
    intros i r1 r2 Hi1 Hi2.
  - apply print_board_rows in Heq.
    pose proof (lookup_lt_Some _ _ _ Hi1) as Hlt. rewrite Hl1 in Hlt.
    assert (Hrow : P4_game.row_str b1 i = P4_game.row_str b2 i).
    { apply (f_equal (fun l => l !! i)) in Heq.
      rewrite !board_rows_lookup in Heq by assumption.
      exact (some_eq_inv _ _ Heq). }
    rewrite (row_str_cells b1 i r1 Hi1 (Hr1 i r1 Hi1)) in Hrow.
    rewrite (row_str_cells b2 i r2 Hi2 (Hr2 i r2 Hi2)) in Hrow.
    apply row_cells_inj; eauto using cells_valid_row.
  - apply print_board_v2_rows in Heq.
    assert (Hrow : P4v2_game.row_str r1 = P4v2_game.row_str r2).
    { apply (f_equal (fun l => l !! i)) in Heq.
      rewrite !board_rows_v2_lookup, Hi1, Hi2 in Heq.
      exact (some_eq_inv _ _ Heq). }
    rewrite (row_str_swap r1 (Hr1 i r1 Hi1)) in Hrow.
    rewrite (row_str_swap r2 (Hr2 i r2 Hi2)) in Hrow.
    apply map_opp_inj. apply row_cells_inj.
    + rewrite length_map. eauto.
    + rewrite length_map. eauto.
    + intros x (y & <- & Hy)%in_map_iff.
      destruct (cells_valid_row b1 i r1 Hs1 Hv1 Hi1 y Hy) as [->|Hp];
        [left; reflexivity | right; apply is_player_opp; assumption].
    + intros x (y & <- & Hy)%in_map_iff.
      destruct (cells_valid_row b2 i r2 Hs2 Hv2 Hi2 y Hy) as [->|Hp];
        [left; reflexivity | right; apply is_player_opp; assumption].
    + exact Hrow.
Qed.

Lemma print_board_shows_the_position_witness :
  (P4_game.print_board threat_board = P4_game.print_board empty_board ->
   threat_board = empty_board)
  /\ (P4v2_game.print_board threat_board = P4v2_game.print_board empty_board ->
      threat_board = empty_board).
Proof.
  apply (print_board_shows_the_position threat_board empty_board);
    vm_compute; reflexivity.
Defined.

(** X20. The two programs draw the same picture with the letters exchanged:
    on a board of the fixed shape, the lines of the six rows that
    [print_board] of P4v2.py prints are those that [print_board] of P4.py
    prints for the board with every piece given to the other side. *)
Theorem print_board_v2_swaps_letters (b : board) (i : nat) :
  board_shape b = true -> (1 <= i <= ROWS)%nat ->
  P4v2_game.print_board b !! i = P4_game.print_board (swap_sides b) !! i.
Proof.
  intros Hs [H1 Hi]. destruct (board_shape_rows b Hs) as [Hl Hr].
  destruct i as [|i]; [lia|].
  unfold P4v2_game.print_board, P4_game.print_board.
  rewrite !lookup_after_first.
  assert (Hlt : (i < ROWS)%nat) by lia.
  rewrite !lookup_app_l.
  - rewrite board_rows_lookup, board_rows_v2_lookup by assumption.
    destruct (lookup_lt_is_Some_2 b i ltac:(lia)) as [r Hri].
    rewrite Hri. simpl. f_equal.
    rewrite (row_str_swap r (Hr i r Hri)).
    symmetry. apply row_str_cells.
    + unfold swap_sides.
      change (map (map Z.opp) b) with (map Z.opp <$> b).
      rewrite list_lookup_fmap, Hri. reflexivity.
    + rewrite length_map. eauto.
  - unfold P4_game.board_rows. rewrite length_map, length_seq. assumption.
  - unfold P4v2_game.board_rows. rewrite length_map. lia.
Qed.

Lemma print_board_v2_swaps_letters_witness :
  P4v2_game.print_board threat_board !! 6%nat
  = P4_game.print_board (swap_sides threat_board) !! 6%nat.
Proof.
  apply (print_board_v2_swaps_letters threat_board 6);
    [vm_compute; reflexivity | unfold ROWS; lia].
Defined.
